(** * Storage provisioning script: [src/scripts/setupStorage.ts]

    A shallow embedding of the provisioning script.  The script is a
    straight-line sequence of remote calls, local file-system calls and
    console output, wrapped in one [try]/[catch].  It is embedded as a
    finite tree of effects ([prog]); a run is the execution of that tree
    against a [World], an oracle that answers every call (by returning a
    value or by throwing) and that may look at the whole history of the run.
    The trace of a run lists, in order, every call with its outcome and every
    console line. *)

From Stdlib Require Import String Ascii List ZArith Lia Bool DecimalString.
Import ListNotations.
Local Open Scope string_scope.
Local Open Scope list_scope.

(** String concatenation, JavaScript's [+] on strings and the splicing of
    template literals. *)
Infix "+++" := String.append (at level 60, right associativity).

(* ================================================================== *)
(** ** JavaScript strings *)
(* ================================================================== *)

(** File names and messages are byte strings.  An ASCII byte never occurs
    inside the UTF-8 encoding of a non-ASCII character, so suffix tests
    against ASCII patterns agree with the tests on UTF-16 code units. *)

Definition dquote : string := String (ascii_of_nat 34) EmptyString.
Definition newline : string := String (ascii_of_nat 10) EmptyString.

Fixpoint map_string (f : ascii -> ascii) (s : string) : string :=
  match s with
  | EmptyString => EmptyString
  | String c r => String (f c) (map_string f r)
  end.

(** [String.prototype.includes]. *)
Fixpoint includes (s needle : string) : bool :=
  prefix needle s ||
  match s with
  | EmptyString => false
  | String _ r => includes r needle
  end.

Definition lower_ascii (c : ascii) : ascii :=
  let n := nat_of_ascii c in
  if (65 <=? n)%nat && (n <=? 90)%nat then ascii_of_nat (n + 32) else c.

Definition upper_ascii (c : ascii) : ascii :=
  let n := nat_of_ascii c in
  if (97 <=? n)%nat && (n <=? 122)%nat then ascii_of_nat (n - 32) else c.

(** [String.prototype.toLowerCase] on ASCII text. *)
Definition toLowerCase (s : string) : string := map_string lower_ascii s.

(** [s.replace(/ /g, "_")]. *)
Definition replace_spaces (s : string) : string :=
  map_string (fun c => if Ascii.eqb c " " then "_"%char else c) s.

(** [s.substring(n)]. *)
Fixpoint substring_from (n : nat) (s : string) : string :=
  match n, s with
  | O, _ => s
  | S n', String _ r => substring_from n' r
  | S _, EmptyString => EmptyString
  end.

(** Decimal rendering of [files.length] inside a template literal. *)
Definition string_of_nat (n : nat) : string :=
  NilEmpty.string_of_uint (Nat.to_uint n).

(* ------------------------------------------------------------------ *)
(** *** The regular expression [/\.(jpg|jpeg|png|gif)$/i] *)

(** Canonicalize of the regular-expression semantics without the [u] flag:
    a character is compared through its upper-case form. *)
Definition canonicalize (c : ascii) : ascii := upper_ascii c.

(** Matches the literal [pat] at the start of [s], ignoring case, and
    returns the rest of the input. *)
Fixpoint match_literal_ci (pat s : string) : option string :=
  match pat with
  | EmptyString => Some s
  | String p pat' =>
      match s with
      | EmptyString => None
      | String c s' =>
          if Ascii.eqb (canonicalize p) (canonicalize c)
          then match_literal_ci pat' s' else None
      end
  end.

Definition image_alternatives : list string := ["jpg"; "jpeg"; "png"; "gif"].

(** The pattern anchored at the first character of [s]: a dot, one of the
    alternatives (tried in order), then the end of the input. *)
Definition match_here (s : string) : bool :=
  match s with
  | String c r =>
      Ascii.eqb c "." &&
      existsb (fun alt =>
                 match match_literal_ci alt r with
                 | Some EmptyString => true
                 | _ => false
                 end) image_alternatives
  | EmptyString => false
  end.

(** [file.match(/\.(jpg|jpeg|png|gif)$/i)] as a truth value: the pattern is
    tried at every start position, left to right. *)
Fixpoint image_regex_test (s : string) : bool :=
  match_here s ||
  match s with
  | EmptyString => false
  | String _ r => image_regex_test r
  end.

(* ================================================================== *)
(** ** Node's [path] module (POSIX) *)
(* ================================================================== *)

Module path.

Fixpoint split_slash (s : string) : list string :=
  match s with
  | EmptyString => [EmptyString]
  | String c r =>
      if Ascii.eqb c "/" then EmptyString :: split_slash r
      else match split_slash r with
           | seg :: segs => String c seg :: segs
           | [] => [String c EmptyString]
           end
  end.

(** One segment of [normalizeString]; [acc] is the stack of kept
    segments, last one first. *)
Definition push_segment (allowAboveRoot : bool) (acc : list string) (seg : string)
  : list string :=
  if String.eqb seg EmptyString || String.eqb seg "." then acc
  else if String.eqb seg ".." then
    match acc with
    | top :: below =>
        if String.eqb top ".." then (if allowAboveRoot then seg :: acc else acc)
        else below
    | [] => if allowAboveRoot then [seg] else []
    end
  else seg :: acc.

Definition normalizeString (p : string) (allowAboveRoot : bool) : string :=
  String.concat "/" (List.rev (fold_left (push_segment allowAboveRoot) (split_slash p) [])).

Definition last_char (s : string) : option ascii :=
  match String.length s with
  | O => None
  | S n => String.get n s
  end.

Definition is_slash (c : option ascii) : bool :=
  match c with
  | Some c => Ascii.eqb c "/"
  | None => false
  end.

Definition normalize (p : string) : string :=
  if String.eqb p EmptyString then "."
  else
    let isAbsolute := is_slash (String.get 0 p) in
    let trailingSeparator := is_slash (last_char p) in
    let q := normalizeString p (negb isAbsolute) in
    if String.eqb q EmptyString then
      (if isAbsolute then "/" else if trailingSeparator then "./" else ".")
    else
      let q := if trailingSeparator then q +++ "/" else q in
      if isAbsolute then "/" +++ q else q.

(** [path.join(a, b)]: empty arguments are skipped. *)
Definition join (a b : string) : string :=
  if String.eqb a EmptyString then
    (if String.eqb b EmptyString then "." else normalize b)
  else if String.eqb b EmptyString then normalize a
  else normalize (a +++ "/" +++ b).

(** State of the backwards scan of [path.extname]. *)
Record scan := {
  startDot : Z;
  startPart : Z;
  end_ : Z;
  matchedSlash : bool;
  preDotState : Z
}.

Definition scan0 : scan :=
  {| startDot := -1; startPart := 0; end_ := -1;
     matchedSlash := true; preDotState := 0 |}.

(** The loop [for (i = path.length - 1; i >= 0; --i)]: [rpath] holds the
    characters at indices [i], [i-1], ..., [0]. *)
Fixpoint extname_loop (rpath : list ascii) (i : Z) (st : scan) : scan :=
  match rpath with
  | [] => st
  | code :: rest =>
      if Ascii.eqb code "/" then
        if negb (matchedSlash st) then
          {| startDot := startDot st; startPart := i + 1; end_ := end_ st;
             matchedSlash := matchedSlash st; preDotState := preDotState st |}
        else extname_loop rest (i - 1) st
      else
        let st1 :=
          if (end_ st =? -1)%Z then
            {| startDot := startDot st; startPart := startPart st; end_ := i + 1;
               matchedSlash := false; preDotState := preDotState st |}
          else st in
        let st2 :=
          if Ascii.eqb code "." then
            if (startDot st1 =? -1)%Z then
              {| startDot := i; startPart := startPart st1; end_ := end_ st1;
                 matchedSlash := matchedSlash st1; preDotState := preDotState st1 |}
            else if negb (preDotState st1 =? 1)%Z then
              {| startDot := startDot st1; startPart := startPart st1; end_ := end_ st1;
                 matchedSlash := matchedSlash st1; preDotState := 1 |}
            else st1
          else if negb (startDot st1 =? -1)%Z then
            {| startDot := startDot st1; startPart := startPart st1; end_ := end_ st1;
               matchedSlash := matchedSlash st1; preDotState := -1 |}
          else st1 in
        extname_loop rest (i - 1) st2
  end.

(** [path.slice(a, b)] for [0 <= a <= b]. *)
Definition slice (s : string) (a b : Z) : string :=
  substring (Z.to_nat a) (Z.to_nat (b - a)) s.

Definition extname (p : string) : string :=
  let st := extname_loop (List.rev (list_ascii_of_string p))
                         (Z.of_nat (String.length p) - 1) scan0 in
  if (startDot st =? -1)%Z
     || (end_ st =? -1)%Z
     || (preDotState st =? 0)%Z
     || ((preDotState st =? 1)%Z
         && (startDot st =? end_ st - 1)%Z
         && (startDot st =? startPart st + 1)%Z)
  then EmptyString
  else slice p (startDot st) (end_ st).

End path.

(* ================================================================== *)
(** ** Data exchanged with the storage service and the file system *)
(* ================================================================== *)

(** An error carried inside a result object ([listError], [createError],
    [uploadError], the [error] field of an RPC result). *)
Record ApiError := { message : string }.

(** The [{ data, error }] object every client call resolves to. *)
Record Result (D : Type) := { data : option D; error : option ApiError }.
Arguments data {D} _.
Arguments error {D} _.

Record Bucket := { bucket_id : string; bucket_name : string }.

Record BucketOptions := { public : bool; fileSizeLimit : Z }.

Record FileOptions := { contentType : string; upsert : bool }.

Definition Buffer := list Byte.byte.

(** A thrown value, as the [catch] clauses see it.  The only thing the
    script does with a caught value, besides printing it, is to evaluate
    [error.message.includes("already exists")]:
    - [JsError msg] is an object whose [message] is the string [msg];
    - [JsAnswers b] is any other value on which that expression evaluates,
      to a value of truthiness [b] ([message] is an array, or an object
      with an [includes] method of its own);
    - [JsRaises e] is any other value on which that expression raises [e]
      ([message] is missing, [null] or has no [includes] method, or the
      value itself is [null] or [undefined]: a [TypeError]). *)
Inductive js_value :=
| JsError (msg : string)
| JsAnswers (truthy : bool)
| JsRaises (raised : js_value).

(** A console line. *)
Inductive console :=
| ConsoleLog (text : string)
| ConsoleError (text : string) (obj : js_value).

(** The calls the script makes to the outside. *)
Inductive call :=
| ListBuckets
| CreateBucket (id : string) (options : BucketOptions)
| Rpc (fn : string) (args : list (string * string))
| Upload (bucket : string) (target : string) (body : Buffer) (options : FileOptions)
| ReaddirSync (dir : string)
| ReadFileSync (file : string)
| ExistsSync (dir : string)
| MkdirSync (dir : string)
| WriteFileSync (file : string) (content : string) (encoding : string).

(** What each call evaluates to when it does not throw. *)
Definition resp (c : call) : Type :=
  match c with
  | ListBuckets => Result (list Bucket)
  | CreateBucket _ _ => Result string
  | Rpc _ _ => Result string
  | Upload _ _ _ _ => Result string
  | ReaddirSync _ => list string
  | ReadFileSync _ => Buffer
  | ExistsSync _ => bool
  | MkdirSync _ => unit
  | WriteFileSync _ _ _ => unit
  end.

Inductive outcome (X : Type) :=
| Returned (x : X)
| Threw (e : js_value).
Arguments Returned {X} _.
Arguments Threw {X} _.

(* ================================================================== *)
(** ** Programs as effect trees *)
(* ================================================================== *)

Inductive prog (A : Type) : Type :=
| Ret (a : A)
| Throw (e : js_value)
| Exit (code : Z)
| Log (l : console) (k : prog A)
| Call (c : call) (k : outcome (resp c) -> prog A).
Arguments Ret {A} _.
Arguments Throw {A} _.
Arguments Exit {A} _.
Arguments Log {A} _ _.
Arguments Call {A} _ _.

Fixpoint bind {A B} (p : prog A) (f : A -> prog B) : prog B :=
  match p with
  | Ret a => f a
  | Throw e => Throw e
  | Exit c => Exit c
  | Log l k => Log l (bind k f)
  | Call c k => Call c (fun o => bind (k o) f)
  end.

Notation "x <- p ;; q" := (bind p (fun x => q))
  (at level 61, p at next level, right associativity).
Notation "p ;; q" := (bind p (fun _ => q))
  (at level 61, right associativity).

(** [try { p } catch (error) { handler error }]. *)
Fixpoint try_catch {A} (p : prog A) (handler : js_value -> prog A) : prog A :=
  match p with
  | Ret a => Ret a
  | Throw e => handler e
  | Exit c => Exit c
  | Log l k => Log l (try_catch k handler)
  | Call c k => Call c (fun o => try_catch (k o) handler)
  end.

(** [for (const x of xs) { body x }]. *)
Fixpoint for_each {X} (xs : list X) (body : X -> prog unit) : prog unit :=
  match xs with
  | [] => Ret tt
  | x :: rest => body x ;; for_each rest body
  end.

(** A call whose exception, if any, propagates ([await] included). *)
Definition await (c : call) : prog (resp c) :=
  Call c (fun o => match o with
                   | Returned x => Ret x
                   | Threw e => Throw e
                   end).

Definition console_log (text : string) : prog unit := Log (ConsoleLog text) (Ret tt).
Definition console_error (text : string) (obj : js_value) : prog unit :=
  Log (ConsoleError text obj) (Ret tt).

(** The JavaScript truth value of [buckets?.some(...)], which is
    [undefined] when [buckets] is [null]. *)
Definition truthy (b : option bool) : bool :=
  match b with
  | Some b => b
  | None => false
  end.

(* ================================================================== *)
(** ** The script *)
(* ================================================================== *)

Definition BUCKET_NAME : string := "disc-product-images".

Definition IMAGES_DIR (dirname : string) : string := path.join dirname "../images".

(** Lines 20-45: look the bucket up and create it when it is missing. *)
Definition ensure_bucket : prog unit :=
  r <- await ListBuckets ;;
  let buckets := data r in
  let listError := error r in
  match listError with
  | Some e => Throw (JsError ("Error listing buckets: " +++ message e))
  | None => Ret tt
  end ;;
  let bucketExists :=
    option_map (existsb (fun bucket => String.eqb (bucket_name bucket) BUCKET_NAME)) buckets in
  if negb (truthy bucketExists) then
    console_log ("Creating bucket: " +++ BUCKET_NAME) ;;
    r <- await (CreateBucket BUCKET_NAME
                  {| public := true; fileSizeLimit := 1024 * 1024 * 2 |}) ;;
    let createError := error r in
    match createError with
    | Some e => Throw (JsError ("Error creating bucket: " +++ message e))
    | None => Ret tt
    end ;;
    console_log "Bucket created successfully!"
  else
    console_log "Bucket already exists, skipping creation.".

(** Lines 49-52. *)
Definition enable_rls : call :=
  Rpc "enable_rls" [("table_name", "objects"); ("schema_name", "storage")].

Record Policy := { name : string; sql : string }.

(** Lines 54-88; the text of each template literal, line breaks and
    indentation included, as a function of the bucket name. *)
Definition policies_for (bucket : string) : list Policy :=
  [ {| name := "Allow public uploads";
       sql := newline
         +++ "          CREATE POLICY " +++ dquote +++ "allow_public_uploads" +++ dquote +++ newline
         +++ "          ON storage.objects FOR INSERT" +++ newline
         +++ "          WITH CHECK (bucket_id = '" +++ bucket +++ "' AND auth.role() = 'anon')" +++ newline
         +++ "        " |};
    {| name := "Allow public reads";
       sql := newline
         +++ "          CREATE POLICY " +++ dquote +++ "allow_public_reads" +++ dquote +++ newline
         +++ "          ON storage.objects FOR SELECT" +++ newline
         +++ "          USING (bucket_id = '" +++ bucket +++ "')" +++ newline
         +++ "        " |};
    {| name := "Allow public updates";
       sql := newline
         +++ "          CREATE POLICY " +++ dquote +++ "allow_public_updates" +++ dquote +++ newline
         +++ "          ON storage.objects FOR UPDATE" +++ newline
         +++ "          USING (bucket_id = '" +++ bucket +++ "')" +++ newline
         +++ "          WITH CHECK (bucket_id = '" +++ bucket +++ "')" +++ newline
         +++ "        " |};
    {| name := "Allow public deletes";
       sql := newline
         +++ "          CREATE POLICY " +++ dquote +++ "allow_public_deletes" +++ dquote +++ newline
         +++ "          ON storage.objects FOR DELETE" +++ newline
         +++ "          USING (bucket_id = '" +++ bucket +++ "')" +++ newline
         +++ "        " |} ].

Definition policies : list Policy := policies_for BUCKET_NAME.

(** The request of lines 93-97. *)
Definition create_storage_policy (policy : Policy) : call :=
  Rpc "create_storage_policy"
      [("bucket_id", BUCKET_NAME);
       ("policy_name", replace_spaces (toLowerCase (name policy)));
       ("definition", sql policy)].

(** The [TypeError] that [error.message.includes(...)] raises when
    [error.message] is [undefined]. *)
Definition includes_type_error : js_value :=
  JsError "Cannot read properties of undefined (reading 'includes')".

(** Lines 91-104: the body of the loop over [policies]. *)
Definition create_policy (policy : Policy) : prog unit :=
  try_catch
    (console_log ("Creating policy: " +++ name policy) ;;
     _ <- await (create_storage_policy policy) ;;
     Ret tt)
    (fun error =>
       match error with
       | JsError msg =>
           if negb (includes msg "already exists") then
             console_error ("Error creating policy " +++ name policy +++ ":") error
           else
             console_log ("Policy " +++ name policy +++ " already exists")
       | JsAnswers truthy =>
           if negb truthy then
             console_error ("Error creating policy " +++ name policy +++ ":") error
           else
             console_log ("Policy " +++ name policy +++ " already exists")
       | JsRaises raised => Throw raised
       end).

(** Lines 47-105. *)
Definition setup_policies : prog unit :=
  console_log "Setting up storage policies..." ;;
  _ <- await enable_rls ;;
  for_each policies create_policy.

(** Lines 110-127: the body of the loop over [files]. *)
Definition upload_file (dirname file : string) : prog unit :=
  if image_regex_test file then
    let filePath := path.join (IMAGES_DIR dirname) file in
    fileBuffer <- await (ReadFileSync filePath) ;;
    console_log ("Uploading: " +++ file) ;;
    r <- await (Upload BUCKET_NAME ("product-images/" +++ file) fileBuffer
                  {| contentType := "image/" +++ substring_from 1 (path.extname file);
                     upsert := true |}) ;;
    let uploadError := error r in
    match uploadError with
    | Some e => console_error ("Error uploading " +++ file +++ ":") (JsError (message e))
    | None => console_log ("Successfully uploaded: " +++ file)
    end
  else Ret tt.

(** Lines 106-128. *)
Definition upload_images (dirname : string) : prog unit :=
  files <- await (ReaddirSync (IMAGES_DIR dirname)) ;;
  console_log ("Found " +++ string_of_nat (length files) +++ " files to upload") ;;
  for_each files (upload_file dirname).

(** Lines 136-144: the helper's source text as a function of the bucket
    name spliced into it. *)
Definition helperCode_for (bucket : string) : string :=
  newline
  +++ "import { supabase } from '../config/supabaseClient';" +++ newline
  +++ newline
  +++ "export const getPublicImageUrl = (imageName: string): string => {" +++ newline
  +++ "  const { data } = supabase.storage" +++ newline
  +++ "    .from(" +++ dquote +++ bucket +++ dquote +++ ")" +++ newline
  +++ "    .getPublicUrl(`product-images/${imageName}`);" +++ newline
  +++ "  return data.publicUrl;" +++ newline
  +++ "};".

Definition helperCode : string := helperCode_for BUCKET_NAME.

Definition utilsDir (dirname : string) : string := path.join dirname "../utils".

Definition helperPath (dirname : string) : string :=
  path.join (utilsDir dirname) "storageHelper.ts".

(** Lines 130-152. *)
Definition write_helper (dirname : string) : prog unit :=
  present <- await (ExistsSync (utilsDir dirname)) ;;
  (if negb present then await (MkdirSync (utilsDir dirname)) else Ret tt) ;;
  console_log (newline +++ "Updating public URL helper function...") ;;
  await (WriteFileSync (helperPath dirname) helperCode "utf-8") ;;
  console_log "Storage setup completed successfully!".

(** Lines 153-156: the outer [catch]. *)
Definition on_failure (error : js_value) : prog unit :=
  console_error "Setup failed:" error ;;
  Exit 1.

(** Lines 20-152: the [try] block.  [dirname] is the script's
    [__dirname]. *)
Definition steps (dirname : string) : prog unit :=
  ensure_bucket ;;
  setup_policies ;;
  upload_images dirname ;;
  write_helper dirname.

(** Lines 18-157. *)
Definition setupStorage (dirname : string) : prog unit :=
  try_catch (steps dirname) on_failure.

(* ================================================================== *)
(** ** Runs *)
(* ================================================================== *)

Inductive event :=
| EvLog (l : console)
| EvCall (c : call) (o : outcome (resp c)).

Definition trace := list event.

(** The outside world: the outcome of call [c] after history [h]. *)
Definition World := forall c : call, trace -> outcome (resp c).

Inductive final (A : Type) :=
| Completed (a : A)
| Uncaught (e : js_value)
| Exited (code : Z).
Arguments Completed {A} _.
Arguments Uncaught {A} _.
Arguments Exited {A} _.

Definition after {A} (ev : event) (r : trace * final A) : trace * final A :=
  (ev :: fst r, snd r).

Definition extend {A} (t : trace) (r : trace * final A) : trace * final A :=
  (t ++ fst r, snd r).

(** [exec w p h] runs [p] after history [h]; it returns the events [p]
    adds to the history and how [p] ends. *)
Fixpoint exec {A} (w : World) (p : prog A) (h : trace) : trace * final A :=
  match p with
  | Ret a => ([], Completed a)
  | Throw e => ([], Uncaught e)
  | Exit code => ([], Exited code)
  | Log l k => after (EvLog l) (exec w k (h ++ [EvLog l]))
  | Call c k =>
      let o := w c h in
      after (EvCall c o) (exec w (k o) (h ++ [EvCall c o]))
  end.

Definition run (dirname : string) (w : World) : trace * final unit :=
  exec w (setupStorage dirname) [].

Definition trace_of (dirname : string) (w : World) : trace := fst (run dirname w).
Definition final_of (dirname : string) (w : World) : final unit := snd (run dirname w).

(** The exit code of the process: [process.exit(code)] fixes it, a run
    that falls off the end leaves it at 0, and a rejection nobody handles
    ends the process with 1. *)
Definition process_exit_code (f : final unit) : Z :=
  match f with
  | Completed _ => 0
  | Exited code => code
  | Uncaught _ => 1
  end.

Definition exit_code (dirname : string) (w : World) : Z :=
  process_exit_code (final_of dirname w).

(* ------------------------------------------------------------------ *)
(** *** Reading traces *)

Fixpoint calls_of (t : trace) : list call :=
  match t with
  | [] => []
  | EvLog _ :: rest => calls_of rest
  | EvCall c _ :: rest => c :: calls_of rest
  end.

Fixpoint logs_of (t : trace) : list console :=
  match t with
  | [] => []
  | EvLog l :: rest => l :: logs_of rest
  | EvCall _ _ :: rest => logs_of rest
  end.

Definition is_create_bucket (c : call) : bool :=
  match c with CreateBucket _ _ => true | _ => false end.

Definition is_rpc (c : call) : bool :=
  match c with Rpc _ _ => true | _ => false end.

Definition is_create_policy (c : call) : bool :=
  match c with Rpc fn _ => String.eqb fn "create_storage_policy" | _ => false end.

Definition is_upload (c : call) : bool :=
  match c with Upload _ _ _ _ => true | _ => false end.

Definition is_mkdir (c : call) : bool :=
  match c with MkdirSync _ => true | _ => false end.

Definition is_write (c : call) : bool :=
  match c with WriteFileSync _ _ _ => true | _ => false end.

(** The lines written with [console.error]. *)
Definition is_console_error (l : console) : bool :=
  match l with
  | ConsoleError _ _ => true
  | ConsoleLog _ => false
  end.

(** The object paths of the upload requests of a trace, in order. *)
Definition upload_targets (t : trace) : list string :=
  flat_map (fun c => match c with Upload _ target _ _ => [target] | _ => [] end)
           (calls_of t).

(** Every call a program can make satisfies [P], whatever the world
    answers. *)
Fixpoint calls_sat {A} (P : call -> Prop) (p : prog A) : Prop :=
  match p with
  | Ret _ | Throw _ | Exit _ => True
  | Log _ k => calls_sat P k
  | Call c k => P c /\ forall o, calls_sat P (k o)
  end.

(** The program never calls [process.exit]. *)
Fixpoint no_exit {A} (p : prog A) : Prop :=
  match p with
  | Ret _ | Throw _ => True
  | Exit _ => False
  | Log _ k => no_exit k
  | Call c k => forall o, no_exit (k o)
  end.

(* ------------------------------------------------------------------ *)
(** *** The local file system, as far as the script changes it *)

(** What is known of the file behind a path: it does not exist, it holds
    a content, or nothing is known of it. *)
Inductive file_state :=
| Absent
| Holds (content : string)
| Unspecified.

(** The store is read through the very path strings that the script passes
    to [fs]: what it says of a path is what reading that path gives.  It
    says nothing of the other names that the same file may have (a path
    that is not normalised, a link). *)
Record FileSystem := {
  state_of : string -> file_state;
  is_directory : string -> bool
}.

Definition file_content (fs : FileSystem) (p : string) : option string :=
  match state_of fs p with
  | Holds content => Some content
  | Absent | Unspecified => None
  end.

(** [fs.writeFileSync(file, data, "utf-8")] opens with flag [w], which
    creates or truncates the file, then writes, then closes: when it
    returns the file holds [data]; when it throws, the exception may come
    from the opening (the file is as before) or from the writing (the file
    is empty or holds a part of [data]), so that nothing is known of the
    file.  [fs.mkdirSync(dir)] adds a directory when it returns. *)
Definition fs_event (fs : FileSystem) (ev : event) : FileSystem :=
  match ev with
  | EvLog _ => fs
  | EvCall c o =>
      match c return outcome (resp c) -> FileSystem with
      | WriteFileSync file content _ => fun o =>
          match o with
          | Returned _ =>
              {| state_of := fun p => if String.eqb p file then Holds content
                                      else state_of fs p;
                 is_directory := is_directory fs |}
          | Threw _ =>
              {| state_of := fun p => if String.eqb p file then Unspecified
                                      else state_of fs p;
                 is_directory := is_directory fs |}
          end
      | MkdirSync dir => fun o =>
          match o with
          | Returned _ =>
              {| state_of := state_of fs;
                 is_directory := fun p => String.eqb p dir || is_directory fs p |}
          | Threw _ => fs
          end
      | _ => fun _ => fs
      end o
  end.

Definition fs_after (t : trace) (fs : FileSystem) : FileSystem :=
  fold_left fs_event t fs.

(** The calls that ask for a change of the local file system. *)
Definition changes_fs (c : call) : bool := is_mkdir c || is_write c.

(** The changes that the script may ask for: the utilities directory, at
    most once, then the helper file with the generated text, at most
    once. *)
Definition local_changes (dirname : string) (l : list call) : Prop :=
  l = []
  \/ l = [MkdirSync (utilsDir dirname)]
  \/ l = [WriteFileSync (helperPath dirname) helperCode "utf-8"]
  \/ l = [MkdirSync (utilsDir dirname);
          WriteFileSync (helperPath dirname) helperCode "utf-8"].

(* ------------------------------------------------------------------ *)
(** *** The requests of each step *)

Definition bucket_options : BucketOptions :=
  {| public := true; fileSizeLimit := 1024 * 1024 * 2 |}.

Definition file_options (file : string) : FileOptions :=
  {| contentType := "image/" +++ substring_from 1 (path.extname file); upsert := true |}.

Inductive bucket_call : call -> Prop :=
| bc_list : bucket_call ListBuckets
| bc_create : bucket_call (CreateBucket BUCKET_NAME bucket_options).

Inductive policy_call : call -> Prop :=
| pc_enable : policy_call enable_rls
| pc_create (policy : Policy) : In policy policies -> policy_call (create_storage_policy policy).

Inductive upload_call (dirname : string) : call -> Prop :=
| uc_readdir : upload_call dirname (ReaddirSync (IMAGES_DIR dirname))
| uc_read (file : string) :
    image_regex_test file = true ->
    upload_call dirname (ReadFileSync (path.join (IMAGES_DIR dirname) file))
| uc_upload (file : string) (body : Buffer) :
    image_regex_test file = true ->
    upload_call dirname (Upload BUCKET_NAME ("product-images/" +++ file) body (file_options file)).

Inductive helper_call (dirname : string) : call -> Prop :=
| hc_exists : helper_call dirname (ExistsSync (utilsDir dirname))
| hc_mkdir : helper_call dirname (MkdirSync (utilsDir dirname))
| hc_write : helper_call dirname (WriteFileSync (helperPath dirname) helperCode "utf-8").

Definition script_call (dirname : string) (c : call) : Prop :=
  bucket_call c \/ policy_call c \/ upload_call dirname c \/ helper_call dirname c.

(** The outcome of the request for [policy] when the loop body of
    lines 91-104 starts after history [h]. *)
Definition policy_outcome (w : World) (policy : Policy) (h : trace)
  : outcome (resp (create_storage_policy policy)) :=
  w (create_storage_policy policy)
    (h ++ [EvLog (ConsoleLog ("Creating policy: " +++ name policy))]).

(* ------------------------------------------------------------------ *)
(** *** The words of the specification *)

(** A name ends in [.jpg], [.jpeg], [.png] or [.gif], letter case
    ignored. *)
Definition has_image_extension (file : string) : Prop :=
  exists stem ext,
    file = stem +++ "." +++ ext /\
    In (toLowerCase ext) ["jpg"; "jpeg"; "png"; "gif"].

(** The bucket listing contains the configured name. *)
Definition listed (bs : list Bucket) : Prop :=
  exists b, In b bs /\ bucket_name b = BUCKET_NAME.

(** The truth value of [bucketExists] for a listing result. *)
Definition bucket_exists (r : Result (list Bucket)) : bool :=
  truthy (option_map (existsb (fun bucket => String.eqb (bucket_name bucket) BUCKET_NAME))
                     (data r)).









(** Every character, for checks by enumeration. *)
Definition all_ascii : list ascii := map ascii_of_nat (seq 0 256).

(** A string without the character [c]. *)
Definition lacks (c : ascii) (s : string) : Prop :=
  ~ In c (list_ascii_of_string s).

(** States of the scan of [path.extname]: before the last dot has been
    seen, and after it. *)
Definition scanning (e : Z) : path.scan :=
  {| path.startDot := -1; path.startPart := 0; path.end_ := e;
     path.matchedSlash := false; path.preDotState := 0 |}.

Definition dotted (d e pds : Z) : path.scan :=
  {| path.startDot := d; path.startPart := 0; path.end_ := e;
     path.matchedSlash := false; path.preDotState := pds |}.

(** Conditions on the world. *)
Definition returns (w : World) (c : call) : Prop :=
  forall h, exists x, w c h = Returned x.

Definition throws (w : World) (c : call) : Prop :=
  forall h, exists e, w c h = Threw e.

(** A call that comes back with a result object carrying no error. *)
Definition succeeds (w : World) (c : call) : Prop :=
  forall h,
    match c return outcome (resp c) -> Prop with
    | ListBuckets | CreateBucket _ _ | Rpc _ _ | Upload _ _ _ _ =>
        fun o => exists d, o = Returned {| data := d; error := None |}
    | _ => fun o => exists x, o = Returned x
    end (w c h).

(** A call that either comes back (whatever its result object says) or
    throws an object that has a message. *)
Definition returns_or_throws_error (w : World) (c : call) : Prop :=
  forall h, (exists x, w c h = Returned x) \/ (exists msg, w c h = Threw (JsError msg)).

(** The listing call reports an error, in its result object or by
    throwing. *)
Definition listing_fails (w : World) : Prop :=
  (exists r e, w ListBuckets [] = Returned r /\ error r = Some e)
  \/ (exists e, w ListBuckets [] = Threw e).

Definition creation_fails (w : World) : Prop :=
  forall h,
    (exists r e, w (CreateBucket BUCKET_NAME bucket_options) h = Returned r
                 /\ error r = Some e)
    \/ (exists e, w (CreateBucket BUCKET_NAME bucket_options) h = Threw e).

(** The image files among [files] can be read and the upload requests
    for them come back, with or without an error in the result object. *)
Record uploads_answered (dirname : string) (w : World) (files : list string) : Prop := {
  ua_read : forall file,
      In file files -> image_regex_test file = true ->
      returns w (ReadFileSync (path.join (IMAGES_DIR dirname) file));
  ua_upload : forall file body,
      In file files -> image_regex_test file = true ->
      returns w (Upload BUCKET_NAME ("product-images/" +++ file) body (file_options file))
}.

(** Policy requests come back, with or without an error in the result
    object, or throw an error that has a message. *)
Definition policies_answered (w : World) : Prop :=
  forall policy, In policy policies ->
                 returns_or_throws_error w (create_storage_policy policy).

(** A world in which nothing fatal happens: the bucket can be listed and
    created, the file system answers, and policy and upload requests may
    fail in any of the tolerated ways. *)
Record tolerable (dirname : string) (w : World) : Prop := {
  tol_list : succeeds w ListBuckets;
  tol_create : succeeds w (CreateBucket BUCKET_NAME bucket_options);
  tol_enable : returns w enable_rls;
  tol_policies : policies_answered w;
  tol_readdir : returns w (ReaddirSync (IMAGES_DIR dirname));
  tol_uploads : forall files, uploads_answered dirname w files;
  tol_exists : returns w (ExistsSync (utilsDir dirname));
  tol_mkdir : returns w (MkdirSync (utilsDir dirname));
  tol_write : returns w (WriteFileSync (helperPath dirname) helperCode "utf-8")
}.

(** The run gets past lines 20-45 / 20-105 / 20-128. *)
Definition reaches_policies (w : World) : Prop :=
  snd (exec w ensure_bucket []) = Completed tt.

Definition reaches_upload (w : World) : Prop :=
  snd (exec w (ensure_bucket ;; setup_policies) []) = Completed tt.

Definition reaches_helper (dirname : string) (w : World) : Prop :=
  snd (exec w (ensure_bucket ;; setup_policies ;; upload_images dirname) []) = Completed tt.

(* ------------------------------------------------------------------ *)
(** *** The anatomy of a run *)

(** The line the outer [catch] prints, and the last line of the [try]
    block. *)
Definition failure_line (e : js_value) : event := EvLog (ConsoleError "Setup failed:" e).

Definition success_line : console := ConsoleLog "Storage setup completed successfully!".

(** The five ways a run can go: it stops in one of the four steps, where
    an exception reaches the outer [catch], or it runs through all of
    them.  [t1] to [t4] are the events of the steps. *)
Inductive run_case (dirname : string) (w : World) : Prop :=
| stops_at_bucket (t1 : trace) (e : js_value) :
    exec w ensure_bucket [] = (t1, Uncaught e) ->
    run dirname w = (t1 ++ [failure_line e], Exited 1) ->
    run_case dirname w
| stops_at_policies (t1 t2 : trace) (e : js_value) :
    exec w ensure_bucket [] = (t1, Completed tt) ->
    exec w setup_policies t1 = (t2, Uncaught e) ->
    run dirname w = (t1 ++ t2 ++ [failure_line e], Exited 1) ->
    run_case dirname w
| stops_at_upload (t1 t2 t3 : trace) (e : js_value) :
    exec w ensure_bucket [] = (t1, Completed tt) ->
    exec w setup_policies t1 = (t2, Completed tt) ->
    exec w (upload_images dirname) (t1 ++ t2) = (t3, Uncaught e) ->
    run dirname w = (t1 ++ t2 ++ t3 ++ [failure_line e], Exited 1) ->
    run_case dirname w
| stops_at_helper (t1 t2 t3 t4 : trace) (e : js_value) :
    exec w ensure_bucket [] = (t1, Completed tt) ->
    exec w setup_policies t1 = (t2, Completed tt) ->
    exec w (upload_images dirname) (t1 ++ t2) = (t3, Completed tt) ->
    exec w (write_helper dirname) ((t1 ++ t2) ++ t3) = (t4, Uncaught e) ->
    run dirname w = (t1 ++ t2 ++ t3 ++ t4 ++ [failure_line e], Exited 1) ->
    run_case dirname w
| runs_through (t1 t2 t3 t4 : trace) :
    exec w ensure_bucket [] = (t1, Completed tt) ->
    exec w setup_policies t1 = (t2, Completed tt) ->
    exec w (upload_images dirname) (t1 ++ t2) = (t3, Completed tt) ->
    exec w (write_helper dirname) ((t1 ++ t2) ++ t3) = (t4, Completed tt) ->
    run dirname w = (t1 ++ t2 ++ t3 ++ t4, Completed tt) ->
    run_case dirname w.

Definition is_read (c : call) : bool :=
  match c with ReadFileSync _ => true | _ => false end.

Definition is_readdir (c : call) : bool :=
  match c with ReaddirSync _ => true | _ => false end.

(** The local files a trace reads, in order. *)
Definition read_paths (t : trace) : list string :=
  flat_map (fun c => match c with ReadFileSync file => [file] | _ => [] end)
           (calls_of t).

(** The entries of a listing the loop of lines 109-128 works on, with the
    object path and the local path of each. *)
Definition accepted (files : list string) : list string :=
  filter image_regex_test files.

Definition target_of (file : string) : string := "product-images/" +++ file.

Definition local_path (dirname file : string) : string :=
  path.join (IMAGES_DIR dirname) file.

(** A file system with nothing in it. *)
Definition empty_fs : FileSystem :=
  {| state_of := fun _ => Absent; is_directory := fun _ => false |}.

Definition no_line : console := ConsoleLog EmptyString.

(* ------------------------------------------------------------------ *)
(** *** Sample worlds *)

Record Scenario := {
  on_list : outcome (Result (list Bucket));
  on_create : outcome (Result string);
  on_rpc : string -> list (string * string) -> outcome (Result string);
  on_readdir : outcome (list string);
  on_read : string -> outcome Buffer;
  on_upload : string -> outcome (Result string);
  on_exists : outcome bool;
  on_mkdir : outcome unit;
  on_write : outcome unit
}.

Definition world_of (s : Scenario) : World :=
  fun c _ =>
    match c return outcome (resp c) with
    | ListBuckets => on_list s
    | CreateBucket _ _ => on_create s
    | Rpc fn args => on_rpc s fn args
    | Upload _ target _ _ => on_upload s target
    | ReaddirSync _ => on_readdir s
    | ReadFileSync file => on_read s file
    | ExistsSync _ => on_exists s
    | MkdirSync _ => on_mkdir s
    | WriteFileSync _ _ _ => on_write s
    end.

Definition ok {D} : outcome (Result D) := Returned {| data := None; error := None |}.
Definition failed {D} (msg : string) : outcome (Result D) :=
  Returned {| data := None; error := Some {| message := msg |} |}.

Definition our_bucket : Bucket :=
  {| bucket_id := BUCKET_NAME; bucket_name := BUCKET_NAME |}.
Definition other_bucket : Bucket :=
  {| bucket_id := "avatars"; bucket_name := "avatars" |}.

Definition no_policy : Policy := {| name := EmptyString; sql := EmptyString |}.
Definition uploads_policy : Policy := nth 0 policies no_policy.
Definition reads_policy : Policy := nth 1 policies no_policy.
Definition updates_policy : Policy := nth 2 policies no_policy.
Definition deletes_policy : Policy := nth 3 policies no_policy.

Definition sample_dir : string := "/app/src/scripts".
Definition sample_files : list string := ["a.png"; "b.txt"; "c.JPG"].

(** Second run on a project that is already set up: the bucket is there,
    every policy exists, every upload goes through. *)
Definition rerun : Scenario :=
  {| on_list := Returned {| data := Some [other_bucket; our_bucket]; error := None |};
     on_create := failed "Bucket already exists";
     on_rpc := fun fn _ =>
       if String.eqb fn "enable_rls" then ok
       else Threw (JsError "policy already exists");
     on_readdir := Returned sample_files;
     on_read := fun _ => Returned [];
     on_upload := fun _ => ok;
     on_exists := Returned true;
     on_mkdir := Returned tt;
     on_write := Returned tt |}.

(** First run: nothing exists yet; one policy call throws, another one
    comes back with an error object, one upload is refused. *)
Definition first_run : Scenario :=
  {| on_list := Returned {| data := Some [other_bucket]; error := None |};
     on_create := ok;
     on_rpc := fun fn args =>
       if String.eqb fn "enable_rls" then failed "function enable_rls does not exist"
       else match args with
            | [_; (_, "allow_public_reads"); _] => Threw (JsError "permission denied")
            | [_; (_, "allow_public_updates"); _] => failed "function not found"
            | _ => ok
            end;
     on_readdir := Returned sample_files;
     on_read := fun _ => Returned [];
     on_upload := fun target =>
       if String.eqb target "product-images/a.png" then failed "Payload too large" else ok;
     on_exists := Returned false;
     on_mkdir := Returned tt;
     on_write := Returned tt |}.

Definition list_error : Scenario :=
  {| on_list := failed "Invalid API key";
     on_create := on_create first_run; on_rpc := on_rpc first_run;
     on_readdir := on_readdir first_run; on_read := on_read first_run;
     on_upload := on_upload first_run; on_exists := on_exists first_run;
     on_mkdir := on_mkdir first_run; on_write := on_write first_run |}.

Definition create_error : Scenario :=
  {| on_list := on_list first_run;
     on_create := failed "Quota exceeded";
     on_rpc := on_rpc first_run;
     on_readdir := on_readdir first_run; on_read := on_read first_run;
     on_upload := on_upload first_run; on_exists := on_exists first_run;
     on_mkdir := on_mkdir first_run; on_write := on_write first_run |}.

Definition readdir_error : Scenario :=
  {| on_list := on_list rerun; on_create := on_create rerun; on_rpc := on_rpc rerun;
     on_readdir := Threw (JsError "ENOENT: no such file or directory, scandir");
     on_read := on_read rerun;
     on_upload := on_upload rerun; on_exists := on_exists rerun;
     on_mkdir := on_mkdir rerun; on_write := on_write rerun |}.

(** [c.JPG] is listed but cannot be read. *)
Definition read_error : Scenario :=
  {| on_list := on_list rerun; on_create := on_create rerun; on_rpc := on_rpc rerun;
     on_readdir := Returned ["a.png"; "c.JPG"; "d.gif"];
     on_read := fun file =>
       if String.eqb file "/app/src/images/c.JPG"
       then Threw (JsError "EISDIR: illegal operation on a directory, read")
       else Returned [];
     on_upload := on_upload rerun; on_exists := on_exists rerun;
     on_mkdir := on_mkdir rerun; on_write := on_write rerun |}.

(** [c.JPG] is read but its upload throws. *)
Definition upload_throws : Scenario :=
  {| on_list := on_list rerun; on_create := on_create rerun; on_rpc := on_rpc rerun;
     on_readdir := Returned ["a.png"; "c.JPG"; "d.gif"];
     on_read := on_read rerun;
     on_upload := fun target =>
       if String.eqb target "product-images/c.JPG"
       then Threw (JsError "fetch failed") else ok;
     on_exists := on_exists rerun;
     on_mkdir := on_mkdir rerun; on_write := on_write rerun |}.

(** The request for the second policy throws something that has no
    [message]: the test of the [catch] clause raises a [TypeError]. *)
Definition policy_throws_other : Scenario :=
  {| on_list := on_list rerun; on_create := on_create rerun;
     on_rpc := fun fn args =>
       if String.eqb fn "enable_rls" then ok
       else match args with
            | [_; (_, "allow_public_reads"); _] => Threw (JsRaises includes_type_error)
            | _ => ok
            end;
     on_readdir := on_readdir rerun; on_read := on_read rerun;
     on_upload := on_upload rerun; on_exists := on_exists rerun;
     on_mkdir := on_mkdir rerun; on_write := on_write rerun |}.

Definition rls_throws : Scenario :=
  {| on_list := on_list rerun; on_create := on_create rerun;
     on_rpc := fun fn args => Threw (JsError "network unreachable");
     on_readdir := on_readdir rerun; on_read := on_read rerun;
     on_upload := on_upload rerun; on_exists := on_exists rerun;
     on_mkdir := on_mkdir rerun; on_write := on_write rerun |}.

(** The utilities directory is missing and cannot be created. *)
Definition mkdir_error : Scenario :=
  {| on_list := on_list rerun; on_create := on_create rerun; on_rpc := on_rpc rerun;
     on_readdir := on_readdir rerun; on_read := on_read rerun;
     on_upload := on_upload rerun;
     on_exists := Returned false;
     on_mkdir := Threw (JsError "ENOENT: no such file or directory, mkdir");
     on_write := on_write rerun |}.

(** Every policy request comes back with an error in its result object;
    everything else goes well. *)
Definition policies_refused : Scenario :=
  {| on_list := on_list rerun; on_create := on_create rerun;
     on_rpc := fun fn _ =>
       if String.eqb fn "enable_rls" then ok
       else failed "must be owner of table objects";
     on_readdir := on_readdir rerun; on_read := on_read rerun;
     on_upload := on_upload rerun;
     on_exists := on_exists rerun; on_mkdir := on_mkdir rerun;
     on_write := on_write rerun |}.

(** The helper file cannot be written. *)
Definition write_error : Scenario :=
  {| on_list := on_list rerun; on_create := on_create rerun; on_rpc := on_rpc rerun;
     on_readdir := on_readdir rerun; on_read := on_read rerun;
     on_upload := on_upload rerun;
     on_exists := on_exists rerun; on_mkdir := on_mkdir rerun;
     on_write := Threw (JsError "EACCES: permission denied, open") |}.

Definition list_throws : Scenario :=
  {| on_list := Threw (JsError "fetch failed");
     on_create := on_create rerun; on_rpc := on_rpc rerun;
     on_readdir := on_readdir rerun; on_read := on_read rerun;
     on_upload := on_upload rerun; on_exists := on_exists rerun;
     on_mkdir := on_mkdir rerun; on_write := on_write rerun |}.

(* ------------------------------------------------------------------ *)
(** *** Sample runs *)

Example join_images : path.join "/app/src/scripts" "../images" = "/app/src/images".
Proof. reflexivity. Qed.

Example extname_samples :
  map path.extname ["a.png"; "c.JPG"; ".png"; "..png"; "x.tar.gz"; "noext"; "a."; ".."; "d/.gif"]
  = [".png"; ".JPG"; EmptyString; ".png"; ".gz"; EmptyString; "."; EmptyString; EmptyString].
Proof. reflexivity. Qed.

Example regex_samples :
  map image_regex_test ["a.png"; "b.txt"; "c.JPG"; "d.jpeg"; "e.GiF"; "png"; ".png"; "a.png.bak"; "a.jpgx"]
  = [true; false; true; true; true; false; true; false; false].
Proof. reflexivity. Qed.

(** A file named like a bare extension has no extension for [path.extname]:
    it is uploaded with the content type [image/]. *)
Example dotfile_content_type :
  image_regex_test ".png" = true /\ contentType (file_options ".png") = "image/".
Proof. split; reflexivity. Qed.

Example policy_names :
  map (fun policy => replace_spaces (toLowerCase (name policy))) policies
  = ["allow_public_uploads"; "allow_public_reads";
     "allow_public_updates"; "allow_public_deletes"].
Proof. reflexivity. Qed.

Example first_run_exit : exit_code sample_dir (world_of first_run) = 0%Z.
Proof. reflexivity. Qed.

Example first_run_console :
  logs_of (trace_of sample_dir (world_of first_run))
  = [ConsoleLog "Creating bucket: disc-product-images";
     ConsoleLog "Bucket created successfully!";
     ConsoleLog "Setting up storage policies...";
     ConsoleLog "Creating policy: Allow public uploads";
     ConsoleLog "Creating policy: Allow public reads";
     ConsoleError "Error creating policy Allow public reads:" (JsError "permission denied");
     ConsoleLog "Creating policy: Allow public updates";
     ConsoleLog "Creating policy: Allow public deletes";
     ConsoleLog "Found 3 files to upload";
     ConsoleLog "Uploading: a.png";
     ConsoleError "Error uploading a.png:" (JsError "Payload too large");
     ConsoleLog "Uploading: c.JPG";
     ConsoleLog "Successfully uploaded: c.JPG";
     ConsoleLog (newline +++ "Updating public URL helper function...");
     ConsoleLog "Storage setup completed successfully!"].
Proof. reflexivity. Qed.

Example rerun_calls :
  calls_of (trace_of sample_dir (world_of rerun))
  = [ListBuckets; enable_rls]
    ++ map create_storage_policy policies
    ++ [ReaddirSync "/app/src/images";
        ReadFileSync "/app/src/images/a.png";
        Upload BUCKET_NAME "product-images/a.png" []
               {| contentType := "image/png"; upsert := true |};
        ReadFileSync "/app/src/images/c.JPG";
        Upload BUCKET_NAME "product-images/c.JPG" []
               {| contentType := "image/JPG"; upsert := true |};
        ExistsSync "/app/src/utils";
        WriteFileSync "/app/src/utils/storageHelper.ts" helperCode "utf-8"].
Proof. reflexivity. Qed.

Example rerun_exit : exit_code sample_dir (world_of rerun) = 0%Z.
Proof. reflexivity. Qed.

Example read_error_run :
  calls_of (trace_of sample_dir (world_of read_error))
  = [ListBuckets; enable_rls]
    ++ map create_storage_policy policies
    ++ [ReaddirSync "/app/src/images";
        ReadFileSync "/app/src/images/a.png";
        Upload BUCKET_NAME "product-images/a.png" []
               {| contentType := "image/png"; upsert := true |};
        ReadFileSync "/app/src/images/c.JPG"]
  /\ exit_code sample_dir (world_of read_error) = 1%Z.
Proof. split; reflexivity. Qed.

(* ================================================================== *)
(** ** Executing sequences, handlers and loops *)
(* ================================================================== *)

Lemma calls_of_app (t1 t2 : trace) : calls_of (t1 ++ t2) = calls_of t1 ++ calls_of t2.
Proof.
  induction t1 as [|[l|c o] t1 IH]; simpl; [reflexivity | assumption | now f_equal].
Qed.

Lemma logs_of_app (t1 t2 : trace) : logs_of (t1 ++ t2) = logs_of t1 ++ logs_of t2.
Proof.
  induction t1 as [|[l|c o] t1 IH]; simpl; [reflexivity | now f_equal | assumption].
Qed.

Lemma after_extend {A} (ev : event) (t : trace) (r : trace * final A) :
  after ev (extend t r) = extend (ev :: t) r.
Proof. reflexivity. Qed.

Lemma extend_nil {A} (r : trace * final A) : extend [] r = r.
Proof. destruct r; reflexivity. Qed.

Lemma extend_extend {A} (t1 t2 : trace) (r : trace * final A) :
  extend t1 (extend t2 r) = extend (t1 ++ t2) r.
Proof. unfold extend; simpl. now rewrite app_assoc. Qed.

Section Sequencing.
Context {A B : Type} (w : World).

(** [p ;; f] when [p] runs to its end. *)
Lemma exec_bind_completed (p : prog A) (f : A -> prog B) :
  forall h t a,
    exec w p h = (t, Completed a) ->
    exec w (bind p f) h = extend t (exec w (f a) (h ++ t)).
Proof.
  induction p as [a0|e|code|l k IH|c k IH]; intros h t a E; simpl in *.
  - inversion E; subst. now rewrite app_nil_r, extend_nil.
  - discriminate.
  - discriminate.
  - destruct (exec w k (h ++ [EvLog l])) as [t' r'] eqn:E'.
    unfold after in E; simpl in E. inversion E; subst.
    rewrite (IH _ _ _ E'), after_extend. now rewrite <- app_assoc.
  - destruct (exec w (k (w c h)) (h ++ [EvCall c (w c h)])) as [t' r'] eqn:E'.
    unfold after in E; simpl in E. inversion E; subst.
    rewrite (IH _ _ _ _ E'), after_extend. now rewrite <- app_assoc.
Qed.

Lemma exec_bind_uncaught (p : prog A) (f : A -> prog B) :
  forall h t e,
    exec w p h = (t, Uncaught e) ->
    exec w (bind p f) h = (t, Uncaught e).
Proof.
  induction p as [a0|e0|code|l k IH|c k IH]; intros h t e E; simpl in *.
  - discriminate.
  - inversion E; subst; reflexivity.
  - discriminate.
  - destruct (exec w k (h ++ [EvLog l])) as [t' r'] eqn:E'.
    unfold after in E; simpl in E. inversion E; subst.
    now rewrite (IH _ _ _ E').
  - destruct (exec w (k (w c h)) (h ++ [EvCall c (w c h)])) as [t' r'] eqn:E'.
    unfold after in E; simpl in E. inversion E; subst.
    now rewrite (IH _ _ _ _ E').
Qed.

(** [try { p ; f } catch ...] when [p] runs to its end: the rest still
    runs under the handler. *)
Lemma exec_try_bind_completed (p : prog A) (f : A -> prog B) (handler : js_value -> prog B) :
  forall h t a,
    exec w p h = (t, Completed a) ->
    exec w (try_catch (bind p f) handler) h
    = extend t (exec w (try_catch (f a) handler) (h ++ t)).
Proof.
  induction p as [a0|e|code|l k IH|c k IH]; intros h t a E; simpl in *.
  - inversion E; subst. now rewrite app_nil_r, extend_nil.
  - discriminate.
  - discriminate.
  - destruct (exec w k (h ++ [EvLog l])) as [t' r'] eqn:E'.
    unfold after in E; simpl in E. inversion E; subst.
    rewrite (IH _ _ _ E'), after_extend. now rewrite <- app_assoc.
  - destruct (exec w (k (w c h)) (h ++ [EvCall c (w c h)])) as [t' r'] eqn:E'.
    unfold after in E; simpl in E. inversion E; subst.
    rewrite (IH _ _ _ _ E'), after_extend. now rewrite <- app_assoc.
Qed.

(** [try { p ; f } catch ...] when [p] throws: the handler takes over. *)
Lemma exec_try_bind_uncaught (p : prog A) (f : A -> prog B) (handler : js_value -> prog B) :
  forall h t e,
    exec w p h = (t, Uncaught e) ->
    exec w (try_catch (bind p f) handler) h
    = extend t (exec w (handler e) (h ++ t)).
Proof.
  induction p as [a0|e0|code|l k IH|c k IH]; intros h t e E; simpl in *.
  - discriminate.
  - inversion E; subst. now rewrite app_nil_r, extend_nil.
  - discriminate.
  - destruct (exec w k (h ++ [EvLog l])) as [t' r'] eqn:E'.
    unfold after in E; simpl in E. inversion E; subst.
    rewrite (IH _ _ _ E'), after_extend. now rewrite <- app_assoc.
  - destruct (exec w (k (w c h)) (h ++ [EvCall c (w c h)])) as [t' r'] eqn:E'.
    unfold after in E; simpl in E. inversion E; subst.
    rewrite (IH _ _ _ _ E'), after_extend. now rewrite <- app_assoc.
Qed.

End Sequencing.

Section TryCatch.
Context {A : Type} (w : World).

Lemma exec_try_completed (p : prog A) (handler : js_value -> prog A) :
  forall h t a,
    exec w p h = (t, Completed a) ->
    exec w (try_catch p handler) h = (t, Completed a).
Proof.
  induction p as [a0|e|code|l k IH|c k IH]; intros h t a E; simpl in *;
    try discriminate; try assumption.
  - destruct (exec w k (h ++ [EvLog l])) as [t' r'] eqn:E'.
    unfold after in E; simpl in E. inversion E; subst.
    now rewrite (IH _ _ _ E').
  - destruct (exec w (k (w c h)) (h ++ [EvCall c (w c h)])) as [t' r'] eqn:E'.
    unfold after in E; simpl in E. inversion E; subst.
    now rewrite (IH _ _ _ _ E').
Qed.

Lemma exec_try_uncaught (p : prog A) (handler : js_value -> prog A) :
  forall h t e,
    exec w p h = (t, Uncaught e) ->
    exec w (try_catch p handler) h = extend t (exec w (handler e) (h ++ t)).
Proof.
  induction p as [a0|e0|code|l k IH|c k IH]; intros h t e E; simpl in *;
    try discriminate.
  - inversion E; subst. now rewrite app_nil_r, extend_nil.
  - destruct (exec w k (h ++ [EvLog l])) as [t' r'] eqn:E'.
    unfold after in E; simpl in E. inversion E; subst.
    rewrite (IH _ _ _ E'), after_extend. now rewrite <- app_assoc.
  - destruct (exec w (k (w c h)) (h ++ [EvCall c (w c h)])) as [t' r'] eqn:E'.
    unfold after in E; simpl in E. inversion E; subst.
    rewrite (IH _ _ _ _ E'), after_extend. now rewrite <- app_assoc.
Qed.

End TryCatch.

(* ------------------------------------------------------------------ *)
(** *** Properties that hold of every call of a program *)

Section CallsSat.
Variable P : call -> Prop.

Lemma calls_sat_exec {A} (w : World) (p : prog A) :
  calls_sat P p -> forall h, Forall P (calls_of (fst (exec w p h))).
Proof.
  induction p as [a|e|code|l k IH|c k IH]; simpl; intros H h; try constructor.
  - now apply IH.
  - apply H.
  - apply IH, H.
Qed.

Lemma calls_sat_bind {A B} (p : prog A) (f : A -> prog B) :
  calls_sat P p -> (forall a, calls_sat P (f a)) -> calls_sat P (bind p f).
Proof.
  induction p as [a|e|code|l k IH|c k IH]; simpl; intros H Hf; auto.
  destruct H as [Hc Hk]. split; [assumption | intro o; now apply IH].
Qed.

Lemma calls_sat_try_catch {A} (p : prog A) (handler : js_value -> prog A) :
  calls_sat P p -> (forall e, calls_sat P (handler e)) ->
  calls_sat P (try_catch p handler).
Proof.
  induction p as [a|e|code|l k IH|c k IH]; simpl; intros H Hh; auto.
  destruct H as [Hc Hk]. split; [assumption | intro o; now apply IH].
Qed.

Lemma calls_sat_for_each {X} (xs : list X) (body : X -> prog unit) :
  (forall x, calls_sat P (body x)) -> calls_sat P (for_each xs body).
Proof.
  intro H. induction xs as [|x xs IH]; simpl; [exact I|].
  apply calls_sat_bind; [apply H | intros _; exact IH].
Qed.

Lemma calls_sat_await (c : call) : P c -> calls_sat P (await c).
Proof. intro H; simpl; split; [assumption | intros [x|e]; exact I]. Qed.

End CallsSat.

Lemma no_exit_exec {A} (w : World) (p : prog A) :
  no_exit p -> forall h code, snd (exec w p h) <> Exited code.
Proof.
  induction p as [a|e|code0|l k IH|c k IH]; simpl; intros H h code; try discriminate.
  - contradiction.
  - now apply IH.
  - apply IH, H.
Qed.

Lemma no_exit_bind {A B} (p : prog A) (f : A -> prog B) :
  no_exit p -> (forall a, no_exit (f a)) -> no_exit (bind p f).
Proof.
  induction p as [a|e|code|l k IH|c k IH]; simpl; intros H Hf; auto.
Qed.

Lemma no_exit_try_catch {A} (p : prog A) (handler : js_value -> prog A) :
  no_exit p -> (forall e, no_exit (handler e)) -> no_exit (try_catch p handler).
Proof.
  induction p as [a|e|code|l k IH|c k IH]; simpl; intros H Hh; auto.
Qed.

Lemma no_exit_for_each {X} (xs : list X) (body : X -> prog unit) :
  (forall x, no_exit (body x)) -> no_exit (for_each xs body).
Proof.
  intro H. induction xs as [|x xs IH]; simpl; [exact I|].
  apply no_exit_bind; [apply H | intros _; exact IH].
Qed.

Lemma calls_sat_impl {A} (P Q : call -> Prop) (p : prog A) :
  (forall c, P c -> Q c) -> calls_sat P p -> calls_sat Q p.
Proof.
  intro HPQ. induction p as [a|e|code|l k IH|c k IH]; simpl; auto.
  intros [Hc Hk]. split; [now apply HPQ | intro o; now apply IH].
Qed.

(* ================================================================== *)
(** ** The steps of the script, one by one *)
(* ================================================================== *)

(** Unfolds the combinators of a step, and nothing of the data it handles. *)
Ltac open_prog :=
  cbn [bind try_catch for_each await console_log console_error calls_sat no_exit
       data error].

Ltac crunch :=
  repeat (open_prog; intros;
          match goal with
          | |- True => exact I
          | |- _ /\ _ => split
          | o : outcome _ |- _ => destruct o
          | r : Result _ |- _ => destruct r as [? [?|]]
          | |- calls_sat _ (if ?b then _ else _) => destruct b
          | |- no_exit (if ?b then _ else _) => destruct b
          | |- calls_sat _ (match ?x with _ => _ end) => destruct x
          | |- no_exit (match ?x with _ => _ end) => destruct x
          | |- calls_sat _ (bind (if ?b then _ else _) _) => destruct b
          | |- no_exit (bind (if ?b then _ else _) _) => destruct b
          | |- calls_sat _ (bind (match ?x with _ => _ end) _) => destruct x
          | |- no_exit (bind (match ?x with _ => _ end) _) => destruct x
          end).

Lemma ensure_bucket_calls : calls_sat bucket_call ensure_bucket.
Proof. unfold ensure_bucket; crunch; constructor. Qed.

Lemma ensure_bucket_no_exit : no_exit ensure_bucket.
Proof. unfold ensure_bucket; crunch. Qed.

Lemma create_policy_calls (policy : Policy) :
  In policy policies -> calls_sat policy_call (create_policy policy).
Proof. intro Hin; unfold create_policy; crunch; now constructor. Qed.

Lemma create_policy_no_exit (policy : Policy) : no_exit (create_policy policy).
Proof. unfold create_policy; crunch. Qed.

Lemma for_each_calls_in {X} (P : call -> Prop) (xs : list X) (body : X -> prog unit) :
  (forall x, In x xs -> calls_sat P (body x)) -> calls_sat P (for_each xs body).
Proof.
  induction xs as [|x xs IH]; simpl; intro H; [exact I|].
  apply calls_sat_bind; [apply H; now left | intros _; apply IH; intros; apply H; now right].
Qed.

Lemma setup_policies_calls : calls_sat policy_call setup_policies.
Proof.
  unfold setup_policies.
  apply calls_sat_bind; [exact I | intros _].
  apply calls_sat_bind; [apply calls_sat_await; constructor | intros _].
  apply for_each_calls_in, create_policy_calls.
Qed.

Lemma setup_policies_no_exit : no_exit setup_policies.
Proof.
  unfold setup_policies.
  apply no_exit_bind; [exact I | intros _].
  apply no_exit_bind; [intros [r|e]; exact I | intros _].
  apply no_exit_for_each, create_policy_no_exit.
Qed.

Lemma upload_file_calls (dirname file : string) :
  calls_sat (upload_call dirname) (upload_file dirname file).
Proof.
  unfold upload_file. destruct (image_regex_test file) eqn:E; [|exact I].
  crunch; now constructor.
Qed.

Lemma upload_file_no_exit (dirname file : string) : no_exit (upload_file dirname file).
Proof. unfold upload_file; crunch. Qed.

Lemma upload_images_calls (dirname : string) :
  calls_sat (upload_call dirname) (upload_images dirname).
Proof.
  unfold upload_images.
  apply calls_sat_bind; [apply calls_sat_await; constructor | intros files].
  apply calls_sat_bind; [exact I | intros _].
  apply calls_sat_for_each, upload_file_calls.
Qed.

Lemma upload_images_no_exit (dirname : string) : no_exit (upload_images dirname).
Proof.
  unfold upload_images.
  apply no_exit_bind; [intros [r|e]; exact I | intros files].
  apply no_exit_bind; [exact I | intros _].
  apply no_exit_for_each, upload_file_no_exit.
Qed.

Lemma write_helper_calls (dirname : string) :
  calls_sat (helper_call dirname) (write_helper dirname).
Proof. unfold write_helper; crunch; constructor. Qed.

Lemma write_helper_no_exit (dirname : string) : no_exit (write_helper dirname).
Proof. unfold write_helper; crunch. Qed.

Lemma on_failure_calls (P : call -> Prop) (e : js_value) : calls_sat P (on_failure e).
Proof. exact I. Qed.

(** Every request of the script belongs to one of its four steps. *)
Lemma setupStorage_calls (dirname : string) :
  calls_sat (script_call dirname) (setupStorage dirname).
Proof.
  unfold setupStorage, steps, script_call.
  apply calls_sat_try_catch; [|intro; apply on_failure_calls].
  apply calls_sat_bind;
    [eapply calls_sat_impl; [|apply ensure_bucket_calls]; tauto | intros _].
  apply calls_sat_bind;
    [eapply calls_sat_impl; [|apply setup_policies_calls]; tauto | intros _].
  apply calls_sat_bind;
    [eapply calls_sat_impl; [|apply upload_images_calls]; tauto | intros _].
  eapply calls_sat_impl; [|apply write_helper_calls]; tauto.
Qed.

Lemma run_calls (dirname : string) (w : World) :
  Forall (script_call dirname) (calls_of (trace_of dirname w)).
Proof. apply calls_sat_exec, setupStorage_calls. Qed.

(* ------------------------------------------------------------------ *)
(** *** Filtering the calls of a trace *)

Lemma filter_none {X} (f : X -> bool) (l : list X) :
  Forall (fun x => f x = false) l -> filter f l = [].
Proof.
  induction 1 as [|x l Hx _ IH]; simpl; [reflexivity|]. now rewrite Hx.
Qed.

Lemma upload_targets_app (t1 t2 : trace) :
  upload_targets (t1 ++ t2) = upload_targets t1 ++ upload_targets t2.
Proof. unfold upload_targets. now rewrite calls_of_app, flat_map_app. Qed.

Lemma upload_targets_none (t : trace) :
  Forall (fun c => is_upload c = false) (calls_of t) -> upload_targets t = [].
Proof.
  unfold upload_targets. induction 1 as [|c l Hc _ IH]; simpl; [reflexivity|].
  destruct c; try discriminate; exact IH.
Qed.

Lemma bucket_call_kind (c : call) :
  bucket_call c ->
  is_rpc c = false /\ is_create_policy c = false /\ is_upload c = false
  /\ is_mkdir c = false /\ is_write c = false.
Proof. destruct 1; repeat split. Qed.

Lemma policy_call_kind (c : call) :
  policy_call c ->
  is_create_bucket c = false /\ is_upload c = false
  /\ is_mkdir c = false /\ is_write c = false.
Proof. destruct 1; repeat split. Qed.

Lemma upload_call_kind (dirname : string) (c : call) :
  upload_call dirname c ->
  is_create_bucket c = false /\ is_rpc c = false /\ is_create_policy c = false
  /\ is_mkdir c = false /\ is_write c = false.
Proof. destruct 1; repeat split. Qed.

Lemma helper_call_kind (dirname : string) (c : call) :
  helper_call dirname c ->
  is_create_bucket c = false /\ is_rpc c = false /\ is_create_policy c = false
  /\ is_upload c = false.
Proof. destruct 1; repeat split. Qed.

(* ------------------------------------------------------------------ *)
(** *** What each step does, case by case *)

(** Unfolds one step of a run. *)
Ltac run_step :=
  cbn [exec bind try_catch for_each await console_log console_error
       after extend fst snd data error calls_of logs_of app negb].

Lemma exec_on_failure (w : World) (e : js_value) (h : trace) :
  exec w (on_failure e) h = ([EvLog (ConsoleError "Setup failed:" e)], Exited 1%Z).
Proof. reflexivity. Qed.

(** The two ways a step inside the [try] block can end. *)
Lemma exec_try_bind_cases {A B} (w : World) (p : prog A) (f : A -> prog B)
      (handler : js_value -> prog B) (h : trace) (Q : trace * final B -> Prop) :
  no_exit p ->
  (forall t a, exec w p h = (t, Completed a) ->
               Q (extend t (exec w (try_catch (f a) handler) (h ++ t)))) ->
  (forall t e, exec w p h = (t, Uncaught e) ->
               Q (extend t (exec w (handler e) (h ++ t)))) ->
  Q (exec w (try_catch (bind p f) handler) h).
Proof.
  intros Hne Hc Hu. destruct (exec w p h) as [t [a|e|code]] eqn:E.
  - rewrite (exec_try_bind_completed w p f handler h t a E). now apply Hc.
  - rewrite (exec_try_bind_uncaught w p f handler h t e E). now apply Hu.
  - exfalso. apply (no_exit_exec w p Hne h code). now rewrite E.
Qed.

Lemma exec_try_cases {A} (w : World) (p : prog A)
      (handler : js_value -> prog A) (h : trace) (Q : trace * final A -> Prop) :
  no_exit p ->
  (forall t a, exec w p h = (t, Completed a) -> Q (t, Completed a)) ->
  (forall t e, exec w p h = (t, Uncaught e) ->
               Q (extend t (exec w (handler e) (h ++ t)))) ->
  Q (exec w (try_catch p handler) h).
Proof.
  intros Hne Hc Hu. destruct (exec w p h) as [t [a|e|code]] eqn:E.
  - rewrite (exec_try_completed w p handler h t a E). now apply Hc.
  - rewrite (exec_try_uncaught w p handler h t e E). now apply Hu.
  - exfalso. apply (no_exit_exec w p Hne h code). now rewrite E.
Qed.

Lemma bucket_exists_listed (r : Result (list Bucket)) :
  bucket_exists r = true <-> exists bs, data r = Some bs /\ listed bs.
Proof.
  unfold bucket_exists, listed. destruct (data r) as [bs|]; simpl.
  - rewrite existsb_exists. split.
    + intros [b [Hin Hb]]. exists bs. split; [reflexivity|].
      exists b. split; [assumption | now apply String.eqb_eq].
    + intros [bs' [E [b [Hin Hb]]]]. inversion E; subst bs'.
      exists b. split; [assumption | now apply String.eqb_eq].
  - split; [discriminate | intros [bs [E _]]; discriminate].
Qed.

Lemma ensure_bucket_list_error (w : World) (h : trace) r e :
  w ListBuckets h = Returned r -> error r = Some e ->
  exec w ensure_bucket h
  = ([EvCall ListBuckets (Returned r)],
     Uncaught (JsError ("Error listing buckets: " +++ message e))).
Proof.
  intros H He. unfold ensure_bucket. run_step. rewrite H. run_step. rewrite He.
  run_step. reflexivity.
Qed.

Lemma ensure_bucket_list_threw (w : World) (h : trace) e :
  w ListBuckets h = Threw e ->
  exec w ensure_bucket h = ([EvCall ListBuckets (Threw e)], Uncaught e).
Proof.
  intros H. unfold ensure_bucket. run_step. rewrite H. run_step. reflexivity.
Qed.

Lemma ensure_bucket_present (w : World) (h : trace) r :
  w ListBuckets h = Returned r -> error r = None -> bucket_exists r = true ->
  exec w ensure_bucket h
  = ([EvCall ListBuckets (Returned r);
      EvLog (ConsoleLog "Bucket already exists, skipping creation.")],
     Completed tt).
Proof.
  intros H He Hb. unfold ensure_bucket, bucket_exists in *. run_step. rewrite H. run_step.
  rewrite He. run_step. rewrite Hb. run_step. reflexivity.
Qed.

Lemma ensure_bucket_absent (w : World) (h : trace) r :
  w ListBuckets h = Returned r -> error r = None -> bucket_exists r = false ->
  exec w ensure_bucket h
  = let h1 := [EvCall ListBuckets (Returned r);
               EvLog (ConsoleLog ("Creating bucket: " +++ BUCKET_NAME))] in
    let o := w (CreateBucket BUCKET_NAME bucket_options) (h ++ h1) in
    extend (h1 ++ [EvCall (CreateBucket BUCKET_NAME bucket_options) o])
      match o with
      | Returned r' =>
          match error r' with
          | Some e => ([], Uncaught (JsError ("Error creating bucket: " +++ message e)))
          | None => ([EvLog (ConsoleLog "Bucket created successfully!")], Completed tt)
          end
      | Threw e => ([], Uncaught e)
      end.
Proof.
  intros H He Hb. unfold ensure_bucket, bucket_exists in *. run_step. rewrite H. run_step.
  rewrite He. run_step. rewrite Hb. run_step.
  rewrite <- !app_assoc. cbn [app]. fold bucket_options.
  destruct (w (CreateBucket BUCKET_NAME bucket_options) _) as [[d [e|]]|e]; reflexivity.
Qed.

(** One turn of the loop over [policies], for each outcome of the request. *)
Lemma create_policy_returned (w : World) (policy : Policy) (h : trace) r :
  policy_outcome w policy h = Returned r ->
  exec w (create_policy policy) h
  = ([EvLog (ConsoleLog ("Creating policy: " +++ name policy));
      EvCall (create_storage_policy policy) (Returned r)],
     Completed tt).
Proof.
  unfold policy_outcome, create_policy. intro H. run_step. rewrite H. reflexivity.
Qed.

Lemma create_policy_threw (w : World) (policy : Policy) (h : trace) msg :
  policy_outcome w policy h = Threw (JsError msg) ->
  exec w (create_policy policy) h
  = ([EvLog (ConsoleLog ("Creating policy: " +++ name policy));
      EvCall (create_storage_policy policy) (Threw (JsError msg));
      EvLog (if includes msg "already exists"
             then ConsoleLog ("Policy " +++ name policy +++ " already exists")
             else ConsoleError ("Error creating policy " +++ name policy +++ ":")
                               (JsError msg))],
     Completed tt).
Proof.
  unfold policy_outcome, create_policy. intro H. run_step. rewrite H. run_step.
  destruct (includes msg "already exists"); reflexivity.
Qed.

Lemma create_policy_threw_answers (w : World) (policy : Policy) (h : trace) (b : bool) :
  policy_outcome w policy h = Threw (JsAnswers b) ->
  exec w (create_policy policy) h
  = ([EvLog (ConsoleLog ("Creating policy: " +++ name policy));
      EvCall (create_storage_policy policy) (Threw (JsAnswers b));
      EvLog (if b
             then ConsoleLog ("Policy " +++ name policy +++ " already exists")
             else ConsoleError ("Error creating policy " +++ name policy +++ ":")
                               (JsAnswers b))],
     Completed tt).
Proof.
  unfold policy_outcome, create_policy. intro H. run_step. rewrite H. run_step.
  destruct b; reflexivity.
Qed.

Lemma create_policy_threw_raises (w : World) (policy : Policy) (h : trace) (e : js_value) :
  policy_outcome w policy h = Threw (JsRaises e) ->
  exec w (create_policy policy) h
  = ([EvLog (ConsoleLog ("Creating policy: " +++ name policy));
      EvCall (create_storage_policy policy) (Threw (JsRaises e))],
     Uncaught e).
Proof.
  unfold policy_outcome, create_policy. intro H. run_step. rewrite H. reflexivity.
Qed.

(** The loop over the policies runs to its end, and asks once for each
    policy, when every request returns or throws an error whose message is
    a string. *)
Lemma create_policies_exec (w : World) (ps : list Policy) :
  (forall p, In p ps -> returns_or_throws_error w (create_storage_policy p)) ->
  forall h,
    snd (exec w (for_each ps create_policy) h) = Completed tt
    /\ calls_of (fst (exec w (for_each ps create_policy) h)) = map create_storage_policy ps.
Proof.
  induction ps as [|p ps IH]; intros Hw h; [split; reflexivity|].
  cbn [for_each map].
  assert (Hp : exists t, exec w (create_policy p) h = (t, Completed tt)
                         /\ calls_of t = [create_storage_policy p]).
  { destruct (Hw p (or_introl eq_refl)
                 (h ++ [EvLog (ConsoleLog ("Creating policy: " +++ name p))]))
      as [[r Hr]|[msg Hm]].
    - eexists; split; [apply create_policy_returned; exact Hr | reflexivity].
    - eexists; split; [apply create_policy_threw; exact Hm | reflexivity]. }
  destruct Hp as [t [Ht Hc]].
  rewrite (exec_bind_completed w _ _ h t tt Ht).
  destruct (IH (fun q Hq => Hw q (or_intror Hq)) (h ++ t)) as [IH1 IH2].
  unfold extend; cbn [fst snd]. split; [exact IH1|].
  now rewrite calls_of_app, Hc, IH2.
Qed.

Lemma setup_policies_enable_threw (w : World) (h : trace) (e : js_value) :
  w enable_rls (h ++ [EvLog (ConsoleLog "Setting up storage policies...")]) = Threw e ->
  exec w setup_policies h
  = ([EvLog (ConsoleLog "Setting up storage policies...");
      EvCall enable_rls (Threw e)], Uncaught e).
Proof.
  intro H. unfold setup_policies.
  cbn [exec bind await console_log after fst snd]. rewrite H. reflexivity.
Qed.

Lemma setup_policies_exec (w : World) (h : trace) r :
  w enable_rls (h ++ [EvLog (ConsoleLog "Setting up storage policies...")]) = Returned r ->
  exec w setup_policies h
  = let h1 := [EvLog (ConsoleLog "Setting up storage policies...");
               EvCall enable_rls (Returned r)] in
    extend h1 (exec w (for_each policies create_policy) (h ++ h1)).
Proof.
  intro H. unfold setup_policies.
  cbn [exec bind await console_log after fst snd]. rewrite H.
  cbn [exec bind await console_log after fst snd].
  rewrite <- app_assoc. reflexivity.
Qed.

Lemma exec_bind_cases {A B} (w : World) (p : prog A) (f : A -> prog B)
      (h : trace) (Q : trace * final B -> Prop) :
  no_exit p ->
  (forall t a, exec w p h = (t, Completed a) -> Q (extend t (exec w (f a) (h ++ t)))) ->
  (forall t e, exec w p h = (t, Uncaught e) -> Q (t, Uncaught e)) ->
  Q (exec w (bind p f) h).
Proof.
  intros Hne Hc Hu. destruct (exec w p h) as [t [a|e|code]] eqn:E.
  - rewrite (exec_bind_completed w p f h t a E). now apply Hc.
  - rewrite (exec_bind_uncaught w p f h t e E). now apply Hu.
  - exfalso. apply (no_exit_exec w p Hne h code). now rewrite E.
Qed.

(** One turn of the loop over [files]. *)
Lemma upload_file_skipped (w : World) (dirname file : string) (h : trace) :
  image_regex_test file = false ->
  exec w (upload_file dirname file) h = ([], Completed tt).
Proof. intro H. unfold upload_file. now rewrite H. Qed.

Lemma upload_file_read_threw (w : World) (dirname file : string) (h : trace) e :
  image_regex_test file = true ->
  w (ReadFileSync (path.join (IMAGES_DIR dirname) file)) h = Threw e ->
  exec w (upload_file dirname file) h
  = ([EvCall (ReadFileSync (path.join (IMAGES_DIR dirname) file)) (Threw e)], Uncaught e).
Proof.
  intros H Hr. unfold upload_file. rewrite H. run_step. rewrite Hr. reflexivity.
Qed.

Lemma upload_file_exec (w : World) (dirname file : string) (h : trace) buf r :
  image_regex_test file = true ->
  w (ReadFileSync (path.join (IMAGES_DIR dirname) file)) h = Returned buf ->
  w (Upload BUCKET_NAME ("product-images/" +++ file) buf (file_options file))
    (h ++ [EvCall (ReadFileSync (path.join (IMAGES_DIR dirname) file)) (Returned buf);
           EvLog (ConsoleLog ("Uploading: " +++ file))]) = Returned r ->
  exec w (upload_file dirname file) h
  = ([EvCall (ReadFileSync (path.join (IMAGES_DIR dirname) file)) (Returned buf);
      EvLog (ConsoleLog ("Uploading: " +++ file));
      EvCall (Upload BUCKET_NAME ("product-images/" +++ file) buf (file_options file))
             (Returned r);
      EvLog (match error r with
             | Some e => ConsoleError ("Error uploading " +++ file +++ ":")
                                      (JsError (message e))
             | None => ConsoleLog ("Successfully uploaded: " +++ file)
             end)],
     Completed tt).
Proof.
  intros H Hr Hu. unfold upload_file. rewrite H. run_step. rewrite Hr. run_step.
  rewrite <- !app_assoc. cbn [app]. fold (file_options file). rewrite Hu. run_step.
  destruct (error r); reflexivity.
Qed.

Lemma upload_file_throws_upload (w : World) (dirname file : string) (h : trace) buf e :
  image_regex_test file = true ->
  w (ReadFileSync (path.join (IMAGES_DIR dirname) file)) h = Returned buf ->
  w (Upload BUCKET_NAME ("product-images/" +++ file) buf (file_options file))
    (h ++ [EvCall (ReadFileSync (path.join (IMAGES_DIR dirname) file)) (Returned buf);
           EvLog (ConsoleLog ("Uploading: " +++ file))]) = Threw e ->
  exec w (upload_file dirname file) h
  = ([EvCall (ReadFileSync (path.join (IMAGES_DIR dirname) file)) (Returned buf);
      EvLog (ConsoleLog ("Uploading: " +++ file));
      EvCall (Upload BUCKET_NAME ("product-images/" +++ file) buf (file_options file))
             (Threw e)],
     Uncaught e).
Proof.
  intros H Hr Hu. unfold upload_file. rewrite H. run_step. rewrite Hr. run_step.
  rewrite <- !app_assoc. cbn [app]. fold (file_options file). rewrite Hu. reflexivity.
Qed.

(** Every upload request made for [file] targets [product-images/file]. *)
Lemma upload_file_targets (w : World) (dirname file : string) (h : trace) :
  Forall (fun target => target = "product-images/" +++ file)
         (upload_targets (fst (exec w (upload_file dirname file) h))).
Proof.
  destruct (image_regex_test file) eqn:E.
  - destruct (w (ReadFileSync (path.join (IMAGES_DIR dirname) file)) h) as [buf|e] eqn:Hr.
    + destruct (w (Upload BUCKET_NAME ("product-images/" +++ file) buf (file_options file))
                  (h ++ [EvCall (ReadFileSync (path.join (IMAGES_DIR dirname) file))
                                (Returned buf);
                         EvLog (ConsoleLog ("Uploading: " +++ file))])) as [r|e] eqn:Hu.
      * rewrite (upload_file_exec w dirname file h buf r E Hr Hu).
        repeat constructor.
      * rewrite (upload_file_throws_upload w dirname file h buf e E Hr Hu).
        repeat constructor.
    + rewrite (upload_file_read_threw w dirname file h e E Hr). constructor.
  - rewrite (upload_file_skipped w dirname file h E). constructor.
Qed.

(** The loop over the files runs to its end, with one upload request per
    matching name, as long as no read and no upload throws. *)
Lemma upload_loop_exec (w : World) (dirname : string) (files : list string) :
  uploads_answered dirname w files ->
  forall h,
    snd (exec w (for_each files (upload_file dirname)) h) = Completed tt
    /\ upload_targets (fst (exec w (for_each files (upload_file dirname)) h))
       = map (fun file => "product-images/" +++ file) (filter image_regex_test files).
Proof.
  induction files as [|file files IH]; intros [Hread Hup] h; [split; reflexivity|].
  cbn [for_each filter].
  assert (Hf : exists t, exec w (upload_file dirname file) h = (t, Completed tt)
                         /\ upload_targets t
                            = if image_regex_test file
                              then ["product-images/" +++ file] else []).
  { destruct (image_regex_test file) eqn:E.
    - destruct (Hread file (or_introl eq_refl) E h) as [buf Hr].
      destruct (Hup file buf (or_introl eq_refl) E
                    (h ++ [EvCall (ReadFileSync (path.join (IMAGES_DIR dirname) file))
                                  (Returned buf);
                           EvLog (ConsoleLog ("Uploading: " +++ file))])) as [r Hu].
      eexists; split; [exact (upload_file_exec w dirname file h buf r E Hr Hu) | reflexivity].
    - eexists; split; [exact (upload_file_skipped w dirname file h E) | reflexivity]. }
  destruct Hf as [t [Ht Htg]].
  rewrite (exec_bind_completed w _ _ h t tt Ht).
  assert (Hrest : uploads_answered dirname w files).
  { constructor; intros; [apply Hread | apply Hup]; auto; now right. }
  destruct (IH Hrest (h ++ t)) as [IH1 IH2].
  unfold extend; cbn [fst snd]. split; [exact IH1|].
  rewrite upload_targets_app, Htg, IH2.
  destruct (image_regex_test file); reflexivity.
Qed.

Lemma upload_images_exec (w : World) (dirname : string) (h : trace) (files : list string) :
  w (ReaddirSync (IMAGES_DIR dirname)) h = Returned files ->
  exec w (upload_images dirname) h
  = let h1 := [EvCall (ReaddirSync (IMAGES_DIR dirname)) (Returned files);
               EvLog (ConsoleLog ("Found " +++ string_of_nat (length files)
                                  +++ " files to upload"))] in
    extend h1 (exec w (for_each files (upload_file dirname)) (h ++ h1)).
Proof.
  intro H. unfold upload_images.
  cbn [exec bind await console_log after fst snd]. rewrite H.
  cbn [exec bind await console_log after fst snd].
  rewrite <- app_assoc. reflexivity.
Qed.

Lemma upload_images_readdir_threw (w : World) (dirname : string) (h : trace) e :
  w (ReaddirSync (IMAGES_DIR dirname)) h = Threw e ->
  exec w (upload_images dirname) h
  = ([EvCall (ReaddirSync (IMAGES_DIR dirname)) (Threw e)], Uncaught e).
Proof.
  intro H. unfold upload_images.
  cbn [exec bind await console_log after fst snd]. rewrite H. reflexivity.
Qed.

(** When a matching file cannot be read the loop stops there: uploads were
    requested for earlier entries only. *)
Lemma upload_loop_read_threw (w : World) (dirname : string) (before after_ : list string)
      (file : string) :
  image_regex_test file = true ->
  throws w (ReadFileSync (path.join (IMAGES_DIR dirname) file)) ->
  forall h,
    (exists e, snd (exec w (for_each (before ++ file :: after_) (upload_file dirname)) h)
               = Uncaught e)
    /\ Forall (fun target => exists g, In g before /\ target = "product-images/" +++ g)
              (upload_targets
                 (fst (exec w (for_each (before ++ file :: after_) (upload_file dirname)) h))).
Proof.
  intros Hmatch Hthrow. induction before as [|g before IH]; intro h.
  - cbn [app for_each]. destruct (Hthrow h) as [e He].
    rewrite (exec_bind_uncaught w _ _ h _ e
               (upload_file_read_threw w dirname file h e Hmatch He)).
    split; [now exists e | constructor].
  - cbn [app for_each].
    apply exec_bind_cases; [apply upload_file_no_exit | |].
    + intros t [] Ht. destruct (IH (h ++ t)) as [IH1 IH2].
      unfold extend; cbn [fst snd]. split; [exact IH1|].
      rewrite upload_targets_app. apply Forall_app. split.
      * pose proof (upload_file_targets w dirname g h) as Hg. rewrite Ht in Hg.
        eapply Forall_impl; [|exact Hg]. intros tg ->. exists g. split; [now left | reflexivity].
      * eapply Forall_impl; [|exact IH2].
        intros tg [g' [Hin ->]]. exists g'. split; [now right | reflexivity].
    + intros t e Ht. cbn [fst snd]. split; [now exists e|].
      pose proof (upload_file_targets w dirname g h) as Hg. rewrite Ht in Hg.
      eapply Forall_impl; [|exact Hg]. intros tg ->. exists g. split; [now left | reflexivity].
Qed.

(* ------------------------------------------------------------------ *)
(** *** The helper file *)

Lemma fs_after_app (t1 t2 : trace) (fs : FileSystem) :
  fs_after (t1 ++ t2) fs = fs_after t2 (fs_after t1 fs).
Proof. unfold fs_after. apply fold_left_app. Qed.

Lemma fs_after_untouched (t : trace) (fs : FileSystem) :
  Forall (fun c => is_mkdir c = false /\ is_write c = false) (calls_of t) ->
  fs_after t fs = fs.
Proof.
  revert fs. induction t as [|[l|c o] t IH]; intros fs H; [reflexivity| |].
  - apply IH, H.
  - inversion H as [|c' l' [Hm Hw] Hrest]; subst.
    unfold fs_after; cbn [fold_left]. fold (fs_after t (fs_event fs (EvCall c o))).
    rewrite IH by assumption.
    destruct c; try reflexivity; discriminate.
Qed.

Lemma write_helper_exec (w : World) (dirname : string) (h : trace) (present : bool) :
  w (ExistsSync (utilsDir dirname)) h = Returned present ->
  returns w (MkdirSync (utilsDir dirname)) ->
  returns w (WriteFileSync (helperPath dirname) helperCode "utf-8") ->
  exists t,
    exec w (write_helper dirname) h = (t, Completed tt)
    /\ calls_of t
       = ExistsSync (utilsDir dirname)
         :: (if present then [] else [MkdirSync (utilsDir dirname)])
         ++ [WriteFileSync (helperPath dirname) helperCode "utf-8"]
    /\ forall fs,
        file_content (fs_after t fs) (helperPath dirname) = Some helperCode
        /\ (present = false -> is_directory (fs_after t fs) (utilsDir dirname) = true).
Proof.
  intros He Hm Hw. unfold write_helper. destruct present.
  - run_step. rewrite He. run_step.
    match goal with |- context [w (WriteFileSync _ _ _) ?h'] => destruct (Hw h') as [[] Hx] end.
    rewrite Hx. run_step. eexists. split; [reflexivity|]. split; [reflexivity|].
    intro fs. split; [|discriminate].
    unfold fs_after, file_content; cbn [fold_left fs_event state_of after fst snd].
      now rewrite String.eqb_refl.
  - run_step. rewrite He. run_step.
    match goal with |- context [w (MkdirSync _) ?h'] => destruct (Hm h') as [[] Hy] end.
    rewrite Hy. run_step.
    match goal with |- context [w (WriteFileSync _ _ _) ?h'] => destruct (Hw h') as [[] Hx] end.
    rewrite Hx. run_step. eexists. split; [reflexivity|]. split; [reflexivity|].
    intro fs. split.
    + unfold fs_after, file_content; cbn [fold_left fs_event state_of after fst snd].
      now rewrite String.eqb_refl.
    + intros _. unfold fs_after; cbn [fold_left fs_event is_directory after fst snd].
      now rewrite String.eqb_refl.
Qed.

(* ------------------------------------------------------------------ *)
(** *** From the steps to the whole run *)

Lemma exec_bind_exited {A B} (w : World) (p : prog A) (f : A -> prog B) :
  forall h t code,
    exec w p h = (t, Exited code) ->
    exec w (bind p f) h = (t, Exited code).
Proof.
  induction p as [a0|e0|code0|l k IH|c k IH]; intros h t code E; simpl in *;
    try discriminate.
  - inversion E; subst; reflexivity.
  - destruct (exec w k (h ++ [EvLog l])) as [t' r'] eqn:E'.
    unfold after in E; simpl in E. inversion E; subst.
    now rewrite (IH _ _ _ E').
  - destruct (exec w (k (w c h)) (h ++ [EvCall c (w c h)])) as [t' r'] eqn:E'.
    unfold after in E; simpl in E. inversion E; subst.
    now rewrite (IH _ _ _ _ E').
Qed.

(** A sequence that runs to its end: so did its first part. *)
Lemma exec_bind_inv {A B} (w : World) (p : prog A) (f : A -> prog B) (h : trace) (b : B) :
  snd (exec w (bind p f) h) = Completed b ->
  exists t a,
    exec w p h = (t, Completed a)
    /\ snd (exec w (f a) (h ++ t)) = Completed b
    /\ fst (exec w (bind p f) h) = t ++ fst (exec w (f a) (h ++ t)).
Proof.
  destruct (exec w p h) as [t [a|e|code]] eqn:E; intro H.
  - rewrite (exec_bind_completed w p f h t a E) in *.
    exists t, a. repeat split. exact H.
  - rewrite (exec_bind_uncaught w p f h t e E) in H. discriminate.
  - rewrite (exec_bind_exited w p f h t code E) in H. discriminate.
Qed.

Lemma pair_eta {X Y} (p : X * Y) : p = (fst p, snd p).
Proof. now destruct p. Qed.

(** The run from the policies on, once the bucket step is over. *)
Lemma run_from_policies (dirname : string) (w : World) :
  reaches_policies w ->
  exists t,
    run dirname w
    = extend t (exec w (try_catch (setup_policies ;; upload_images dirname ;;
                                   write_helper dirname) on_failure) t)
    /\ exec w ensure_bucket [] = (t, Completed tt)
    /\ Forall bucket_call (calls_of t).
Proof.
  unfold reaches_policies. intro H.
  exists (fst (exec w ensure_bucket [])).
  assert (E : exec w ensure_bucket [] = (fst (exec w ensure_bucket []), Completed tt)).
  { rewrite <- H. apply pair_eta. }
  split; [|split; [exact E | apply calls_sat_exec, ensure_bucket_calls]].
  unfold run, setupStorage, steps.
  now rewrite (exec_try_bind_completed w _ _ on_failure [] _ tt E).
Qed.

(** The run from the directory listing on, once the policies are done. *)
Lemma run_from_upload (dirname : string) (w : World) :
  reaches_upload w ->
  exists t,
    run dirname w
    = extend t (exec w (try_catch (upload_images dirname ;; write_helper dirname)
                                  on_failure) t)
    /\ exec w (ensure_bucket ;; setup_policies) [] = (t, Completed tt)
    /\ Forall (fun c => bucket_call c \/ policy_call c) (calls_of t).
Proof.
  unfold reaches_upload. intro H.
  destruct (exec_bind_inv w _ _ [] tt H) as [t1 [[] [E1 [E2 E3]]]].
  cbn [app] in E2, E3.
  exists (t1 ++ fst (exec w setup_policies t1)).
  assert (E2' : exec w setup_policies t1 = (fst (exec w setup_policies t1), Completed tt)).
  { rewrite <- E2. apply pair_eta. }
  split; [|split].
  - unfold run, setupStorage, steps.
    rewrite (exec_try_bind_completed w _ _ on_failure [] _ tt E1). cbn [app].
    rewrite (exec_try_bind_completed w _ _ on_failure t1 _ tt E2').
    now rewrite extend_extend.
  - rewrite (pair_eta (exec w (ensure_bucket ;; setup_policies) [])).
    now rewrite H, E3.
  - rewrite calls_of_app. apply Forall_app. split.
    + pose proof (calls_sat_exec _ w _ ensure_bucket_calls []) as Hb.
      rewrite E1 in Hb. cbn [fst] in Hb.
      eapply Forall_impl; [|exact Hb]. intros c Hc; now left.
    + eapply Forall_impl; [|apply (calls_sat_exec _ w _ setup_policies_calls t1)].
      intros c Hc; now right.
Qed.

(** The run from the helper on, once the uploads are done. *)
Lemma run_from_helper (dirname : string) (w : World) :
  reaches_helper dirname w ->
  exists t,
    run dirname w = extend t (exec w (try_catch (write_helper dirname) on_failure) t)
    /\ Forall (fun c => bucket_call c \/ policy_call c \/ upload_call dirname c)
              (calls_of t).
Proof.
  unfold reaches_helper. intro H.
  destruct (exec_bind_inv w _ _ [] tt H) as [t1 [[] [E1 [E2 _]]]].
  cbn [app] in E2.
  destruct (exec_bind_inv w _ _ t1 tt E2) as [t2 [[] [E3 [E4 _]]]].
  exists (t1 ++ t2 ++ fst (exec w (upload_images dirname) (t1 ++ t2))).
  assert (E4' : exec w (upload_images dirname) (t1 ++ t2)
                = (fst (exec w (upload_images dirname) (t1 ++ t2)), Completed tt)).
  { rewrite <- E4. apply pair_eta. }
  split.
  - unfold run, setupStorage, steps.
    rewrite (exec_try_bind_completed w _ _ on_failure [] _ tt E1). cbn [app].
    rewrite (exec_try_bind_completed w _ _ on_failure t1 _ tt E3).
    rewrite (exec_try_bind_completed w _ _ on_failure (t1 ++ t2) _ tt E4').
    rewrite !extend_extend. now rewrite <- !app_assoc.
  - rewrite !calls_of_app. repeat (apply Forall_app; split).
    + pose proof (calls_sat_exec _ w _ ensure_bucket_calls []) as Hb.
      rewrite E1 in Hb. cbn [fst] in Hb.
      eapply Forall_impl; [|exact Hb]. intros c Hc; now left.
    + pose proof (calls_sat_exec _ w _ setup_policies_calls t1) as Hb.
      rewrite E3 in Hb. cbn [fst] in Hb.
      eapply Forall_impl; [|exact Hb]. intros c Hc; right; now left.
    + eapply Forall_impl;
        [|apply (calls_sat_exec _ w _ (upload_images_calls dirname) (t1 ++ t2))].
      intros c Hc; right; now right.
Qed.

(** The last step and the end of the run. *)
Lemma helper_to_end_calls (dirname : string) (w : World) (h : trace) :
  Forall (helper_call dirname)
         (calls_of (fst (exec w (try_catch (write_helper dirname) on_failure) h))).
Proof.
  apply calls_sat_exec, calls_sat_try_catch;
    [apply write_helper_calls | intro; apply on_failure_calls].
Qed.

Lemma upload_to_end_calls (dirname : string) (w : World) (h : trace) :
  Forall (fun c => upload_call dirname c \/ helper_call dirname c)
         (calls_of (fst (exec w (try_catch (upload_images dirname ;; write_helper dirname)
                                           on_failure) h))).
Proof.
  apply calls_sat_exec, calls_sat_try_catch; [|intro; apply on_failure_calls].
  apply calls_sat_bind;
    [eapply calls_sat_impl; [|apply upload_images_calls]; tauto | intros _].
  eapply calls_sat_impl; [|apply write_helper_calls]; tauto.
Qed.

Lemma policies_to_end_calls (dirname : string) (w : World) (h : trace) :
  Forall (fun c => policy_call c \/ upload_call dirname c \/ helper_call dirname c)
         (calls_of (fst (exec w (try_catch (setup_policies ;; upload_images dirname ;;
                                            write_helper dirname) on_failure) h))).
Proof.
  apply calls_sat_exec, calls_sat_try_catch; [|intro; apply on_failure_calls].
  apply calls_sat_bind;
    [eapply calls_sat_impl; [|apply setup_policies_calls]; tauto | intros _].
  apply calls_sat_bind;
    [eapply calls_sat_impl; [|apply upload_images_calls]; tauto | intros _].
  eapply calls_sat_impl; [|apply write_helper_calls]; tauto.
Qed.

Lemma steps_no_exit (dirname : string) : no_exit (steps dirname).
Proof.
  unfold steps.
  apply no_exit_bind; [apply ensure_bucket_no_exit | intros _].
  apply no_exit_bind; [apply setup_policies_no_exit | intros _].
  apply no_exit_bind; [apply upload_images_no_exit | intros _].
  apply write_helper_no_exit.
Qed.

(** A run ends in one of two ways. *)
Lemma run_ends (dirname : string) (w : World) :
  final_of dirname w = Completed tt \/ final_of dirname w = Exited 1%Z.
Proof.
  unfold final_of, run, setupStorage.
  apply exec_try_cases; [apply steps_no_exit | |].
  - intros t [] _. now left.
  - intros t e _. now right.
Qed.

(** The steps run to their end in a tolerable world. *)
Lemma ensure_bucket_completes (w : World) :
  succeeds w ListBuckets -> succeeds w (CreateBucket BUCKET_NAME bucket_options) ->
  forall h, exists t, exec w ensure_bucket h = (t, Completed tt).
Proof.
  intros Hl Hc h. destruct (Hl h) as [d Hd].
  destruct (bucket_exists {| data := d; error := None |}) eqn:Hb.
  - eexists. exact (ensure_bucket_present w h _ Hd eq_refl Hb).
  - rewrite (ensure_bucket_absent w h _ Hd eq_refl Hb). cbv zeta.
    match goal with |- context [w (CreateBucket _ _) ?h'] => destruct (Hc h') as [d' Hd'] end.
    rewrite Hd'. eexists. reflexivity.
Qed.

Lemma setup_policies_completes (w : World) :
  returns w enable_rls -> policies_answered w ->
  forall h, exists t,
      exec w setup_policies h = (t, Completed tt)
      /\ calls_of t = enable_rls :: map create_storage_policy policies.
Proof.
  intros He Hp h.
  destruct (He (h ++ [EvLog (ConsoleLog "Setting up storage policies...")])) as [r Hr].
  rewrite (setup_policies_exec w h r Hr). cbv zeta.
  match goal with |- context [exec w (for_each policies create_policy) ?h'] =>
    destruct (create_policies_exec w policies Hp h') as [E1 E2];
    rewrite (pair_eta (exec w (for_each policies create_policy) h')), E1
  end.
  eexists. split; [reflexivity|].
  unfold extend; cbn [fst snd]. rewrite calls_of_app, E2. reflexivity.
Qed.

Lemma upload_images_completes (w : World) (dirname : string) :
  returns w (ReaddirSync (IMAGES_DIR dirname)) ->
  (forall files, uploads_answered dirname w files) ->
  forall h, exists t, exec w (upload_images dirname) h = (t, Completed tt).
Proof.
  intros Hd Hu h. destruct (Hd h) as [files Hf].
  rewrite (upload_images_exec w dirname h files Hf). cbv zeta.
  match goal with |- context [exec w (for_each files ?b) ?h'] =>
    destruct (upload_loop_exec w dirname files (Hu files) h') as [E1 _];
    rewrite (pair_eta (exec w (for_each files b) h')), E1
  end.
  eexists. reflexivity.
Qed.

Lemma tolerable_completes (dirname : string) (w : World) :
  tolerable dirname w -> final_of dirname w = Completed tt.
Proof.
  intros [Hl Hc He Hp Hd Hu Hx Hm Hw].
  unfold final_of, run, setupStorage, steps.
  destruct (ensure_bucket_completes w Hl Hc []) as [t1 E1].
  rewrite (exec_try_bind_completed w _ _ on_failure [] _ tt E1). cbn [app].
  destruct (setup_policies_completes w He Hp t1) as [t2 [E2 _]].
  rewrite (exec_try_bind_completed w _ _ on_failure t1 _ tt E2).
  destruct (upload_images_completes w dirname Hd Hu (t1 ++ t2)) as [t3 E3].
  rewrite (exec_try_bind_completed w _ _ on_failure (t1 ++ t2) _ tt E3).
  destruct (Hx ((t1 ++ t2) ++ t3)) as [present Hp'].
  destruct (write_helper_exec w dirname _ present Hp' Hm Hw) as [t4 [E4 _]].
  rewrite (exec_try_completed w _ on_failure _ t4 tt E4). reflexivity.
Qed.

(* ------------------------------------------------------------------ *)
(** *** The sample worlds *)

Ltac answered :=
  intros; first [ eexists; reflexivity
                | left; eexists; reflexivity
                | right; eexists; reflexivity ].

Lemma sample_policies_answered (s : Scenario) :
  (forall args, exists x, on_rpc s "create_storage_policy" args = Returned x)
  \/ (forall args, exists msg, on_rpc s "create_storage_policy" args = Threw (JsError msg)) ->
  policies_answered (world_of s).
Proof.
  intros [H|H] policy _ h; [left | right]; apply H.
Qed.

Lemma first_run_policies_answered : policies_answered (world_of first_run).
Proof.
  intros policy Hin h.
  destruct Hin as [<-|[<-|[<-|[<-|[]]]]];
    first [ left; eexists; reflexivity | right; eexists; reflexivity ].
Qed.

Lemma rerun_policies_answered : policies_answered (world_of rerun).
Proof.
  apply sample_policies_answered. right. intro args. eexists. reflexivity.
Qed.

Lemma first_run_uploads_answered (files : list string) :
  uploads_answered sample_dir (world_of first_run) files.
Proof.
  constructor.
  - intros file _ _ h. eexists. reflexivity.
  - intros file body _ _ h. cbn [world_of first_run on_upload].
    destruct (String.eqb _ _); eexists; reflexivity.
Qed.

Lemma first_run_tolerable : tolerable sample_dir (world_of first_run).
Proof.
  constructor;
    first [ exact first_run_policies_answered
          | exact first_run_uploads_answered
          | intro h; hnf; eexists; reflexivity ].
Qed.

Lemma no_creation_after_bucket_step (dirname : string) (l : list call) :
  Forall (fun c => policy_call c \/ upload_call dirname c \/ helper_call dirname c) l ->
  filter is_create_bucket l = [].
Proof.
  intro H. apply filter_none. eapply Forall_impl; [|exact H].
  intros c [Hc|[Hc|Hc]].
  - apply (policy_call_kind c Hc).
  - apply (upload_call_kind dirname c Hc).
  - apply (helper_call_kind dirname c Hc).
Qed.

(** The bucket step, for every answer to the creation request. *)
Lemma ensure_bucket_creating (w : World) (r : Result (list Bucket)) :
  w ListBuckets [] = Returned r -> error r = None -> bucket_exists r = false ->
  exists t f,
    exec w ensure_bucket [] = (t, f)
    /\ calls_of t = [ListBuckets; CreateBucket BUCKET_NAME bucket_options]
    /\ (creation_fails w -> exists e, f = Uncaught e).
Proof.
  intros Hr He Hb. rewrite (ensure_bucket_absent w [] r Hr He Hb). cbv zeta. cbn [app].
  match goal with |- context [w (CreateBucket _ _) ?h'] =>
    pose (h1 := h'); fold h1;
    destruct (w (CreateBucket BUCKET_NAME bucket_options) h1) as [[d [e|]]|e] eqn:Ho
  end.
  - eexists; eexists. split; [reflexivity|]. split; [reflexivity|].
    intros _. eexists; reflexivity.
  - eexists; eexists. split; [reflexivity|]. split; [reflexivity|].
    intros Hfail. exfalso.
    destruct (Hfail h1) as [[r' [e' [H1 H2]]]|[e' H1]]; rewrite Ho in H1.
    + inversion H1; subst r'. discriminate.
    + discriminate.
  - eexists; eexists. split; [reflexivity|]. split; [reflexivity|].
    intros _. eexists; reflexivity.
Qed.

Lemma filter_policy_requests (ps : list Policy) :
  filter is_create_policy (map create_storage_policy ps) = map create_storage_policy ps
  /\ filter is_rpc (map create_storage_policy ps) = map create_storage_policy ps.
Proof.
  induction ps as [|p ps [IH1 IH2]]; [split; reflexivity|].
  split; cbn [map filter].
  - change (is_create_policy (create_storage_policy p)) with true. cbv iota. now f_equal.
  - change (is_rpc (create_storage_policy p)) with true. cbv iota. now f_equal.
Qed.

(** The requests of a run that gets to the policies and through them. *)
Lemma run_through_policies (dirname : string) (w : World) :
  reaches_policies w -> returns w enable_rls -> policies_answered w ->
  exists t1 t3,
    calls_of (trace_of dirname w)
    = calls_of t1 ++ (enable_rls :: map create_storage_policy policies) ++ calls_of t3
    /\ Forall bucket_call (calls_of t1)
    /\ Forall (fun c => upload_call dirname c \/ helper_call dirname c) (calls_of t3).
Proof.
  intros Hreach He Hp.
  destruct (run_from_policies dirname w Hreach) as [t1 [Hrun [_ Hb]]].
  destruct (setup_policies_completes w He Hp t1) as [t2 [E2 Hc2]].
  rewrite (exec_try_bind_completed w _ _ on_failure t1 _ tt E2) in Hrun.
  exists t1. eexists. split; [|split; [exact Hb | apply upload_to_end_calls]].
  unfold trace_of. rewrite Hrun. unfold extend; cbn [fst snd].
  now rewrite !calls_of_app, Hc2.
Qed.

(* ------------------------------------------------------------------ *)
(** *** Strings *)

Lemma append_nil_r (s : string) : s +++ EmptyString = s.
Proof. induction s as [|c s IH]; simpl; [reflexivity | now rewrite IH]. Qed.

Lemma length_append (a b : string) :
  String.length (a +++ b) = String.length a + String.length b.
Proof. induction a as [|x a IH]; simpl; [reflexivity | now rewrite IH]. Qed.

Lemma append_inj_l (p a b : string) : p +++ a = p +++ b -> a = b.
Proof. induction p as [|x p IH]; simpl; intro H; [assumption | inversion H; auto]. Qed.

Lemma append_inj_r (a b c : string) : a +++ c = b +++ c -> a = b.
Proof.
  revert b. induction a as [|x a IH]; intros [|y b] H; simpl in H.
  - reflexivity.
  - apply (f_equal String.length) in H. simpl in H. rewrite length_append in H. lia.
  - apply (f_equal String.length) in H. simpl in H. rewrite length_append in H. lia.
  - inversion H; subst. f_equal. now apply IH.
Qed.

Lemma list_ascii_of_append (a b : string) :
  list_ascii_of_string (a +++ b) = list_ascii_of_string a ++ list_ascii_of_string b.
Proof. induction a as [|x a IH]; simpl; [reflexivity | now rewrite IH]. Qed.

Lemma list_ascii_of_map_string (f : ascii -> ascii) (s : string) :
  list_ascii_of_string (map_string f s) = map f (list_ascii_of_string s).
Proof. induction s as [|x s IH]; simpl; [reflexivity | now rewrite IH]. Qed.

Lemma length_list_ascii (s : string) :
  length (list_ascii_of_string s) = String.length s.
Proof. induction s as [|x s IH]; simpl; [reflexivity | now rewrite IH]. Qed.

Lemma prefix_append (a b : string) : prefix a (a +++ b) = true.
Proof.
  induction a as [|x a IH]; simpl; [now destruct b|].
  destruct (ascii_dec x x) as [_|N]; [exact IH | now elim N].
Qed.

Lemma includes_prefix (s needle : string) : prefix needle s = true -> includes s needle = true.
Proof. intro H. destruct s; cbn [includes]; rewrite H; reflexivity. Qed.

Lemma includes_append (a s needle : string) :
  includes s needle = true -> includes (a +++ s) needle = true.
Proof.
  intro H. induction a as [|x a IH]; simpl; [exact H|].
  rewrite IH. apply orb_true_r.
Qed.

Lemma substring_from_length (a b : string) : substring (String.length a) (String.length b) (a +++ b) = b.
Proof.
  induction a as [|x a IH]; simpl; [|exact IH].
  induction b as [|y b IHb]; simpl; [reflexivity | now rewrite IHb].
Qed.

(* ------------------------------------------------------------------ *)
(** *** Letter case *)

Lemma all_ascii_complete (c : ascii) : In c all_ascii.
Proof.
  unfold all_ascii. rewrite <- (ascii_nat_embedding c).
  apply in_map, in_seq. pose proof (nat_ascii_bounded c). lia.
Qed.

Lemma case_check :
  forallb (fun a =>
             Ascii.eqb (upper_ascii (lower_ascii a)) (upper_ascii a)
             && forallb (fun b =>
                           implb (Ascii.eqb (upper_ascii a) (upper_ascii b))
                                 (Ascii.eqb (lower_ascii a) (lower_ascii b)))
                        all_ascii)
          all_ascii = true.
Proof. vm_compute. reflexivity. Qed.

Lemma upper_lower (a : ascii) : upper_ascii (lower_ascii a) = upper_ascii a.
Proof.
  pose proof case_check as H. rewrite forallb_forall in H.
  specialize (H a (all_ascii_complete a)). apply andb_true_iff in H.
  now apply Ascii.eqb_eq.
Qed.

Lemma upper_eq_lower_eq (a b : ascii) :
  upper_ascii a = upper_ascii b -> lower_ascii a = lower_ascii b.
Proof.
  intro E. pose proof case_check as H. rewrite forallb_forall in H.
  specialize (H a (all_ascii_complete a)). apply andb_true_iff in H. destruct H as [_ H].
  rewrite forallb_forall in H. specialize (H b (all_ascii_complete b)).
  apply Ascii.eqb_eq in E. rewrite E in H. now apply Ascii.eqb_eq.
Qed.

(* ------------------------------------------------------------------ *)
(** *** The regular expression and the words "ends in an image extension" *)

Lemma match_literal_ci_sound (pat s rest : string) :
  match_literal_ci pat s = Some rest ->
  exists m, s = m +++ rest /\ toLowerCase m = toLowerCase pat.
Proof.
  revert s. induction pat as [|p pat IH]; intros s H; simpl in H.
  - inversion H; subst. now exists EmptyString.
  - destruct s as [|c s]; [discriminate|].
    destruct (Ascii.eqb (canonicalize p) (canonicalize c)) eqn:E; [|discriminate].
    destruct (IH s H) as [m [-> Hm]].
    exists (String c m). split; [reflexivity|].
    unfold toLowerCase in *. simpl. rewrite Hm. f_equal.
    apply upper_eq_lower_eq. symmetry. now apply Ascii.eqb_eq.
Qed.

Lemma match_literal_ci_complete (m rest : string) :
  match_literal_ci (toLowerCase m) (m +++ rest) = Some rest.
Proof.
  induction m as [|c m IH]; simpl; [reflexivity|].
  unfold canonicalize. rewrite upper_lower, Ascii.eqb_refl. exact IH.
Qed.

Lemma image_regex_test_suffix (pre s : string) :
  match_here s = true -> image_regex_test (pre +++ s) = true.
Proof.
  intro H. induction pre as [|c pre IH]; cbn [append image_regex_test].
  - destruct s; cbn [image_regex_test]; rewrite H; reflexivity.
  - rewrite IH. apply orb_true_r.
Qed.

Lemma image_regex_test_inv (s : string) :
  image_regex_test s = true -> exists pre s', s = pre +++ s' /\ match_here s' = true.
Proof.
  induction s as [|c s IH]; simpl; intro H.
  - discriminate.
  - apply orb_true_iff in H. destruct H as [H|H].
    + exists EmptyString, (String c s). now split.
    + destruct (IH H) as [pre [s' [-> Hs']]]. exists (String c pre), s'. now split.
Qed.

(** The regular expression accepts exactly the names that end in one of the
    four extensions, letter case ignored. *)
Lemma image_regex_test_spec (file : string) :
  image_regex_test file = true <-> has_image_extension file.
Proof.
  split.
  - intro H. destruct (image_regex_test_inv file H) as [pre [s' [-> Hs']]].
    destruct s' as [|c r]; [discriminate|]. unfold match_here in Hs'.
    apply andb_true_iff in Hs'. destruct Hs' as [Hdot Halt].
    apply Ascii.eqb_eq in Hdot. subst c.
    apply existsb_exists in Halt. destruct Halt as [alt [Hin Hm]].
    destruct (match_literal_ci alt r) as [[|x rest]|] eqn:E; try discriminate.
    destruct (match_literal_ci_sound alt r EmptyString E) as [m [-> Hlow]].
    rewrite append_nil_r. exists pre, m. split; [reflexivity|].
    rewrite Hlow.
    destruct Hin as [<-|[<-|[<-|[<-|[]]]]]; simpl; auto.
  - intros [stem [ext [-> Hin]]].
    apply image_regex_test_suffix. cbn [append]. unfold match_here.
    rewrite Ascii.eqb_refl. cbn [andb].
    apply existsb_exists. exists (toLowerCase ext). split; [exact Hin|].
    pose proof (match_literal_ci_complete ext EmptyString) as H.
    rewrite append_nil_r in H. now rewrite H.
Qed.

(* ------------------------------------------------------------------ *)
(** *** [path.extname] on plain file names *)

Lemma extname_loop_first (c : ascii) (rest : list ascii) (i : Z) :
  c <> "."%char -> c <> "/"%char ->
  path.extname_loop (c :: rest) i path.scan0
  = path.extname_loop rest (i - 1) (scanning (i + 1)).
Proof.
  intros Hd Hs. cbn [path.extname_loop].
  rewrite (proj2 (Ascii.eqb_neq c "/") Hs), (proj2 (Ascii.eqb_neq c ".") Hd).
  reflexivity.
Qed.

Lemma extname_loop_ext (l : list ascii) :
  (forall c, In c l -> c <> "."%char /\ c <> "/"%char) ->
  forall rest i e,
    e <> (-1)%Z ->
    path.extname_loop (l ++ rest) i (scanning e)
    = path.extname_loop rest (i - Z.of_nat (length l)) (scanning e).
Proof.
  induction l as [|c l IH]; intros Hl rest i e He.
  - cbn [app length]. f_equal. lia.
  - destruct (Hl c (or_introl eq_refl)) as [Hd Hs].
    cbn [app path.extname_loop].
    rewrite (proj2 (Ascii.eqb_neq c "/") Hs), (proj2 (Ascii.eqb_neq c ".") Hd).
    change (path.end_ (scanning e)) with e. rewrite (proj2 (Z.eqb_neq e (-1)) He).
    change (path.startDot (scanning e) =? -1)%Z with true. cbn [negb].
    rewrite IH by (try assumption; intros; apply Hl; now right).
    f_equal. cbn [length]. lia.
Qed.

Lemma extname_loop_dot (rest : list ascii) (i e : Z) :
  e <> (-1)%Z ->
  path.extname_loop ("."%char :: rest) i (scanning e)
  = path.extname_loop rest (i - 1) (dotted i e 0).
Proof.
  intro He. cbn [path.extname_loop].
  change (Ascii.eqb "." "/") with false. change (Ascii.eqb "." ".") with true.
  change (path.end_ (scanning e)) with e. rewrite (proj2 (Z.eqb_neq e (-1)) He).
  reflexivity.
Qed.

Lemma extname_loop_stem (l : list ascii) :
  (forall c, In c l -> c <> "/"%char) ->
  forall i d e pds,
    d <> (-1)%Z -> e <> (-1)%Z ->
    exists pds',
      path.extname_loop l i (dotted d e pds) = dotted d e pds'
      /\ (pds' = 1%Z \/ pds' = (-1)%Z \/ (l = [] /\ pds' = pds)).
Proof.
  induction l as [|c l IH]; intros Hl i d e pds Hd He.
  - exists pds. split; [reflexivity | right; right; now split].
  - pose proof (Hl c (or_introl eq_refl)) as Hs.
    assert (Hl' : forall c', In c' l -> c' <> "/"%char) by (intros; apply Hl; now right).
    cbn [path.extname_loop].
    rewrite (proj2 (Ascii.eqb_neq c "/") Hs).
    change (path.end_ (dotted d e pds)) with e.
    rewrite (proj2 (Z.eqb_neq e (-1)) He).
    change (path.startDot (dotted d e pds)) with d.
    change (path.preDotState (dotted d e pds)) with pds.
    change (path.startPart (dotted d e pds)) with 0%Z.
    change (path.matchedSlash (dotted d e pds)) with false.
    rewrite (proj2 (Z.eqb_neq d (-1)) Hd). cbn [negb].
    destruct (Ascii.eqb c ".").
    + destruct (pds =? 1)%Z eqn:E; cbn [negb].
      * apply Z.eqb_eq in E. subst pds.
        destruct (IH Hl' (i - 1)%Z d e 1%Z Hd He) as [p [Hp Hcases]].
        exists p. split; [exact Hp|]. destruct Hcases as [H|[H|[_ H]]]; auto.
      * fold (dotted d e 1).
        destruct (IH Hl' (i - 1)%Z d e 1%Z Hd He) as [p [Hp Hcases]].
        exists p. split; [exact Hp|]. destruct Hcases as [H|[H|[_ H]]]; auto.
    + fold (dotted d e (-1)).
      destruct (IH Hl' (i - 1)%Z d e (-1)%Z Hd He) as [p [Hp Hcases]].
      exists p. split; [exact Hp|]. destruct Hcases as [H|[H|[_ H]]]; auto.
Qed.

(** For a plain name with a non-empty stem, the extension is what follows
    the last dot, dot included. *)
Lemma extname_of_name (stem ext : string) :
  stem <> EmptyString -> ext <> EmptyString ->
  lacks "/" stem -> lacks "/" ext -> lacks "." ext ->
  path.extname (stem +++ "." +++ ext) = "." +++ ext.
Proof.
  intros Hstem Hext Hs1 Hs2 Hd2. unfold lacks in *.
  unfold path.extname.
  set (ls := list_ascii_of_string stem) in *.
  set (le := list_ascii_of_string ext) in *.
  assert (Hlen : String.length (stem +++ "." +++ ext)
                 = length ls + 1 + length le).
  { rewrite length_append. cbn [append String.length].
    unfold ls, le. rewrite !length_list_ascii. lia. }
  assert (Hrev : List.rev (list_ascii_of_string (stem +++ "." +++ ext))
                 = List.rev le ++ "."%char :: List.rev ls).
  { rewrite list_ascii_of_append. cbn [append list_ascii_of_string].
    fold ls le. rewrite rev_app_distr. cbn [List.rev]. now rewrite <- app_assoc. }
  rewrite Hrev, Hlen.
  assert (Hle : le <> []).
  { unfold le. destruct ext; [now elim Hext | discriminate]. }
  assert (Hls : ls <> []).
  { unfold ls. destruct stem; [now elim Hstem | discriminate]. }
  destruct (List.rev le) as [|c l'] eqn:Erev.
  { exfalso. apply Hle. rewrite <- (rev_involutive le), Erev. reflexivity. }
  assert (Hin : forall x, In x (c :: l') -> x <> "."%char /\ x <> "/"%char).
  { intros x Hx. rewrite <- Erev in Hx. apply in_rev in Hx.
    split; intros ->; [now apply Hd2 | now apply Hs2]. }
  assert (Hlen' : length le = S (length l')).
  { rewrite <- (length_rev le), Erev. reflexivity. }
  cbn [app]. destruct (Hin c (or_introl eq_refl)) as [Hcd Hcs].
  rewrite (extname_loop_first c _ _ Hcd Hcs).
  rewrite extname_loop_ext by (try lia; intros; apply Hin; now right).
  rewrite extname_loop_dot by lia.
  match goal with |- context [path.extname_loop (List.rev ls) ?i (dotted ?d ?e 0)] =>
    destruct (extname_loop_stem (List.rev ls)
                (fun x Hx => fun E => Hs1 (eq_ind x (fun y => In y ls)
                                                 (proj2 (in_rev ls x) Hx) _ E))
                i d e 0%Z) as [pds [Hp Hcases]]; [lia | lia |];
    rewrite Hp
  end.
  assert (Hpds : pds = 1%Z \/ pds = (-1)%Z).
  { destruct Hcases as [H|[H|[H _]]]; auto.
    exfalso. apply Hls. rewrite <- (rev_involutive ls), H. reflexivity. }
  cbn [dotted path.startDot path.end_ path.preDotState path.startPart].
  replace (Z.of_nat (length ls + 1 + length le) - 1 - 1 - Z.of_nat (length l'))%Z
    with (Z.of_nat (length ls)) by lia.
  replace (Z.of_nat (length ls + 1 + length le) - 1 + 1)%Z
    with (Z.of_nat (length ls + 1 + length le)) by lia.
  rewrite (proj2 (Z.eqb_neq (Z.of_nat (length ls)) (-1))) by lia.
  rewrite (proj2 (Z.eqb_neq (Z.of_nat (length ls + 1 + length le)) (-1))) by lia.
  rewrite (proj2 (Z.eqb_neq pds 0)) by (destruct Hpds; lia).
  rewrite (proj2 (Z.eqb_neq (Z.of_nat (length ls))
                            (Z.of_nat (length ls + 1 + length le) - 1))) by lia.
  rewrite andb_false_r. cbn [orb andb].
  unfold path.slice. rewrite Nat2Z.id.
  replace (Z.to_nat (Z.of_nat (length ls + 1 + length le) - Z.of_nat (length ls)))
    with (String.length ("." +++ ext)).
  - unfold ls. rewrite length_list_ascii. apply substring_from_length.
  - cbn [append String.length]. unfold le. rewrite length_list_ascii. lia.
Qed.

(** An image extension holds neither a dot nor a slash, and is not empty. *)
Lemma image_extension_plain (ext : string) :
  In (toLowerCase ext) ["jpg"; "jpeg"; "png"; "gif"] ->
  ext <> EmptyString /\ lacks "/" ext /\ lacks "." ext.
Proof.
  intro Hin.
  assert (Hlow : forall c, In c (list_ascii_of_string ext) ->
                           In (lower_ascii c) (list_ascii_of_string (toLowerCase ext))).
  { intros c Hc. unfold toLowerCase. rewrite list_ascii_of_map_string. now apply in_map. }
  split; [|split].
  - intros ->. simpl in Hin. intuition discriminate.
  - intro Hc. apply Hlow in Hc. change (lower_ascii "/") with "/"%char in Hc.
    destruct Hin as [E|[E|[E|[E|[]]]]]; rewrite <- E in Hc; simpl in Hc;
      intuition discriminate.
  - intro Hc. apply Hlow in Hc. change (lower_ascii ".") with "."%char in Hc.
    destruct Hin as [E|[E|[E|[E|[]]]]]; rewrite <- E in Hc; simpl in Hc;
      intuition discriminate.
Qed.

(* ------------------------------------------------------------------ *)
(** *** What the steps before and after the uploads leave alone *)

Lemma before_upload_quiet (t : trace) :
  Forall (fun c => bucket_call c \/ policy_call c) (calls_of t) ->
  upload_targets t = []
  /\ filter is_write (calls_of t) = []
  /\ filter is_mkdir (calls_of t) = [].
Proof.
  intro H. split; [|split].
  - apply upload_targets_none. eapply Forall_impl; [|exact H].
    intros c [Hc|Hc]; [apply (bucket_call_kind c Hc) | apply (policy_call_kind c Hc)].
  - apply filter_none. eapply Forall_impl; [|exact H].
    intros c [Hc|Hc]; [apply (bucket_call_kind c Hc) | apply (policy_call_kind c Hc)].
  - apply filter_none. eapply Forall_impl; [|exact H].
    intros c [Hc|Hc]; [apply (bucket_call_kind c Hc) | apply (policy_call_kind c Hc)].
Qed.

Lemma before_helper_quiet (dirname : string) (t : trace) :
  Forall (fun c => bucket_call c \/ policy_call c \/ upload_call dirname c) (calls_of t) ->
  Forall (fun c => is_mkdir c = false /\ is_write c = false) (calls_of t).
Proof.
  intro H. eapply Forall_impl; [|exact H].
  intros c [Hc|[Hc|Hc]].
  - split; apply (bucket_call_kind c Hc).
  - split; apply (policy_call_kind c Hc).
  - split; apply (upload_call_kind dirname c Hc).
Qed.

Lemma helper_no_upload (dirname : string) (t : trace) :
  Forall (helper_call dirname) (calls_of t) -> upload_targets t = [].
Proof.
  intro H. apply upload_targets_none. eapply Forall_impl; [|exact H].
  intros c Hc. apply (helper_call_kind dirname c Hc).
Qed.

Lemma upload_no_write (dirname : string) (t : trace) :
  Forall (upload_call dirname) (calls_of t) -> filter is_write (calls_of t) = [].
Proof.
  intro H. apply filter_none. eapply Forall_impl; [|exact H].
  intros c Hc. apply (upload_call_kind dirname c Hc).
Qed.

(** The upload step when the directory can be listed and every read and
    every upload comes back. *)
Lemma upload_images_targets (w : World) (dirname : string) (files : list string) :
  (forall h, w (ReaddirSync (IMAGES_DIR dirname)) h = Returned files) ->
  uploads_answered dirname w files ->
  forall h, exists t,
      exec w (upload_images dirname) h = (t, Completed tt)
      /\ upload_targets t
         = map (fun file => "product-images/" +++ file) (filter image_regex_test files).
Proof.
  intros Hd Hu h.
  rewrite (upload_images_exec w dirname h files (Hd h)). cbv zeta.
  match goal with |- context [exec w (for_each files ?b) ?h'] =>
    destruct (upload_loop_exec w dirname files Hu h') as [E1 E2];
    rewrite (pair_eta (exec w (for_each files b) h')), E1
  end.
  eexists. split; [reflexivity|].
  unfold extend; cbn [fst snd]. rewrite upload_targets_app, E2. reflexivity.
Qed.

(** A run in which the upload step is bound to throw exits with code 1
    without writing the helper; its upload requests are those made before
    the exception. *)
Lemma abort_in_upload (dirname : string) (w : World) (P : string -> Prop) :
  (forall h, exists t e,
        exec w (upload_images dirname) h = (t, Uncaught e)
        /\ Forall P (upload_targets t)) ->
  exit_code dirname w = 1%Z
  /\ Forall P (upload_targets (trace_of dirname w))
  /\ filter is_write (calls_of (trace_of dirname w)) = [].
Proof.
  intro Hthrow.
  unfold exit_code, final_of, trace_of, run, setupStorage, steps.
  apply (exec_try_bind_cases w _ _ _ _
           (fun r => process_exit_code (snd r) = 1%Z
                     /\ Forall P (upload_targets (fst r))
                     /\ filter is_write (calls_of (fst r)) = []));
    [apply ensure_bucket_no_exit | |].
  - intros t1 [] E1. cbn [app].
    assert (H1 : Forall (fun c => bucket_call c \/ policy_call c) (calls_of t1)).
    { pose proof (calls_sat_exec _ w _ ensure_bucket_calls []) as Hb.
      rewrite E1 in Hb. eapply Forall_impl; [|exact Hb]. intros c Hc; now left. }
    destruct (before_upload_quiet t1 H1) as [Hu1 [Hw1 _]].
    apply (exec_try_bind_cases w _ _ _ _
             (fun r => process_exit_code (snd (extend t1 r)) = 1%Z
                       /\ Forall P (upload_targets (fst (extend t1 r)))
                       /\ filter is_write (calls_of (fst (extend t1 r))) = []));
      [apply setup_policies_no_exit | |].
    + intros t2 [] E2.
      assert (H2 : Forall (fun c => bucket_call c \/ policy_call c) (calls_of t2)).
      { pose proof (calls_sat_exec _ w _ setup_policies_calls t1) as Hb.
        rewrite E2 in Hb. eapply Forall_impl; [|exact Hb]. intros c Hc; now right. }
      destruct (before_upload_quiet t2 H2) as [Hu2 [Hw2 _]].
      destruct (Hthrow (t1 ++ t2)) as [t3 [e [E3 HP]]].
      rewrite (exec_try_bind_uncaught w _ _ on_failure (t1 ++ t2) t3 e E3).
      rewrite exec_on_failure. unfold extend; cbn [fst snd].
      rewrite !upload_targets_app, !calls_of_app, !filter_app, Hu1, Hu2, Hw1, Hw2.
      split; [reflexivity|]. split.
      * cbn [app]. rewrite app_nil_r. exact HP.
      * cbn [app calls_of filter]. rewrite app_nil_r.
        apply (upload_no_write dirname).
        pose proof (calls_sat_exec _ w _ (upload_images_calls dirname) (t1 ++ t2)) as Hb.
        now rewrite E3 in Hb.
    + intros t2 e E2.
      assert (H2 : Forall (fun c => bucket_call c \/ policy_call c) (calls_of t2)).
      { pose proof (calls_sat_exec _ w _ setup_policies_calls t1) as Hb.
        rewrite E2 in Hb. eapply Forall_impl; [|exact Hb]. intros c Hc; now right. }
      destruct (before_upload_quiet t2 H2) as [Hu2 [Hw2 _]].
      rewrite exec_on_failure. unfold extend; cbn [fst snd].
      rewrite !upload_targets_app, !calls_of_app, !filter_app, Hu1, Hu2, Hw1, Hw2.
      split; [reflexivity|]. split; [constructor | reflexivity].
  - intros t1 e E1. cbn [app].
    assert (H1 : Forall (fun c => bucket_call c \/ policy_call c) (calls_of t1)).
    { pose proof (calls_sat_exec _ w _ ensure_bucket_calls []) as Hb.
      rewrite E1 in Hb. eapply Forall_impl; [|exact Hb]. intros c Hc; now left. }
    destruct (before_upload_quiet t1 H1) as [Hu1 [Hw1 _]].
    rewrite exec_on_failure. unfold extend; cbn [fst snd].
    rewrite !upload_targets_app, !calls_of_app, !filter_app, Hu1, Hw1.
    split; [reflexivity|]. split; [constructor | reflexivity].
Qed.

(** The helper's text contains the bucket name spliced into it, and
    different names give different texts. *)
Lemma helperCode_for_includes (bucket : string) :
  includes (helperCode_for bucket) bucket = true.
Proof.
  unfold helperCode_for. do 10 apply includes_append.
  apply includes_prefix, prefix_append.
Qed.

Lemma helperCode_for_inj (b1 b2 : string) :
  helperCode_for b1 = helperCode_for b2 -> b1 = b2.
Proof.
  unfold helperCode_for. intro H.
  do 10 apply append_inj_l in H.
  now apply append_inj_r in H.
Qed.

(* ================================================================== *)
(** ** Claims *)
(* ================================================================== *)

(** C10.  Whenever a run asks for the bucket to be created, the request
    names the configured bucket, sets the public flag and limits objects to
    2,097,152 bytes. *)
Theorem C10_bucket_created_public_2MiB
  (dirname : string) (w : World) (id : string) (options : BucketOptions) :
  In (CreateBucket id options) (calls_of (trace_of dirname w)) ->
  id = BUCKET_NAME /\ public options = true /\ fileSizeLimit options = 2097152%Z.
Proof.
  intro Hin.
  pose proof (run_calls dirname w) as H. rewrite Forall_forall in H.
  destruct (H _ Hin) as [Hc|[Hc|[Hc|Hc]]]; inversion Hc; subst.
  repeat split.
Qed.

Lemma C10_witness :
  In (CreateBucket BUCKET_NAME bucket_options)
     (calls_of (trace_of sample_dir (world_of first_run)))
  /\ (BUCKET_NAME = BUCKET_NAME /\ public bucket_options = true
      /\ fileSizeLimit bucket_options = 2097152%Z).
Proof.
  assert (Hin : In (CreateBucket BUCKET_NAME bucket_options)
                   (calls_of (trace_of sample_dir (world_of first_run)))).
  { right; left; reflexivity. }
  split; [exact Hin|].
  exact (C10_bucket_created_public_2MiB sample_dir (world_of first_run) _ _ Hin).
Defined.

(** C1.  When the listing call reports an error the process exits with
    code 1 and the listing is the only request of the run: no policy is
    created, nothing is uploaded, no helper file is written.  In a world
    where nothing fatal happens, failed policy requests and failed uploads
    included, the run completes and the exit code is 0.  No run ends in any
    other way. *)
Theorem C1_exit_codes (dirname : string) :
  (forall w, listing_fails w ->
             exit_code dirname w = 1%Z
             /\ calls_of (trace_of dirname w) = [ListBuckets]
             /\ filter is_create_policy (calls_of (trace_of dirname w)) = []
             /\ upload_targets (trace_of dirname w) = []
             /\ filter is_write (calls_of (trace_of dirname w)) = [])
  /\ (forall w, tolerable dirname w ->
                final_of dirname w = Completed tt /\ exit_code dirname w = 0%Z)
  /\ (forall w, (final_of dirname w = Completed tt /\ exit_code dirname w = 0%Z)
                \/ (final_of dirname w = Exited 1%Z /\ exit_code dirname w = 1%Z)).
Proof.
  split; [|split].
  - intros w Hfail.
    assert (E : exists o e, exec w ensure_bucket [] = ([EvCall ListBuckets o], Uncaught e)).
    { destruct Hfail as [[r [e [Hr He]]]|[e He]].
      - eexists; eexists; exact (ensure_bucket_list_error w [] r e Hr He).
      - eexists; eexists; exact (ensure_bucket_list_threw w [] e He). }
    destruct E as [o [e E]].
    unfold exit_code, final_of, trace_of, run, setupStorage, steps.
    rewrite (exec_try_bind_uncaught w _ _ on_failure [] _ e E).
    repeat split.
  - intros w Htol. unfold exit_code.
    rewrite (tolerable_completes dirname w Htol). split; reflexivity.
  - intro w. unfold exit_code.
    destruct (run_ends dirname w) as [E|E]; rewrite E; [left | right]; split; reflexivity.
Qed.

Lemma C1_witness :
  (listing_fails (world_of list_error)
   /\ exit_code sample_dir (world_of list_error) = 1%Z
   /\ calls_of (trace_of sample_dir (world_of list_error)) = [ListBuckets])
  /\ (tolerable sample_dir (world_of first_run)
      /\ exit_code sample_dir (world_of first_run) = 0%Z).
Proof.
  assert (Hfail : listing_fails (world_of list_error)).
  { left. eexists; eexists. split; reflexivity. }
  split.
  - split; [exact Hfail|].
    destruct (proj1 (C1_exit_codes sample_dir) (world_of list_error) Hfail)
      as [Hcode [Hcalls _]].
    split; [exact Hcode | exact Hcalls].
  - split; [exact first_run_tolerable|].
    exact (proj2 (proj1 (proj2 (C1_exit_codes sample_dir))
                        (world_of first_run) first_run_tolerable)).
Defined.

(** C2.  Let the listing call come back with result [r].  If its list of
    buckets contains one with the configured name, no run asks for the
    bucket to be created.  If it reports no error and the name is absent,
    the run asks for it exactly once, under the configured name; and when
    that request fails the process exits with code 1 right after it. *)
Theorem C2_create_if_absent (dirname : string) (w : World) (r : Result (list Bucket)) :
  w ListBuckets [] = Returned r ->
  (forall bs, data r = Some bs -> listed bs ->
              filter is_create_bucket (calls_of (trace_of dirname w)) = [])
  /\ (error r = None -> (forall bs, data r = Some bs -> ~ listed bs) ->
      filter is_create_bucket (calls_of (trace_of dirname w))
      = [CreateBucket BUCKET_NAME bucket_options]
      /\ (creation_fails w ->
          exit_code dirname w = 1%Z
          /\ calls_of (trace_of dirname w)
             = [ListBuckets; CreateBucket BUCKET_NAME bucket_options])).
Proof.
  intro Hr. split.
  - intros bs Hbs Hlisted.
    assert (Hb : bucket_exists r = true).
    { apply bucket_exists_listed. now exists bs. }
    unfold trace_of, run, setupStorage, steps.
    destruct (error r) as [e|] eqn:He.
    + rewrite (exec_try_bind_uncaught w _ _ on_failure [] _ _
                 (ensure_bucket_list_error w [] r e Hr He)).
      reflexivity.
    + rewrite (exec_try_bind_completed w _ _ on_failure [] _ tt
                 (ensure_bucket_present w [] r Hr He Hb)).
      unfold extend; cbn [fst snd]. rewrite calls_of_app, filter_app.
      rewrite (no_creation_after_bucket_step dirname _
                 (policies_to_end_calls dirname w _)).
      reflexivity.
  - intros He Habsent.
    assert (Hb : bucket_exists r = false).
    { destruct (bucket_exists r) eqn:E; [|reflexivity].
      apply bucket_exists_listed in E. destruct E as [bs [E1 E2]].
      exfalso. exact (Habsent bs E1 E2). }
    destruct (ensure_bucket_creating w r Hr He Hb) as [t [f [E [Hc Hfail]]]].
    unfold exit_code, final_of, trace_of, run, setupStorage, steps.
    destruct f as [[]|e|code].
    + rewrite (exec_try_bind_completed w _ _ on_failure [] _ tt E).
      unfold extend; cbn [fst snd]. rewrite calls_of_app, filter_app, Hc.
      rewrite (no_creation_after_bucket_step dirname _
                 (policies_to_end_calls dirname w _)).
      split; [reflexivity|].
      intro H. destruct (Hfail H) as [e He']. discriminate.
    + rewrite (exec_try_bind_uncaught w _ _ on_failure [] _ e E).
      rewrite exec_on_failure. unfold extend; cbn [fst snd].
      rewrite calls_of_app, Hc. split; [reflexivity|].
      intros _. split; reflexivity.
    + exfalso. apply (no_exit_exec w ensure_bucket ensure_bucket_no_exit [] code).
      now rewrite E.
Qed.

Lemma C2_witness :
  (world_of rerun ListBuckets []
   = Returned {| data := Some [other_bucket; our_bucket]; error := None |}
   /\ listed [other_bucket; our_bucket]
   /\ filter is_create_bucket (calls_of (trace_of sample_dir (world_of rerun))) = [])
  /\ (world_of create_error ListBuckets []
      = Returned {| data := Some [other_bucket]; error := None |}
      /\ ~ listed [other_bucket]
      /\ creation_fails (world_of create_error)
      /\ filter is_create_bucket (calls_of (trace_of sample_dir (world_of create_error)))
         = [CreateBucket BUCKET_NAME bucket_options]
      /\ exit_code sample_dir (world_of create_error) = 1%Z).
Proof.
  assert (Hin : listed [other_bucket; our_bucket]).
  { exists our_bucket. split; [right; left; reflexivity | reflexivity]. }
  assert (Hout : ~ listed [other_bucket]).
  { intros [b [[<-|[]] Hb]]. discriminate. }
  assert (Hfail : creation_fails (world_of create_error)).
  { intro h. left. eexists; eexists. split; reflexivity. }
  split.
  - split; [reflexivity|]. split; [exact Hin|].
    exact (proj1 (C2_create_if_absent sample_dir (world_of rerun) _ eq_refl)
                 _ eq_refl Hin).
  - split; [reflexivity|]. split; [exact Hout|]. split; [exact Hfail|].
    destruct (proj2 (C2_create_if_absent sample_dir (world_of create_error) _ eq_refl)
                    eq_refl) as [H1 H2].
    + intros bs E. inversion E; subst bs. exact Hout.
    + split; [exact H1 | exact (proj1 (H2 Hfail))].
Defined.

(** C3.  A run in which every policy request comes back with a result
    object whose error says [must be owner of table objects], a message
    without [already exists].  The claim wants such an error logged.  The
    run asks for the four policies, writes no error line at all (the whole
    console output is given), and ends with exit code 0: the [catch] clause
    of the loop only sees what the request throws, and what it returns is
    dropped, whereas the listing of the buckets, the creation of the bucket
    and the uploads all look at the [error] of the object they get back. *)
Theorem C3_returned_policy_error_not_logged :
  (forall policy h,
      In policy policies ->
      world_of policies_refused (create_storage_policy policy) h
      = failed "must be owner of table objects")
  /\ includes "must be owner of table objects" "already exists" = false
  /\ filter is_create_policy (calls_of (trace_of sample_dir (world_of policies_refused)))
     = map create_storage_policy policies
  /\ filter is_console_error (logs_of (trace_of sample_dir (world_of policies_refused))) = []
  /\ logs_of (trace_of sample_dir (world_of policies_refused))
     = [ConsoleLog "Bucket already exists, skipping creation.";
        ConsoleLog "Setting up storage policies...";
        ConsoleLog "Creating policy: Allow public uploads";
        ConsoleLog "Creating policy: Allow public reads";
        ConsoleLog "Creating policy: Allow public updates";
        ConsoleLog "Creating policy: Allow public deletes";
        ConsoleLog "Found 3 files to upload";
        ConsoleLog "Uploading: a.png";
        ConsoleLog "Successfully uploaded: a.png";
        ConsoleLog "Uploading: c.JPG";
        ConsoleLog "Successfully uploaded: c.JPG";
        ConsoleLog (newline +++ "Updating public URL helper function...");
        ConsoleLog "Storage setup completed successfully!"]
  /\ exit_code sample_dir (world_of policies_refused) = 0%Z.
Proof.
  split; [intros policy h _; reflexivity|].
  repeat split; vm_compute; reflexivity.
Qed.




(** C8.  When the request for a policy comes back with a result object,
    the loop body ends normally after the request, with nothing on the
    console but the line announcing the policy: an error inside the result
    object is neither reported nor searched for [already exists]. *)
Theorem C8_returned_policy_error_ignored
  (w : World) (policy : Policy) (h : trace) (r : Result string) :
  In policy policies ->
  policy_outcome w policy h = Returned r ->
  exec w (create_policy policy) h
  = ([EvLog (ConsoleLog ("Creating policy: " +++ name policy));
      EvCall (create_storage_policy policy) (Returned r)],
     Completed tt)
  /\ logs_of (fst (exec w (create_policy policy) h))
     = [ConsoleLog ("Creating policy: " +++ name policy)].
Proof.
  intros _ H. rewrite (create_policy_returned w policy h r H). split; reflexivity.
Qed.

Lemma C8_witness :
  In updates_policy policies
  /\ policy_outcome (world_of first_run) updates_policy [] = failed "function not found"
  /\ exec (world_of first_run) (create_policy updates_policy) []
     = ([EvLog (ConsoleLog "Creating policy: Allow public updates");
         EvCall (create_storage_policy updates_policy) (failed "function not found")],
        Completed tt).
Proof.
  assert (H : In updates_policy policies) by (right; right; left; reflexivity).
  split; [exact H|]. split; [reflexivity|].
  exact (proj1 (C8_returned_policy_error_ignored (world_of first_run) updates_policy [] _
                  H eq_refl)).
Defined.

(** C4.  Take a run that gets to the images directory, in which the
    directory lists [files], the image files among them can be read and
    the upload requests for them come back, with an error or without.  Then the upload requests
    of the run are, in order, those for the entries the regular expression
    accepts, and no others; the expression accepts exactly the names that
    end in [.jpg], [.jpeg], [.png] or [.gif], letter case ignored.  For
    [a.png], [b.txt], [c.JPG] there are two requests, for [a.png] and
    [c.JPG]. *)
Theorem C4_images_uploaded (dirname : string) (w : World) (files : list string) :
  reaches_upload w ->
  (forall h, w (ReaddirSync (IMAGES_DIR dirname)) h = Returned files) ->
  uploads_answered dirname w files ->
  upload_targets (trace_of dirname w)
  = map (fun file => "product-images/" +++ file) (filter image_regex_test files)
  /\ (forall file, In ("product-images/" +++ file) (upload_targets (trace_of dirname w))
                   <-> In file files /\ has_image_extension file)
  /\ (files = ["a.png"; "b.txt"; "c.JPG"] ->
      upload_targets (trace_of dirname w)
      = ["product-images/a.png"; "product-images/c.JPG"]).
Proof.
  intros Hreach Hd Hu.
  assert (Htargets : upload_targets (trace_of dirname w)
                     = map (fun file => "product-images/" +++ file)
                           (filter image_regex_test files)).
  { destruct (run_from_upload dirname w Hreach) as [t [Hrun [_ Hpre]]].
    destruct (upload_images_targets w dirname files Hd Hu t) as [t3 [E3 Ht3]].
    rewrite (exec_try_bind_completed w _ _ on_failure t _ tt E3) in Hrun.
    unfold trace_of. rewrite Hrun. unfold extend; cbn [fst snd].
    rewrite !upload_targets_app.
    rewrite (proj1 (before_upload_quiet t Hpre)), Ht3.
    rewrite (helper_no_upload dirname _ (helper_to_end_calls dirname w _)).
    now rewrite app_nil_r. }
  split; [exact Htargets|]. split.
  - intro file. rewrite Htargets, in_map_iff. split.
    + intros [g [Hg Hin]]. apply append_inj_l in Hg. subst g.
      apply filter_In in Hin. destruct Hin as [Hin Hm].
      split; [exact Hin | now apply image_regex_test_spec].
    + intros [Hin Hm]. exists file. split; [reflexivity|].
      apply filter_In. split; [exact Hin | now apply image_regex_test_spec].
  - intros ->. rewrite Htargets. reflexivity.
Qed.

Lemma C4_witness :
  (reaches_upload (world_of first_run)
   /\ (forall h, world_of first_run (ReaddirSync (IMAGES_DIR sample_dir)) h
                 = Returned sample_files)
   /\ uploads_answered sample_dir (world_of first_run) sample_files)
  /\ upload_targets (trace_of sample_dir (world_of first_run))
     = ["product-images/a.png"; "product-images/c.JPG"].
Proof.
  assert (Hreach : reaches_upload (world_of first_run)) by reflexivity.
  assert (Hd : forall h, world_of first_run (ReaddirSync (IMAGES_DIR sample_dir)) h
                         = Returned sample_files) by reflexivity.
  split; [split; [exact Hreach | split; [exact Hd | apply first_run_uploads_answered]]|].
  exact (proj2 (proj2 (C4_images_uploaded sample_dir (world_of first_run) sample_files
                         Hreach Hd (first_run_uploads_answered sample_files))) eq_refl).
Defined.

(** The listing is [a.png], [c.JPG], [d.gif] and the upload of [c.JPG]
    throws: [d.gif] ends in [.gif] and is never asked for. *)
Lemma C4_counterexample :
  (forall h, world_of upload_throws (ReaddirSync (IMAGES_DIR sample_dir)) h
             = Returned ["a.png"; "c.JPG"; "d.gif"])
  /\ reaches_upload (world_of upload_throws)
  /\ upload_targets (trace_of sample_dir (world_of upload_throws))
     = ["product-images/a.png"; "product-images/c.JPG"]
  /\ ~ (forall file,
           In ("product-images/" +++ file)
              (upload_targets (trace_of sample_dir (world_of upload_throws)))
           <-> In file ["a.png"; "c.JPG"; "d.gif"] /\ has_image_extension file).
Proof.
  split; [reflexivity|]. split; [reflexivity|]. split; [reflexivity|].
  intro H.
  assert (Hin : In "product-images/d.gif"
                   (upload_targets (trace_of sample_dir (world_of upload_throws)))).
  { apply (H "d.gif"). split; [right; right; left; reflexivity|].
    exists "d", "gif". split; [reflexivity | right; right; right; left; reflexivity]. }
  change (In "product-images/d.gif" ["product-images/a.png"; "product-images/c.JPG"]) in Hin.
  destruct Hin as [Hin|[Hin|[]]]; discriminate.
Qed.

(** C9.  If the images directory cannot be listed, the process exits with
    code 1, nothing is uploaded and the helper is not written.  If the
    directory lists [before ++ file :: after_], [file] is accepted by the
    regular expression and reading it throws, the process exits with code 1
    too: the helper is not written and the only uploads requested are for
    entries of [before]. *)
Theorem C9_local_read_failures_fatal (dirname : string) (w : World) :
  (throws w (ReaddirSync (IMAGES_DIR dirname)) ->
   exit_code dirname w = 1%Z
   /\ upload_targets (trace_of dirname w) = []
   /\ filter is_write (calls_of (trace_of dirname w)) = [])
  /\ (forall before file after_,
         (forall h, w (ReaddirSync (IMAGES_DIR dirname)) h
                    = Returned (before ++ file :: after_)) ->
         image_regex_test file = true ->
         throws w (ReadFileSync (path.join (IMAGES_DIR dirname) file)) ->
         exit_code dirname w = 1%Z
         /\ Forall (fun target => exists g, In g before /\ target = "product-images/" +++ g)
                   (upload_targets (trace_of dirname w))
         /\ filter is_write (calls_of (trace_of dirname w)) = []).
Proof.
  split.
  - intro Hthrow.
    destruct (abort_in_upload dirname w (fun _ => False)) as [H1 [H2 H3]].
    + intro h. destruct (Hthrow h) as [e He].
      eexists; eexists. split; [exact (upload_images_readdir_threw w dirname h e He)|].
      constructor.
    + split; [exact H1|]. split; [|exact H3].
      destruct (upload_targets (trace_of dirname w)); [reflexivity|].
      inversion H2; contradiction.
  - intros before file after_ Hd Hm Hthrow.
    apply abort_in_upload. intro h.
    rewrite (upload_images_exec w dirname h _ (Hd h)). cbv zeta.
    match goal with |- context [exec w (for_each ?fs ?b) ?h'] =>
      destruct (upload_loop_read_threw w dirname before after_ file Hm Hthrow h')
        as [[e He] HP];
      rewrite (pair_eta (exec w (for_each fs b) h')), He
    end.
    eexists; eexists. split; [reflexivity|].
    unfold extend; cbn [fst snd]. rewrite upload_targets_app. exact HP.
Qed.

Lemma C9_witness :
  (throws (world_of readdir_error) (ReaddirSync (IMAGES_DIR sample_dir))
   /\ exit_code sample_dir (world_of readdir_error) = 1%Z
   /\ upload_targets (trace_of sample_dir (world_of readdir_error)) = [])
  /\ ((forall h, world_of read_error (ReaddirSync (IMAGES_DIR sample_dir)) h
                 = Returned (["a.png"] ++ "c.JPG" :: ["d.gif"]))
      /\ image_regex_test "c.JPG" = true
      /\ throws (world_of read_error)
                (ReadFileSync (path.join (IMAGES_DIR sample_dir) "c.JPG"))
      /\ exit_code sample_dir (world_of read_error) = 1%Z
      /\ filter is_write (calls_of (trace_of sample_dir (world_of read_error))) = []).
Proof.
  assert (H1 : throws (world_of readdir_error) (ReaddirSync (IMAGES_DIR sample_dir))).
  { intro h. eexists. reflexivity. }
  assert (H2 : forall h, world_of read_error (ReaddirSync (IMAGES_DIR sample_dir)) h
                         = Returned (["a.png"] ++ "c.JPG" :: ["d.gif"])) by reflexivity.
  assert (H3 : throws (world_of read_error)
                      (ReadFileSync (path.join (IMAGES_DIR sample_dir) "c.JPG"))).
  { intro h. eexists. reflexivity. }
  split.
  - split; [exact H1|].
    destruct (proj1 (C9_local_read_failures_fatal sample_dir (world_of readdir_error)) H1)
      as [Ha [Hb _]].
    split; [exact Ha | exact Hb].
  - split; [exact H2|]. split; [reflexivity|]. split; [exact H3|].
    destruct (proj2 (C9_local_read_failures_fatal sample_dir (world_of read_error))
                    ["a.png"] "c.JPG" ["d.gif"] H2 eq_refl H3) as [Ha [_ Hc]].
    split; [exact Ha | exact Hc].
Defined.

(** C5.  Take a run that gets to the helper step, in which the file-system
    calls of that step come back.  Whether the utilities directory is
    reported present or not, the run writes the helper file exactly once,
    with the generated text; the directory is created first exactly when it
    is reported missing.  Whatever the file system held before, the helper
    file then holds the generated text.  The text contains the configured
    bucket name; as a function of the bucket name it contains that name, and
    two different names give two different texts. *)
Theorem C5_helper_rewritten (dirname : string) (w : World) (present : bool) :
  reaches_helper dirname w ->
  (forall h, w (ExistsSync (utilsDir dirname)) h = Returned present) ->
  returns w (MkdirSync (utilsDir dirname)) ->
  returns w (WriteFileSync (helperPath dirname) helperCode "utf-8") ->
  filter is_write (calls_of (trace_of dirname w))
  = [WriteFileSync (helperPath dirname) helperCode "utf-8"]
  /\ filter is_mkdir (calls_of (trace_of dirname w))
     = (if present then [] else [MkdirSync (utilsDir dirname)])
  /\ (forall fs,
         file_content (fs_after (trace_of dirname w) fs) (helperPath dirname)
         = Some helperCode
         /\ (present = false ->
             is_directory (fs_after (trace_of dirname w) fs) (utilsDir dirname) = true))
  /\ helperCode = helperCode_for BUCKET_NAME
  /\ includes helperCode BUCKET_NAME = true
  /\ (forall bucket, includes (helperCode_for bucket) bucket = true)
  /\ (forall b1 b2, b1 <> b2 -> helperCode_for b1 <> helperCode_for b2).
Proof.
  intros Hreach He Hm Hw.
  destruct (run_from_helper dirname w Hreach) as [t [Hrun Hpre]].
  destruct (write_helper_exec w dirname t present (He t) Hm Hw) as [t4 [E4 [Hc4 Hfs]]].
  rewrite (exec_try_completed w _ on_failure t t4 tt E4) in Hrun.
  pose proof (before_helper_quiet dirname t Hpre) as Hquiet.
  assert (Htrace : trace_of dirname w = t ++ t4).
  { unfold trace_of. now rewrite Hrun. }
  rewrite Htrace.
  split; [|split; [|split; [|split; [|split; [|split]]]]].
  - rewrite calls_of_app, filter_app, Hc4.
    rewrite (filter_none is_write (calls_of t))
      by (eapply Forall_impl; [|exact Hquiet]; intros c Hc; apply Hc).
    destruct present; reflexivity.
  - rewrite calls_of_app, filter_app, Hc4.
    rewrite (filter_none is_mkdir (calls_of t))
      by (eapply Forall_impl; [|exact Hquiet]; intros c Hc; apply Hc).
    destruct present; reflexivity.
  - intro fs. rewrite fs_after_app, (fs_after_untouched t fs Hquiet). apply Hfs.
  - reflexivity.
  - apply helperCode_for_includes.
  - apply helperCode_for_includes.
  - intros b1 b2 Hne E. apply Hne. now apply helperCode_for_inj.
Qed.

Lemma C5_witness :
  (reaches_helper sample_dir (world_of first_run)
   /\ (forall h, world_of first_run (ExistsSync (utilsDir sample_dir)) h = Returned false)
   /\ returns (world_of first_run) (MkdirSync (utilsDir sample_dir))
   /\ returns (world_of first_run) (WriteFileSync (helperPath sample_dir) helperCode "utf-8"))
  /\ filter is_write (calls_of (trace_of sample_dir (world_of first_run)))
     = [WriteFileSync "/app/src/utils/storageHelper.ts" helperCode "utf-8"]
  /\ filter is_mkdir (calls_of (trace_of sample_dir (world_of first_run)))
     = [MkdirSync "/app/src/utils"].
Proof.
  assert (H1 : reaches_helper sample_dir (world_of first_run)) by reflexivity.
  assert (H2 : forall h, world_of first_run (ExistsSync (utilsDir sample_dir)) h
                         = Returned false) by reflexivity.
  assert (H3 : returns (world_of first_run) (MkdirSync (utilsDir sample_dir))).
  { intro h. eexists. reflexivity. }
  assert (H4 : returns (world_of first_run)
                       (WriteFileSync (helperPath sample_dir) helperCode "utf-8")).
  { intro h. eexists. reflexivity. }
  split; [repeat split; assumption|].
  destruct (C5_helper_rewritten sample_dir (world_of first_run) false H1 H2 H3 H4)
    as [Ha [Hb _]].
  split; [exact Ha | exact Hb].
Defined.

(** C6.  Every upload request of every run names the configured bucket,
    asks for overwriting, targets [product-images/] followed by a file name
    the regular expression accepts, and gives as content type [image/]
    followed by that name's extension ([path.extname]) without its first
    character.  The request carries what was read from the file of that
    name in the images directory.  For a plain name with a non-empty stem
    and an image extension, the content type is [image/] followed by the
    extension as it is spelled in the name. *)
Theorem C6_upload_request (dirname : string) (w : World) :
  (forall bucket target body options,
      In (Upload bucket target body options) (calls_of (trace_of dirname w)) ->
      bucket = BUCKET_NAME
      /\ upsert options = true
      /\ exists file,
          image_regex_test file = true
          /\ target = "product-images/" +++ file
          /\ contentType options = "image/" +++ substring_from 1 (path.extname file))
  /\ (forall h file buf,
         image_regex_test file = true ->
         w (ReadFileSync (path.join (IMAGES_DIR dirname) file)) h = Returned buf ->
         calls_of (fst (exec w (upload_file dirname file) h))
         = [ReadFileSync (path.join (IMAGES_DIR dirname) file);
            Upload BUCKET_NAME ("product-images/" +++ file) buf
                   {| contentType := "image/" +++ substring_from 1 (path.extname file);
                      upsert := true |}])
  /\ (forall stem ext,
         stem <> EmptyString -> lacks "/" stem ->
         In (toLowerCase ext) ["jpg"; "jpeg"; "png"; "gif"] ->
         contentType (file_options (stem +++ "." +++ ext)) = "image/" +++ ext).
Proof.
  split; [|split].
  - intros bucket target body options Hin.
    pose proof (run_calls dirname w) as H. rewrite Forall_forall in H.
    destruct (H _ Hin) as [Hc|[Hc|[Hc|Hc]]]; inversion Hc; subst.
    split; [reflexivity|]. split; [reflexivity|].
    exists file. repeat split. assumption.
  - intros h file buf Hm Hr.
    destruct (w (Upload BUCKET_NAME ("product-images/" +++ file) buf (file_options file))
                (h ++ [EvCall (ReadFileSync (path.join (IMAGES_DIR dirname) file))
                              (Returned buf);
                       EvLog (ConsoleLog ("Uploading: " +++ file))])) as [r|e] eqn:Hu.
    + now rewrite (upload_file_exec w dirname file h buf r Hm Hr Hu).
    + now rewrite (upload_file_throws_upload w dirname file h buf e Hm Hr Hu).
  - intros stem ext Hstem Hslash Hext.
    destruct (image_extension_plain ext Hext) as [Hne [Hs Hd]].
    unfold file_options; cbn [contentType].
    now rewrite (extname_of_name stem ext Hstem Hne Hslash Hs Hd).
Qed.

Lemma C6_witness :
  In (Upload BUCKET_NAME "product-images/c.JPG" []
             {| contentType := "image/JPG"; upsert := true |})
     (calls_of (trace_of sample_dir (world_of rerun)))
  /\ (exists file,
         image_regex_test file = true
         /\ "product-images/c.JPG" = "product-images/" +++ file
         /\ "image/JPG" = "image/" +++ substring_from 1 (path.extname file)).
Proof.
  assert (Hin : In (Upload BUCKET_NAME "product-images/c.JPG" []
                           {| contentType := "image/JPG"; upsert := true |})
                   (calls_of (trace_of sample_dir (world_of rerun)))).
  { do 10 right. left. reflexivity. }
  split; [exact Hin|].
  exact (proj2 (proj2 (proj1 (C6_upload_request sample_dir (world_of rerun)) _ _ _ _ Hin))).
Defined.

(* ================================================================== *)
(** ** Further properties of the script *)
(* ================================================================== *)

(* ------------------------------------------------------------------ *)
(** *** Every run is one of five *)

Lemma run_cases (dirname : string) (w : World) : run_case dirname w.
Proof.
  destruct (exec w ensure_bucket []) as [t1 [[]|e|code]] eqn:E1.
  2:{ eapply stops_at_bucket; [exact E1|].
      unfold run, setupStorage, steps.
      rewrite (exec_try_bind_uncaught w _ _ on_failure [] t1 e E1), exec_on_failure.
      reflexivity. }
  2:{ exfalso. apply (no_exit_exec w _ ensure_bucket_no_exit [] code). now rewrite E1. }
  assert (R1 : run dirname w
               = extend t1 (exec w (try_catch (setup_policies ;; upload_images dirname ;;
                                               write_helper dirname) on_failure) t1)).
  { unfold run, setupStorage, steps.
    now rewrite (exec_try_bind_completed w _ _ on_failure [] t1 tt E1). }
  destruct (exec w setup_policies t1) as [t2 [[]|e|code]] eqn:E2.
  2:{ eapply stops_at_policies; [exact E1 | exact E2|].
      rewrite R1, (exec_try_bind_uncaught w _ _ on_failure t1 t2 e E2), exec_on_failure.
      reflexivity. }
  2:{ exfalso. apply (no_exit_exec w _ setup_policies_no_exit t1 code). now rewrite E2. }
  rewrite (exec_try_bind_completed w _ _ on_failure t1 t2 tt E2), extend_extend in R1.
  destruct (exec w (upload_images dirname) (t1 ++ t2)) as [t3 [[]|e|code]] eqn:E3.
  2:{ eapply stops_at_upload; [exact E1 | exact E2 | exact E3|].
      rewrite R1, (exec_try_bind_uncaught w _ _ on_failure (t1 ++ t2) t3 e E3),
        exec_on_failure.
      unfold extend; cbn [fst snd]. now rewrite <- app_assoc. }
  2:{ exfalso. apply (no_exit_exec w _ (upload_images_no_exit dirname) (t1 ++ t2) code).
      now rewrite E3. }
  rewrite (exec_try_bind_completed w _ _ on_failure (t1 ++ t2) t3 tt E3), extend_extend
    in R1.
  destruct (exec w (write_helper dirname) ((t1 ++ t2) ++ t3)) as [t4 [[]|e|code]] eqn:E4.
  - eapply runs_through; [exact E1 | exact E2 | exact E3 | exact E4|].
    rewrite R1, (exec_try_completed w _ on_failure _ t4 tt E4).
    unfold extend; cbn [fst snd]. now rewrite <- !app_assoc.
  - eapply stops_at_helper; [exact E1 | exact E2 | exact E3 | exact E4|].
    rewrite R1, (exec_try_uncaught w _ on_failure _ t4 e E4), exec_on_failure.
    unfold extend; cbn [fst snd]. now rewrite <- !app_assoc.
  - exfalso.
    apply (no_exit_exec w _ (write_helper_no_exit dirname) ((t1 ++ t2) ++ t3) code).
    now rewrite E4.
Qed.

(** The calls of each step, read off its events. *)
Lemma bucket_step_calls (w : World) (h t : trace) (f : final unit) :
  exec w ensure_bucket h = (t, f) -> Forall bucket_call (calls_of t).
Proof.
  intro E. pose proof (calls_sat_exec _ w _ ensure_bucket_calls h) as H.
  now rewrite E in H.
Qed.

Lemma policy_step_calls (w : World) (h t : trace) (f : final unit) :
  exec w setup_policies h = (t, f) -> Forall policy_call (calls_of t).
Proof.
  intro E. pose proof (calls_sat_exec _ w _ setup_policies_calls h) as H.
  now rewrite E in H.
Qed.

Lemma upload_step_calls (w : World) (dirname : string) (h t : trace) (f : final unit) :
  exec w (upload_images dirname) h = (t, f) -> Forall (upload_call dirname) (calls_of t).
Proof.
  intro E. pose proof (calls_sat_exec _ w _ (upload_images_calls dirname) h) as H.
  now rewrite E in H.
Qed.

Lemma helper_step_calls (w : World) (dirname : string) (h t : trace) (f : final unit) :
  exec w (write_helper dirname) h = (t, f) -> Forall (helper_call dirname) (calls_of t).
Proof.
  intro E. pose proof (calls_sat_exec _ w _ (write_helper_calls dirname) h) as H.
  now rewrite E in H.
Qed.

Lemma calls_of_failure_line (t : trace) (e : js_value) :
  calls_of (t ++ [failure_line e]) = calls_of t.
Proof. rewrite calls_of_app. cbn. apply app_nil_r. Qed.

(** The bucket step lists the buckets and then, at most, asks once for the
    bucket to be created. *)
Lemma ensure_bucket_call_list (w : World) (h t : trace) (f : final unit) :
  exec w ensure_bucket h = (t, f) ->
  calls_of t = [ListBuckets]
  \/ calls_of t = [ListBuckets; CreateBucket BUCKET_NAME bucket_options].
Proof.
  intro E.
  assert (Ht : t = fst (exec w ensure_bucket h)) by now rewrite E.
  subst t. clear E.
  destruct (w ListBuckets h) as [r|e] eqn:Hl.
  - destruct (error r) as [e|] eqn:He.
    + rewrite (ensure_bucket_list_error w h r e Hl He). now left.
    + destruct (bucket_exists r) eqn:Hb.
      * rewrite (ensure_bucket_present w h r Hl He Hb). now left.
      * rewrite (ensure_bucket_absent w h r Hl He Hb). cbv zeta.
        unfold extend; cbn [fst]. right.
        rewrite !calls_of_app. cbn [calls_of app].
        destruct (w (CreateBucket BUCKET_NAME bucket_options) _) as [[d [e|]]|e];
          reflexivity.
  - rewrite (ensure_bucket_list_threw w h e Hl). now left.
Qed.

(** X1.  The requests of every run fall into consecutive groups, in the
    order of the steps: the bucket listing, always first and made once; at
    most one request to create the bucket; row-level security and the
    policies; reading and uploading the images; writing the helper.  No
    request of a later step comes before a request of an earlier one. *)
Theorem X1_steps_in_order (dirname : string) (w : World) :
  exists l1 l2 l3 l4,
    calls_of (trace_of dirname w) = (ListBuckets :: l1) ++ l2 ++ l3 ++ l4
    /\ (l1 = [] \/ l1 = [CreateBucket BUCKET_NAME bucket_options])
    /\ Forall policy_call l2
    /\ Forall (upload_call dirname) l3
    /\ Forall (helper_call dirname) l4.
Proof.
  unfold trace_of.
  assert (Hfirst : forall t1 f, exec w ensure_bucket [] = (t1, f) ->
                     exists l1, calls_of t1 = ListBuckets :: l1
                                /\ (l1 = [] \/ l1 = [CreateBucket BUCKET_NAME bucket_options])).
  { intros t1 f E. destruct (ensure_bucket_call_list w [] t1 f E) as [H|H];
      rewrite H; eexists; (split; [reflexivity|]); [now left | now right]. }
  destruct (run_cases dirname w) as
      [t1 e E1 R | t1 t2 e E1 E2 R | t1 t2 t3 e E1 E2 E3 R
       | t1 t2 t3 t4 e E1 E2 E3 E4 R | t1 t2 t3 t4 E1 E2 E3 E4 R];
    rewrite R; cbn [fst];
    destruct (Hfirst t1 _ E1) as [l1 [Hl1 H1]].
  - exists l1, [], [], []. rewrite calls_of_failure_line, Hl1.
    split; [now rewrite !app_nil_r|].
    split; [assumption|]. repeat split; constructor.
  - exists l1, (calls_of t2), [], [].
    rewrite app_assoc, calls_of_failure_line, calls_of_app, Hl1.
    split; [now rewrite !app_nil_r|].
    split; [assumption|]. split; [exact (policy_step_calls w _ _ _ E2)|].
    split; constructor.
  - exists l1, (calls_of t2), (calls_of t3), [].
    rewrite !app_assoc, calls_of_failure_line, !calls_of_app, Hl1.
    split; [now rewrite !app_nil_r, <- !app_assoc|].
    split; [assumption|]. split; [exact (policy_step_calls w _ _ _ E2)|].
    split; [exact (upload_step_calls w _ _ _ _ E3) | constructor].
  - exists l1, (calls_of t2), (calls_of t3), (calls_of t4).
    rewrite !app_assoc, calls_of_failure_line, !calls_of_app, Hl1.
    split; [now rewrite <- !app_assoc|].
    split; [assumption|]. split; [exact (policy_step_calls w _ _ _ E2)|].
    split; [exact (upload_step_calls w _ _ _ _ E3)
           | exact (helper_step_calls w _ _ _ _ E4)].
  - exists l1, (calls_of t2), (calls_of t3), (calls_of t4).
    rewrite !calls_of_app, Hl1.
    split; [reflexivity|].
    split; [assumption|]. split; [exact (policy_step_calls w _ _ _ E2)|].
    split; [exact (upload_step_calls w _ _ _ _ E3)
           | exact (helper_step_calls w _ _ _ _ E4)].
Qed.

(* ------------------------------------------------------------------ *)
(** *** The policy step, for every world *)

(** The loop over the policies asks for them in order and stops at the
    first request that throws a value on which the test of the [catch]
    clause raises an exception. *)
Lemma policy_loop_prefix (w : World) (ps : list Policy) :
  forall h,
    (exists k, calls_of (fst (exec w (for_each ps create_policy) h))
               = firstn k (map create_storage_policy ps))
    /\ (snd (exec w (for_each ps create_policy) h) = Completed tt ->
        calls_of (fst (exec w (for_each ps create_policy) h))
        = map create_storage_policy ps).
Proof.
  induction ps as [|p ps IH]; intro h.
  - split; [exists 0; reflexivity | reflexivity].
  - cbn [for_each map].
    destruct (policy_outcome w p h) as [r|[msg|b|e]] eqn:Ho.
    + rewrite (exec_bind_completed w _ _ h _ tt (create_policy_returned w p h r Ho)).
      match goal with |- context [exec w (for_each ps create_policy) ?h'] =>
        destruct (IH h') as [[k Hk] Hc] end.
      unfold extend; cbn [fst snd]. rewrite calls_of_app. cbn [calls_of app]. split.
      * exists (S k). cbn [firstn]. now rewrite Hk.
      * intro H. now rewrite (Hc H).
    + rewrite (exec_bind_completed w _ _ h _ tt (create_policy_threw w p h msg Ho)).
      match goal with |- context [exec w (for_each ps create_policy) ?h'] =>
        destruct (IH h') as [[k Hk] Hc] end.
      unfold extend; cbn [fst snd]. rewrite calls_of_app. cbn [calls_of app]. split.
      * exists (S k). cbn [firstn]. now rewrite Hk.
      * intro H. now rewrite (Hc H).
    + rewrite (exec_bind_completed w _ _ h _ tt (create_policy_threw_answers w p h b Ho)).
      match goal with |- context [exec w (for_each ps create_policy) ?h'] =>
        destruct (IH h') as [[k Hk] Hc] end.
      unfold extend; cbn [fst snd]. rewrite calls_of_app. cbn [calls_of app]. split.
      * exists (S k). cbn [firstn]. now rewrite Hk.
      * intro H. now rewrite (Hc H).
    + rewrite (exec_bind_uncaught w _ _ h _ _ (create_policy_threw_raises w p h e Ho)).
      cbn [fst snd calls_of]. split; [exists 1; reflexivity | discriminate].
Qed.

Lemma filter_policy_firstn (ps : list Policy) (k : nat) :
  filter is_create_policy (firstn k (map create_storage_policy ps))
  = firstn k (map create_storage_policy ps).
Proof.
  revert k. induction ps as [|p ps IH]; intros [|k]; try reflexivity.
  cbn [map firstn filter].
  change (is_create_policy (create_storage_policy p)) with true. cbv iota.
  f_equal. apply IH.
Qed.

Lemma setup_policies_prefix (w : World) (h : trace) :
  (exists k, filter is_create_policy (calls_of (fst (exec w setup_policies h)))
             = firstn k (map create_storage_policy policies))
  /\ (snd (exec w setup_policies h) = Completed tt ->
      calls_of (fst (exec w setup_policies h))
      = enable_rls :: map create_storage_policy policies).
Proof.
  destruct (w enable_rls (h ++ [EvLog (ConsoleLog "Setting up storage policies...")]))
    as [r|e] eqn:He.
  - rewrite (setup_policies_exec w h r He). cbv zeta.
    match goal with |- context [exec w (for_each policies create_policy) ?h'] =>
      destruct (policy_loop_prefix w policies h') as [[k Hk] Hc] end.
    unfold extend; cbn [fst snd]. rewrite calls_of_app. cbn [calls_of app filter].
    change (is_create_policy enable_rls) with false. cbv iota. split.
    + exists k. rewrite Hk. apply filter_policy_firstn.
    + intro H. now rewrite (Hc H).
  - rewrite (setup_policies_enable_threw w h e He). cbn [fst snd calls_of filter].
    change (is_create_policy enable_rls) with false. cbv iota.
    split; [exists 0; reflexivity | discriminate].
Qed.

Lemma no_policy_request_outside (dirname : string) (l : list call) :
  Forall (fun c => bucket_call c \/ upload_call dirname c \/ helper_call dirname c) l ->
  filter is_create_policy l = [] /\ filter is_rpc l = [].
Proof.
  intro H. split; apply filter_none; (eapply Forall_impl; [|exact H]);
    intros c [Hc|[Hc|Hc]];
    first [ apply (bucket_call_kind c Hc)
          | apply (upload_call_kind dirname c Hc)
          | apply (helper_call_kind dirname c Hc) ].
Qed.

Lemma Forall_or_l {X} (P Q : X -> Prop) (l : list X) :
  Forall P l -> Forall (fun x => P x \/ Q x) l.
Proof. intro H. eapply Forall_impl; [|exact H]. now left. Qed.

Lemma Forall_or_r {X} (P Q : X -> Prop) (l : list X) :
  Forall Q l -> Forall (fun x => P x \/ Q x) l.
Proof. intro H. eapply Forall_impl; [|exact H]. now right. Qed.

Lemma early_call_not_late (dirname : string) (c : call) :
  bucket_call c \/ policy_call c ->
  upload_call dirname c \/ helper_call dirname c -> False.
Proof.
  intros [H|H] [H'|H']; destruct H; inversion H'.
Qed.

(** X2.  In every run the policy requests are the first [k] of the four
    fixed ones, in their order, each made once.  A run that makes any
    request of the upload step or of the helper step has made all four. *)
Theorem X2_policies_in_order (dirname : string) (w : World) :
  (exists k, filter is_create_policy (calls_of (trace_of dirname w))
             = firstn k (map create_storage_policy policies))
  /\ (forall c, In c (calls_of (trace_of dirname w)) ->
                upload_call dirname c \/ helper_call dirname c ->
                filter is_create_policy (calls_of (trace_of dirname w))
                = map create_storage_policy policies).
Proof.
  unfold trace_of.
  destruct (run_cases dirname w) as
      [t1 e E1 R | t1 t2 e E1 E2 R | t1 t2 t3 e E1 E2 E3 R
       | t1 t2 t3 t4 e E1 E2 E3 E4 R | t1 t2 t3 t4 E1 E2 E3 E4 R];
    rewrite R; cbn [fst];
    pose proof (bucket_step_calls w _ _ _ E1) as H1;
    assert (F1 : filter is_create_policy (calls_of t1) = [])
      by (apply (no_policy_request_outside dirname), Forall_or_l, H1).
  - rewrite calls_of_failure_line, F1. split; [exists 0; reflexivity|].
    intros c Hin Hlate. exfalso. rewrite Forall_forall in H1.
    apply (early_call_not_late dirname c); [left; now apply H1 | exact Hlate].
  - pose proof (policy_step_calls w _ _ _ E2) as H2.
    pose proof (setup_policies_prefix w t1) as [[k Hk] _]. rewrite E2 in Hk.
    cbn [fst] in Hk.
    rewrite app_assoc, calls_of_failure_line, calls_of_app, filter_app, F1, Hk.
    split; [now exists k|].
    intros c Hin Hlate. exfalso. rewrite Forall_forall in H1, H2.
    apply in_app_iff in Hin.
    apply (early_call_not_late dirname c); [|exact Hlate].
    destruct Hin as [Hin|Hin]; [left; now apply H1 | right; now apply H2].
  - pose proof (proj2 (setup_policies_prefix w t1)) as Hc. rewrite E2 in Hc.
    cbn [fst snd] in Hc. specialize (Hc eq_refl).
    rewrite !app_assoc, calls_of_failure_line, !calls_of_app, !filter_app, F1, Hc.
    cbn [filter]. change (is_create_policy enable_rls) with false. cbv iota.
    rewrite (proj1 (filter_policy_requests policies)).
    rewrite (proj1 (no_policy_request_outside dirname _
               (Forall_or_r _ _ _ (Forall_or_l _ _ _ (upload_step_calls w _ _ _ _ E3))))).
    rewrite app_nil_r. cbn [app].
    split; [|reflexivity].
    exists (length (map create_storage_policy policies)). now rewrite firstn_all.
  - pose proof (proj2 (setup_policies_prefix w t1)) as Hc. rewrite E2 in Hc.
    cbn [fst snd] in Hc. specialize (Hc eq_refl).
    rewrite !app_assoc, calls_of_failure_line, !calls_of_app, !filter_app, F1, Hc.
    cbn [filter]. change (is_create_policy enable_rls) with false. cbv iota.
    rewrite (proj1 (filter_policy_requests policies)).
    rewrite (proj1 (no_policy_request_outside dirname _
               (Forall_or_r _ _ _ (Forall_or_l _ _ _ (upload_step_calls w _ _ _ _ E3))))).
    rewrite (proj1 (no_policy_request_outside dirname _
               (Forall_or_r _ _ _ (Forall_or_r _ _ _ (helper_step_calls w _ _ _ _ E4))))).
    rewrite !app_nil_r. cbn [app].
    split; [|reflexivity].
    exists (length (map create_storage_policy policies)). now rewrite firstn_all.
  - pose proof (proj2 (setup_policies_prefix w t1)) as Hc. rewrite E2 in Hc.
    cbn [fst snd] in Hc. specialize (Hc eq_refl).
    rewrite !calls_of_app, !filter_app, F1, Hc.
    cbn [filter]. change (is_create_policy enable_rls) with false. cbv iota.
    rewrite (proj1 (filter_policy_requests policies)).
    rewrite (proj1 (no_policy_request_outside dirname _
               (Forall_or_r _ _ _ (Forall_or_l _ _ _ (upload_step_calls w _ _ _ _ E3))))).
    rewrite (proj1 (no_policy_request_outside dirname _
               (Forall_or_r _ _ _ (Forall_or_r _ _ _ (helper_step_calls w _ _ _ _ E4))))).
    rewrite !app_nil_r. cbn [app].
    split; [|reflexivity].
    exists (length (map create_storage_policy policies)). now rewrite firstn_all.
Qed.

Lemma X2_witness :
  In (ReaddirSync (IMAGES_DIR sample_dir))
     (calls_of (trace_of sample_dir (world_of first_run)))
  /\ filter is_create_policy (calls_of (trace_of sample_dir (world_of first_run)))
     = map create_storage_policy policies.
Proof.
  assert (Hin : In (ReaddirSync (IMAGES_DIR sample_dir))
                   (calls_of (trace_of sample_dir (world_of first_run)))).
  { do 7 right. left. reflexivity. }
  split; [exact Hin|].
  exact (proj2 (X2_policies_in_order sample_dir (world_of first_run)) _ Hin
               (or_introl (uc_readdir sample_dir))).
Defined.

(* ------------------------------------------------------------------ *)
(** *** The upload step, for every world *)

Lemma read_paths_app (t1 t2 : trace) :
  read_paths (t1 ++ t2) = read_paths t1 ++ read_paths t2.
Proof. unfold read_paths. now rewrite calls_of_app, flat_map_app. Qed.

(** The other three steps neither read nor upload a file. *)
Lemma other_steps_quiet (dirname : string) (t : trace) :
  Forall (fun c => bucket_call c \/ policy_call c \/ helper_call dirname c) (calls_of t) ->
  upload_targets t = [] /\ read_paths t = [].
Proof.
  unfold upload_targets, read_paths. induction 1 as [|c l Hc _ [IH1 IH2]]; [now split|].
  cbn [flat_map]. rewrite IH1, IH2.
  destruct Hc as [Hc|[Hc|Hc]]; destruct Hc; split; reflexivity.
Qed.

(** The loop over the listing works through the accepted entries in order:
    what it read and what it asked to upload are initial parts of that
    list, and it is at most one read ahead of the uploads. *)
Lemma upload_loop_prefix (w : World) (dirname : string) (files : list string) :
  forall h,
    let t := fst (exec w (for_each files (upload_file dirname)) h) in
    (exists k, upload_targets t = firstn k (map target_of (accepted files)))
    /\ (exists k, read_paths t = firstn k (map (local_path dirname) (accepted files)))
    /\ length (upload_targets t) <= length (read_paths t) <= S (length (upload_targets t))
    /\ (snd (exec w (for_each files (upload_file dirname)) h) = Completed tt ->
        upload_targets t = map target_of (accepted files)
        /\ read_paths t = map (local_path dirname) (accepted files)).
Proof.
  induction files as [|file files IH]; intro h; cbv zeta.
  - split; [exists 0; reflexivity|]. split; [exists 0; reflexivity|].
    split; [cbn; lia | now split].
  - cbn [for_each]. unfold accepted. cbn [filter]. fold (accepted files).
    destruct (image_regex_test file) eqn:Hm.
    + destruct (w (ReadFileSync (path.join (IMAGES_DIR dirname) file)) h) as [buf|e] eqn:Hr.
      * destruct (w (Upload BUCKET_NAME ("product-images/" +++ file) buf (file_options file))
                    (h ++ [EvCall (ReadFileSync (path.join (IMAGES_DIR dirname) file))
                                  (Returned buf);
                           EvLog (ConsoleLog ("Uploading: " +++ file))])) as [r|e] eqn:Hu.
        -- rewrite (exec_bind_completed w _ _ h _ tt
                      (upload_file_exec w dirname file h buf r Hm Hr Hu)).
           match goal with |- context [exec w (for_each files ?b) ?h'] =>
             destruct (IH h') as [[k Hk] [[k' Hk'] [Hlen Hc]]] end.
           unfold extend; cbn [fst snd]. rewrite upload_targets_app, read_paths_app.
           change (upload_targets [_; _; _; _]) with [target_of file].
           change (read_paths [_; _; _; _]) with [local_path dirname file].
           cbn [app map length]. split; [exists (S k); cbn [firstn]; now rewrite Hk|].
           split; [exists (S k'); cbn [firstn]; now rewrite Hk'|].
           split; [lia|]. intro H. destruct (Hc H) as [-> ->]. now split.
        -- rewrite (exec_bind_uncaught w _ _ h _ _
                      (upload_file_throws_upload w dirname file h buf e Hm Hr Hu)).
           cbn [fst snd].
           change (upload_targets [_; _; _]) with [target_of file].
           change (read_paths [_; _; _]) with [local_path dirname file].
           cbn [map length]. split; [exists 1; reflexivity|].
           split; [exists 1; reflexivity|]. split; [lia | discriminate].
      * rewrite (exec_bind_uncaught w _ _ h _ _
                   (upload_file_read_threw w dirname file h e Hm Hr)).
        cbn [fst snd].
        change (upload_targets [_]) with (@nil string).
        change (read_paths [_]) with [local_path dirname file].
        cbn [map length]. split; [exists 0; reflexivity|].
        split; [exists 1; reflexivity|]. split; [lia | discriminate].
    + rewrite (exec_bind_completed w _ _ h _ tt (upload_file_skipped w dirname file h Hm)).
      rewrite extend_nil. apply IH.
Qed.

(** The same for the whole step, given what the directory listing
    returns. *)
Lemma upload_images_prefix (w : World) (dirname : string) (h : trace) (files : list string) :
  w (ReaddirSync (IMAGES_DIR dirname)) h = Returned files ->
  let t := fst (exec w (upload_images dirname) h) in
  (exists k, upload_targets t = firstn k (map target_of (accepted files)))
  /\ (exists k, read_paths t = firstn k (map (local_path dirname) (accepted files)))
  /\ length (upload_targets t) <= length (read_paths t) <= S (length (upload_targets t))
  /\ (snd (exec w (upload_images dirname) h) = Completed tt ->
      upload_targets t = map target_of (accepted files)
      /\ read_paths t = map (local_path dirname) (accepted files)).
Proof.
  intro Hd. cbv zeta. rewrite (upload_images_exec w dirname h files Hd). cbv zeta.
  unfold extend; cbn [fst snd]. rewrite upload_targets_app, read_paths_app.
  change (upload_targets [_; _]) with (@nil string).
  change (read_paths [_; _]) with (@nil string). cbn [app].
  apply upload_loop_prefix.
Qed.

(** What a run reads and uploads, against the directory listing. *)
Lemma uploads_in_listing_order (dirname : string) (w : World) (files : list string) :
  (forall h, w (ReaddirSync (IMAGES_DIR dirname)) h = Returned files) ->
  (exists k, upload_targets (trace_of dirname w) = firstn k (map target_of (accepted files)))
  /\ (exists k, read_paths (trace_of dirname w)
                = firstn k (map (local_path dirname) (accepted files)))
  /\ length (upload_targets (trace_of dirname w))
     <= length (read_paths (trace_of dirname w))
     <= S (length (upload_targets (trace_of dirname w))).
Proof.
  intro Hd. unfold trace_of.
  assert (Hq1 : forall t f, exec w ensure_bucket [] = (t, f) ->
                            upload_targets t = [] /\ read_paths t = []).
  { intros t f E. apply (other_steps_quiet dirname), Forall_or_l.
    exact (bucket_step_calls w _ _ _ E). }
  assert (Hq2 : forall h t f, exec w setup_policies h = (t, f) ->
                              upload_targets t = [] /\ read_paths t = []).
  { intros h t f E. apply (other_steps_quiet dirname), Forall_or_r, Forall_or_l.
    exact (policy_step_calls w _ _ _ E). }
  assert (Hq4 : forall h t f, exec w (write_helper dirname) h = (t, f) ->
                              upload_targets t = [] /\ read_paths t = []).
  { intros h t f E. apply (other_steps_quiet dirname), Forall_or_r, Forall_or_r.
    exact (helper_step_calls w _ _ _ _ E). }
  assert (Hq3 : forall h t f, exec w (upload_images dirname) h = (t, f) ->
            (exists k, upload_targets t = firstn k (map target_of (accepted files)))
            /\ (exists k, read_paths t = firstn k (map (local_path dirname) (accepted files)))
            /\ length (upload_targets t) <= length (read_paths t)
               <= S (length (upload_targets t))).
  { intros h t f E. pose proof (upload_images_prefix w dirname h files (Hd h)) as H.
    cbv zeta in H. rewrite E in H. cbn [fst] in H.
    destruct H as [Ha [Hb [Hc _]]]. auto. }
  assert (Hfl : forall e, upload_targets [failure_line e] = [] /\ read_paths [failure_line e] = [])
    by (intro; split; reflexivity).
  destruct (run_cases dirname w) as
      [t1 e E1 R | t1 t2 e E1 E2 R | t1 t2 t3 e E1 E2 E3 R
       | t1 t2 t3 t4 e E1 E2 E3 E4 R | t1 t2 t3 t4 E1 E2 E3 E4 R];
    rewrite R; cbn [fst];
    rewrite ?upload_targets_app, ?read_paths_app;
    rewrite ?(proj1 (Hq1 _ _ E1)), ?(proj2 (Hq1 _ _ E1));
    rewrite ?(proj1 (Hfl e)), ?(proj2 (Hfl e)); cbn [app].
  - split; [exists 0; reflexivity|]. split; [exists 0; reflexivity | cbn; lia].
  - rewrite (proj1 (Hq2 _ _ _ E2)), (proj2 (Hq2 _ _ _ E2)). cbn [app].
    split; [exists 0; reflexivity|]. split; [exists 0; reflexivity | cbn; lia].
  - rewrite (proj1 (Hq2 _ _ _ E2)), (proj2 (Hq2 _ _ _ E2)), !app_nil_r. cbn [app].
    exact (Hq3 _ _ _ E3).
  - rewrite (proj1 (Hq2 _ _ _ E2)), (proj2 (Hq2 _ _ _ E2)).
    rewrite (proj1 (Hq4 _ _ _ E4)), (proj2 (Hq4 _ _ _ E4)), !app_nil_r. cbn [app].
    exact (Hq3 _ _ _ E3).
  - rewrite (proj1 (Hq2 _ _ _ E2)), (proj2 (Hq2 _ _ _ E2)).
    rewrite (proj1 (Hq4 _ _ _ E4)), (proj2 (Hq4 _ _ _ E4)), !app_nil_r. cbn [app].
    exact (Hq3 _ _ _ E3).
Qed.

(** X3.  When the images directory lists [files], every run works through
    the accepted entries in listing order: the local files it reads and the
    objects it asks to upload are initial parts of that list, nothing else is
    read or uploaded, and there is at most one read that no upload request
    follows. *)
Theorem X3_uploads_in_listing_order (dirname : string) (w : World) (files : list string) :
  (forall h, w (ReaddirSync (IMAGES_DIR dirname)) h = Returned files) ->
  (exists k, upload_targets (trace_of dirname w) = firstn k (map target_of (accepted files)))
  /\ (exists k, read_paths (trace_of dirname w)
                = firstn k (map (local_path dirname) (accepted files)))
  /\ length (upload_targets (trace_of dirname w))
     <= length (read_paths (trace_of dirname w))
     <= S (length (upload_targets (trace_of dirname w))).
Proof. exact (uploads_in_listing_order dirname w files). Qed.

Lemma X3_witness :
  (forall h, world_of upload_throws (ReaddirSync (IMAGES_DIR sample_dir)) h
             = Returned ["a.png"; "c.JPG"; "d.gif"])
  /\ (exists k, upload_targets (trace_of sample_dir (world_of upload_throws))
                = firstn k (map target_of (accepted ["a.png"; "c.JPG"; "d.gif"])))
  /\ upload_targets (trace_of sample_dir (world_of upload_throws))
     = ["product-images/a.png"; "product-images/c.JPG"].
Proof.
  assert (H : forall h, world_of upload_throws (ReaddirSync (IMAGES_DIR sample_dir)) h
                        = Returned ["a.png"; "c.JPG"; "d.gif"]) by reflexivity.
  split; [exact H|]. split; [|reflexivity].
  exact (proj1 (X3_uploads_in_listing_order sample_dir (world_of upload_throws) _ H)).
Defined.

(* ------------------------------------------------------------------ *)
(** *** The helper step, for every world *)

(** The helper step ends normally only after the write has gone through;
    it then ends with the success line. *)
Lemma write_helper_outcomes (w : World) (dirname : string) (h : trace) :
  let r := exec w (write_helper dirname) h in
  (snd r = Completed tt
   /\ filter is_write (calls_of (fst r))
      = [WriteFileSync (helperPath dirname) helperCode "utf-8"]
   /\ (exists ls, logs_of (fst r) = ls ++ [success_line])
   /\ forall fs, file_content (fs_after (fst r) fs) (helperPath dirname) = Some helperCode)
  \/ (exists e, snd r = Uncaught e).
Proof.
  cbv zeta. unfold write_helper. run_step.
  destruct (w (ExistsSync (utilsDir dirname)) h) as [[|]|e]; run_step.
  - match goal with |- context [w (WriteFileSync ?a ?b ?c) ?h'] =>
      destruct (w (WriteFileSync a b c) h') as [[]|e'] end; run_step.
    + left. split; [reflexivity|]. split; [reflexivity|].
      split; [now exists [ConsoleLog (newline +++ "Updating public URL helper function...")]|].
      intro fs. unfold fs_after, file_content; cbn [fold_left fs_event state_of].
      now rewrite String.eqb_refl.
    + right. now exists e'.
  - match goal with |- context [w (MkdirSync ?a) ?h'] =>
      destruct (w (MkdirSync a) h') as [[]|e'] end; run_step.
    + match goal with |- context [w (WriteFileSync ?a ?b ?c) ?h'] =>
        destruct (w (WriteFileSync a b c) h') as [[]|e'] end; run_step.
      * left. split; [reflexivity|]. split; [reflexivity|].
        split; [now exists [ConsoleLog (newline +++ "Updating public URL helper function...")]|].
        intro fs. unfold fs_after, file_content; cbn [fold_left fs_event state_of].
        now rewrite String.eqb_refl.
      * right. now exists e'.
    + right. now exists e'.
  - right. now exists e.
Qed.

Lemma write_helper_completed (w : World) (dirname : string) (h t : trace) :
  exec w (write_helper dirname) h = (t, Completed tt) ->
  filter is_write (calls_of t) = [WriteFileSync (helperPath dirname) helperCode "utf-8"]
  /\ (exists ls, logs_of t = ls ++ [success_line])
  /\ forall fs, file_content (fs_after t fs) (helperPath dirname) = Some helperCode.
Proof.
  intro E. pose proof (write_helper_outcomes w dirname h) as H. cbv zeta in H.
  rewrite E in H. cbn [fst snd] in H.
  destruct H as [[_ H]|[e H]]; [exact H | discriminate].
Qed.

Lemma exit_code_of_run (dirname : string) (w : World) (t : trace) (f : final unit) :
  run dirname w = (t, f) -> exit_code dirname w = process_exit_code f.
Proof. intro R. unfold exit_code, final_of. now rewrite R. Qed.

Lemma no_write_before_helper (dirname : string) (l : list call) :
  Forall (fun c => bucket_call c \/ policy_call c \/ upload_call dirname c) l ->
  filter is_write l = [].
Proof.
  intro H. apply filter_none. eapply Forall_impl; [|exact H].
  intros c [Hc|[Hc|Hc]].
  - apply (bucket_call_kind c Hc).
  - apply (policy_call_kind c Hc).
  - apply (upload_call_kind dirname c Hc).
Qed.

(** X4.  A run that ends with exit code 0 has listed the buckets, made
    the row-level-security request and all four policy requests, and has
    written the helper file exactly once, with the generated text; if the
    images directory lists [files], it has asked to upload every accepted
    entry. *)
Theorem X4_exit_code_0_did_everything (dirname : string) (w : World) :
  exit_code dirname w = 0%Z ->
  filter is_rpc (calls_of (trace_of dirname w))
  = enable_rls :: map create_storage_policy policies
  /\ filter is_write (calls_of (trace_of dirname w))
     = [WriteFileSync (helperPath dirname) helperCode "utf-8"]
  /\ (forall fs, file_content (fs_after (trace_of dirname w) fs) (helperPath dirname)
                 = Some helperCode)
  /\ (forall files,
         (forall h, w (ReaddirSync (IMAGES_DIR dirname)) h = Returned files) ->
         upload_targets (trace_of dirname w) = map target_of (accepted files)).
Proof.
  intro Hexit. unfold trace_of.
  destruct (run_cases dirname w) as
      [t1 e E1 R | t1 t2 e E1 E2 R | t1 t2 t3 e E1 E2 E3 R
       | t1 t2 t3 t4 e E1 E2 E3 E4 R | t1 t2 t3 t4 E1 E2 E3 E4 R];
    rewrite (exit_code_of_run dirname w _ _ R) in Hexit; try discriminate.
  rewrite R; cbn [fst].
  pose proof (bucket_step_calls w _ _ _ E1) as H1.
  pose proof (policy_step_calls w _ _ _ E2) as H2.
  pose proof (upload_step_calls w _ _ _ _ E3) as H3.
  pose proof (helper_step_calls w _ _ _ _ E4) as H4.
  pose proof (proj2 (setup_policies_prefix w t1)) as Hc. rewrite E2 in Hc.
  cbn [fst snd] in Hc. specialize (Hc eq_refl).
  destruct (write_helper_completed w dirname _ t4 E4) as [Hw [_ Hfs]].
  split; [|split; [|split]].
  - rewrite !calls_of_app, !filter_app, Hc.
    rewrite (proj2 (no_policy_request_outside dirname _ (Forall_or_l _ _ _ H1))).
    rewrite (proj2 (no_policy_request_outside dirname _
                      (Forall_or_r _ _ _ (Forall_or_l _ _ _ H3)))).
    rewrite (proj2 (no_policy_request_outside dirname _
                      (Forall_or_r _ _ _ (Forall_or_r _ _ _ H4)))).
    cbn [filter app]. change (is_rpc enable_rls) with true. cbv iota.
    rewrite (proj2 (filter_policy_requests policies)). now rewrite app_nil_r.
  - rewrite !calls_of_app, !filter_app, Hw.
    rewrite (no_write_before_helper dirname _ (Forall_or_l _ _ _ H1)).
    rewrite (no_write_before_helper dirname _ (Forall_or_r _ _ _ (Forall_or_l _ _ _ H2))).
    rewrite (no_write_before_helper dirname _ (Forall_or_r _ _ _ (Forall_or_r _ _ _ H3))).
    reflexivity.
  - intro fs. rewrite !app_assoc, fs_after_app. apply Hfs.
  - intros files Hd.
    pose proof (upload_images_prefix w dirname (t1 ++ t2) files (Hd _)) as Hp.
    cbv zeta in Hp. rewrite E3 in Hp. cbn [fst snd] in Hp.
    destruct Hp as [_ [_ [_ Hp]]]. destruct (Hp eq_refl) as [Ht _].
    rewrite !upload_targets_app, Ht.
    rewrite (proj1 (other_steps_quiet dirname t1 (Forall_or_l _ _ _ H1))).
    rewrite (proj1 (other_steps_quiet dirname t2 (Forall_or_r _ _ _ (Forall_or_l _ _ _ H2)))).
    rewrite (proj1 (other_steps_quiet dirname t4 (Forall_or_r _ _ _ (Forall_or_r _ _ _ H4)))).
    now rewrite app_nil_r.
Qed.

Lemma X4_witness :
  exit_code sample_dir (world_of first_run) = 0%Z
  /\ filter is_write (calls_of (trace_of sample_dir (world_of first_run)))
     = [WriteFileSync (helperPath sample_dir) helperCode "utf-8"]
  /\ upload_targets (trace_of sample_dir (world_of first_run))
     = map target_of (accepted sample_files).
Proof.
  assert (H : exit_code sample_dir (world_of first_run) = 0%Z) by reflexivity.
  split; [exact H|].
  destruct (X4_exit_code_0_did_everything sample_dir (world_of first_run) H)
    as [_ [Hw [_ Hu]]].
  split; [exact Hw|]. apply Hu. reflexivity.
Defined.

(** X10.  The last console line tells how the run ended: a run with exit
    code 0 ends with the success line, a run with exit code 1 ends with the
    line of the outer [catch], which carries the exception; there is no
    other case. *)
Theorem X10_last_console_line (dirname : string) (w : World) :
  (exit_code dirname w = 0%Z
   /\ last (logs_of (trace_of dirname w)) no_line = success_line)
  \/ (exit_code dirname w = 1%Z
      /\ exists e, last (logs_of (trace_of dirname w)) no_line
                   = ConsoleError "Setup failed:" e).
Proof.
  unfold trace_of.
  destruct (run_cases dirname w) as
      [t1 e E1 R | t1 t2 e E1 E2 R | t1 t2 t3 e E1 E2 E3 R
       | t1 t2 t3 t4 e E1 E2 E3 E4 R | t1 t2 t3 t4 E1 E2 E3 E4 R];
    rewrite (exit_code_of_run dirname w _ _ R), R; cbn [fst process_exit_code].
  - right. split; [reflexivity|]. exists e. rewrite logs_of_app. apply last_last.
  - right. split; [reflexivity|]. exists e.
    rewrite app_assoc, logs_of_app. apply last_last.
  - right. split; [reflexivity|]. exists e.
    rewrite !app_assoc, logs_of_app. apply last_last.
  - right. split; [reflexivity|]. exists e.
    rewrite !app_assoc, logs_of_app. apply last_last.
  - left. split; [reflexivity|].
    destruct (write_helper_completed w dirname _ t4 E4) as [_ [[ls Hls] _]].
    rewrite !app_assoc, logs_of_app, Hls, app_assoc. apply last_last.
Qed.

(* ------------------------------------------------------------------ *)
(** *** What a run asks to change on the local file system *)

Lemma changes_before_helper (dirname : string) (t : trace) :
  Forall (fun c => bucket_call c \/ policy_call c \/ upload_call dirname c) (calls_of t) ->
  filter changes_fs (calls_of t) = [].
Proof.
  intro H. apply filter_none.
  eapply Forall_impl; [|exact (before_helper_quiet dirname t H)].
  intros c [Hm Hw]. unfold changes_fs. now rewrite Hm, Hw.
Qed.

(** The helper step asks for the directory at most once, then for the
    file at most once. *)
Lemma write_helper_changes (w : World) (dirname : string) (h : trace) :
  local_changes dirname
    (filter changes_fs (calls_of (fst (exec w (write_helper dirname) h)))).
Proof.
  unfold local_changes, write_helper. run_step.
  destruct (w (ExistsSync (utilsDir dirname)) h) as [[|]|e]; run_step.
  - match goal with |- context [w (WriteFileSync ?a ?b ?c) ?h'] =>
      destruct (w (WriteFileSync a b c) h') as [[]|e'] end; run_step;
      right; right; left; reflexivity.
  - match goal with |- context [w (MkdirSync ?a) ?h'] =>
      destruct (w (MkdirSync a) h') as [[]|e'] end; run_step.
    + match goal with |- context [w (WriteFileSync ?a ?b ?c) ?h'] =>
        destruct (w (WriteFileSync a b c) h') as [[]|e'] end; run_step;
        right; right; right; reflexivity.
    + right; left; reflexivity.
  - left; reflexivity.
Qed.

(** X9.  Whatever happens in a run, the script asks for at most two
    changes of the local file system, in this order: to create the
    utilities directory, and to write the generated text, as UTF-8, to the
    helper file in it.  It asks for no other directory, writes to no other
    path and writes no other text. *)
Theorem X9_local_changes_requested (dirname : string) (w : World) :
  local_changes dirname (filter changes_fs (calls_of (trace_of dirname w))).
Proof.
  unfold trace_of.
  destruct (run_cases dirname w) as
      [t1 e E1 R | t1 t2 e E1 E2 R | t1 t2 t3 e E1 E2 E3 R
       | t1 t2 t3 t4 e E1 E2 E3 E4 R | t1 t2 t3 t4 E1 E2 E3 E4 R];
    rewrite R; cbn [fst];
    pose proof (bucket_step_calls w _ _ _ E1) as H1.
  - rewrite calls_of_failure_line.
    rewrite (changes_before_helper dirname t1 (Forall_or_l _ _ _ H1)). now left.
  - pose proof (policy_step_calls w _ _ _ E2) as H2.
    rewrite app_assoc, calls_of_failure_line, calls_of_app, filter_app.
    rewrite (changes_before_helper dirname t1 (Forall_or_l _ _ _ H1)).
    rewrite (changes_before_helper dirname t2 (Forall_or_r _ _ _ (Forall_or_l _ _ _ H2))).
    now left.
  - pose proof (policy_step_calls w _ _ _ E2) as H2.
    pose proof (upload_step_calls w _ _ _ _ E3) as H3.
    rewrite !app_assoc, calls_of_failure_line, !calls_of_app, !filter_app.
    rewrite (changes_before_helper dirname t1 (Forall_or_l _ _ _ H1)).
    rewrite (changes_before_helper dirname t2 (Forall_or_r _ _ _ (Forall_or_l _ _ _ H2))).
    rewrite (changes_before_helper dirname t3 (Forall_or_r _ _ _ (Forall_or_r _ _ _ H3))).
    now left.
  - pose proof (policy_step_calls w _ _ _ E2) as H2.
    pose proof (upload_step_calls w _ _ _ _ E3) as H3.
    rewrite !app_assoc, calls_of_failure_line, !calls_of_app, !filter_app.
    rewrite (changes_before_helper dirname t1 (Forall_or_l _ _ _ H1)).
    rewrite (changes_before_helper dirname t2 (Forall_or_r _ _ _ (Forall_or_l _ _ _ H2))).
    rewrite (changes_before_helper dirname t3 (Forall_or_r _ _ _ (Forall_or_r _ _ _ H3))).
    pose proof (write_helper_changes w dirname ((t1 ++ t2) ++ t3)) as H4.
    rewrite E4 in H4. exact H4.
  - pose proof (policy_step_calls w _ _ _ E2) as H2.
    pose proof (upload_step_calls w _ _ _ _ E3) as H3.
    rewrite !app_assoc, !calls_of_app, !filter_app.
    rewrite (changes_before_helper dirname t1 (Forall_or_l _ _ _ H1)).
    rewrite (changes_before_helper dirname t2 (Forall_or_r _ _ _ (Forall_or_l _ _ _ H2))).
    rewrite (changes_before_helper dirname t3 (Forall_or_r _ _ _ (Forall_or_r _ _ _ H3))).
    pose proof (write_helper_changes w dirname ((t1 ++ t2) ++ t3)) as H4.
    rewrite E4 in H4. exact H4.
Qed.

(** The helper step cannot end normally when the write throws, or when the
    directory is missing and cannot be created; in the second case it stops
    at the directory. *)
Lemma write_helper_fails (w : World) (dirname : string) (h : trace) :
  throws w (WriteFileSync (helperPath dirname) helperCode "utf-8")
  \/ ((forall h', w (ExistsSync (utilsDir dirname)) h' = Returned false)
      /\ throws w (MkdirSync (utilsDir dirname))) ->
  (exists e, snd (exec w (write_helper dirname) h) = Uncaught e)
  /\ ((forall h', w (ExistsSync (utilsDir dirname)) h' = Returned false) ->
      throws w (MkdirSync (utilsDir dirname)) ->
      exists e,
        fst (exec w (write_helper dirname) h)
        = [EvCall (ExistsSync (utilsDir dirname)) (Returned false);
           EvCall (MkdirSync (utilsDir dirname)) (Threw e)]).
Proof.
  intro Hfail. unfold write_helper. run_step.
  destruct (w (ExistsSync (utilsDir dirname)) h) as [[|]|e] eqn:He; run_step.
  - destruct Hfail as [Hw|[Hx _]]; [|rewrite Hx in He; discriminate].
    match goal with |- context [w (WriteFileSync ?a ?b ?c) ?h'] =>
      destruct (Hw h') as [e' He'] end.
    rewrite He'. run_step. split; [now exists e'|].
    intros Hx _. rewrite Hx in He. discriminate.
  - match goal with |- context [w (MkdirSync ?a) ?h'] =>
      destruct (w (MkdirSync a) h') as [[]|e'] eqn:Hm end; run_step.
    + destruct Hfail as [Hw|[_ Hk]].
      * match goal with |- context [w (WriteFileSync ?a ?b ?c) ?h'] =>
          destruct (Hw h') as [e' He'] end.
        rewrite He'. run_step. split; [now exists e'|].
        intros _ Hk.
        match type of Hm with w _ ?h' = _ => destruct (Hk h') as [e'' He''] end.
        rewrite He'' in Hm. discriminate.
      * match type of Hm with w _ ?h' = _ => destruct (Hk h') as [e'' He''] end.
        rewrite He'' in Hm. discriminate.
    + split; [now exists e' | intros _ _; now exists e'].
  - split; [now exists e|]. intros Hx _. rewrite Hx in He. discriminate.
Qed.

(** X13.  If writing the helper file throws, or the utilities directory is
    reported missing and creating it throws, the run exits with code 1.  In
    the second case the script never asks to write the helper file, and
    none of its calls has changed a file or a directory. *)
Theorem X13_helper_failure (dirname : string) (w : World) :
  throws w (WriteFileSync (helperPath dirname) helperCode "utf-8")
  \/ ((forall h, w (ExistsSync (utilsDir dirname)) h = Returned false)
      /\ throws w (MkdirSync (utilsDir dirname))) ->
  exit_code dirname w = 1%Z
  /\ ((forall h, w (ExistsSync (utilsDir dirname)) h = Returned false) ->
      throws w (MkdirSync (utilsDir dirname)) ->
      filter is_write (calls_of (trace_of dirname w)) = []
      /\ forall fs, fs_after (trace_of dirname w) fs = fs).
Proof.
  intro Hfail.
  assert (Hquiet : forall t,
             Forall (fun c => bucket_call c \/ policy_call c \/ upload_call dirname c)
                    (calls_of t) ->
             forall e,
               filter is_write (calls_of (t ++ [failure_line e])) = []
               /\ forall fs, fs_after (t ++ [failure_line e]) fs = fs).
  { intros t Hpre e. split.
    - rewrite calls_of_failure_line. apply (no_write_before_helper dirname), Hpre.
    - intro fs. rewrite fs_after_app.
      rewrite (fs_after_untouched t fs (before_helper_quiet dirname t Hpre)).
      reflexivity. }
  unfold trace_of.
  destruct (run_cases dirname w) as
      [t1 e E1 R | t1 t2 e E1 E2 R | t1 t2 t3 e E1 E2 E3 R
       | t1 t2 t3 t4 e E1 E2 E3 E4 R | t1 t2 t3 t4 E1 E2 E3 E4 R];
    rewrite (exit_code_of_run dirname w _ _ R), R; cbn [fst process_exit_code];
    pose proof (bucket_step_calls w _ _ _ E1) as H1.
  - split; [reflexivity|]. intros _ _. apply Hquiet, Forall_or_l, H1.
  - pose proof (policy_step_calls w _ _ _ E2) as H2.
    assert (Hpre : Forall (fun c => bucket_call c \/ policy_call c \/ upload_call dirname c)
                          (calls_of (t1 ++ t2))).
    { rewrite calls_of_app. apply Forall_app. split;
        [apply Forall_or_l, H1 | apply Forall_or_r, Forall_or_l, H2]. }
    rewrite app_assoc. split; [reflexivity|]. intros _ _. apply Hquiet, Hpre.
  - pose proof (policy_step_calls w _ _ _ E2) as H2.
    pose proof (upload_step_calls w _ _ _ _ E3) as H3.
    assert (Hpre : Forall (fun c => bucket_call c \/ policy_call c \/ upload_call dirname c)
                          (calls_of ((t1 ++ t2) ++ t3))).
    { rewrite !calls_of_app. repeat (apply Forall_app; split);
        [apply Forall_or_l, H1 | apply Forall_or_r, Forall_or_l, H2
         | apply Forall_or_r, Forall_or_r, H3]. }
    rewrite !app_assoc. split; [reflexivity|]. intros _ _. apply Hquiet, Hpre.
  - pose proof (policy_step_calls w _ _ _ E2) as H2.
    pose proof (upload_step_calls w _ _ _ _ E3) as H3.
    assert (Hpre : Forall (fun c => bucket_call c \/ policy_call c \/ upload_call dirname c)
                          (calls_of ((t1 ++ t2) ++ t3))).
    { rewrite !calls_of_app. repeat (apply Forall_app; split);
        [apply Forall_or_l, H1 | apply Forall_or_r, Forall_or_l, H2
         | apply Forall_or_r, Forall_or_r, H3]. }
    rewrite !app_assoc. split; [reflexivity|].
    intros Hx Hk.
    destruct (proj2 (write_helper_fails w dirname ((t1 ++ t2) ++ t3) Hfail) Hx Hk)
      as [e' Ht4].
    rewrite E4 in Ht4. cbn [fst] in Ht4. subst t4. split.
    + rewrite calls_of_failure_line, calls_of_app, filter_app.
      rewrite (no_write_before_helper dirname _ Hpre). reflexivity.
    + intro fs. rewrite fs_after_app, (fs_after_app ((t1 ++ t2) ++ t3)).
      rewrite (fs_after_untouched _ fs (before_helper_quiet dirname _ Hpre)).
      reflexivity.
  - exfalso.
    destruct (proj1 (write_helper_fails w dirname ((t1 ++ t2) ++ t3) Hfail)) as [e He].
    rewrite E4 in He. discriminate.
Qed.

Lemma X13_witness :
  (throws (world_of write_error)
          (WriteFileSync (helperPath sample_dir) helperCode "utf-8")
   /\ exit_code sample_dir (world_of write_error) = 1%Z)
  /\ ((forall h, world_of mkdir_error (ExistsSync (utilsDir sample_dir)) h = Returned false)
      /\ throws (world_of mkdir_error) (MkdirSync (utilsDir sample_dir)))
  /\ exit_code sample_dir (world_of mkdir_error) = 1%Z
  /\ filter is_write (calls_of (trace_of sample_dir (world_of mkdir_error))) = []
  /\ fs_after (trace_of sample_dir (world_of mkdir_error)) empty_fs = empty_fs.
Proof.
  assert (H0 : throws (world_of write_error)
                      (WriteFileSync (helperPath sample_dir) helperCode "utf-8")).
  { intro h. eexists. reflexivity. }
  assert (H1 : forall h, world_of mkdir_error (ExistsSync (utilsDir sample_dir)) h
                         = Returned false) by reflexivity.
  assert (H2 : throws (world_of mkdir_error) (MkdirSync (utilsDir sample_dir))).
  { intro h. eexists. reflexivity. }
  split.
  - split; [exact H0|].
    exact (proj1 (X13_helper_failure sample_dir (world_of write_error) (or_introl H0))).
  - split; [split; assumption|].
    destruct (X13_helper_failure sample_dir (world_of mkdir_error)
                (or_intror (conj H1 H2))) as [Ha Hc].
    destruct (Hc H1 H2) as [Hw Hfs].
    split; [exact Ha|]. split; [exact Hw | exact (Hfs empty_fs)].
Defined.

(* ------------------------------------------------------------------ *)
(** *** Exceptions that end the run *)

(** When the loop body is bound to throw for [file], the loop over a
    listing that contains [file] throws, at [file] or before it. *)
Lemma upload_loop_stops (w : World) (dirname : string) (before after_ : list string)
      (file : string) :
  (forall h, exists e, snd (exec w (upload_file dirname file) h) = Uncaught e) ->
  forall h,
    (exists e, snd (exec w (for_each (before ++ file :: after_) (upload_file dirname)) h)
               = Uncaught e)
    /\ Forall (fun target => exists g, In g (before ++ [file]) /\ target = target_of g)
              (upload_targets
                 (fst (exec w (for_each (before ++ file :: after_) (upload_file dirname)) h))).
Proof.
  intros Hthrow. induction before as [|g before IH]; intro h.
  - cbn [app for_each]. destruct (Hthrow h) as [e He].
    pose proof (upload_file_targets w dirname file h) as Hg.
    rewrite (exec_bind_uncaught w _ _ h (fst (exec w (upload_file dirname file) h)) e)
      by (rewrite <- He; apply pair_eta).
    cbn [fst snd]. split; [now exists e|].
    eapply Forall_impl; [|exact Hg]. intros tg ->. exists file. split; [now left | reflexivity].
  - cbn [app for_each].
    apply exec_bind_cases; [apply upload_file_no_exit | |].
    + intros t [] Ht. destruct (IH (h ++ t)) as [IH1 IH2].
      unfold extend; cbn [fst snd]. split; [exact IH1|].
      rewrite upload_targets_app. apply Forall_app. split.
      * pose proof (upload_file_targets w dirname g h) as Hg. rewrite Ht in Hg.
        eapply Forall_impl; [|exact Hg]. intros tg ->. exists g. split; [now left | reflexivity].
      * eapply Forall_impl; [|exact IH2].
        intros tg [g' [Hin ->]]. exists g'. split; [now right | reflexivity].
    + intros t e Ht. cbn [fst snd]. split; [now exists e|].
      pose proof (upload_file_targets w dirname g h) as Hg. rewrite Ht in Hg.
      eapply Forall_impl; [|exact Hg]. intros tg ->. exists g. split; [now left | reflexivity].
Qed.

(** X5.  An upload request that throws, instead of coming back with an
    error in its result object, ends the run: if the directory lists
    [before ++ file :: after_], [file] is accepted and can be read, and the
    upload request for it throws, the process exits with code 1, the helper
    is not written, and no upload is requested for an entry of [after_]. *)
Theorem X5_upload_exception_fatal
  (dirname : string) (w : World) (before after_ : list string) (file : string) :
  (forall h, w (ReaddirSync (IMAGES_DIR dirname)) h = Returned (before ++ file :: after_)) ->
  image_regex_test file = true ->
  returns w (ReadFileSync (path.join (IMAGES_DIR dirname) file)) ->
  (forall body, throws w (Upload BUCKET_NAME ("product-images/" +++ file) body
                                 (file_options file))) ->
  exit_code dirname w = 1%Z
  /\ filter is_write (calls_of (trace_of dirname w)) = []
  /\ Forall (fun target => exists g, In g (before ++ [file]) /\ target = target_of g)
            (upload_targets (trace_of dirname w)).
Proof.
  intros Hd Hm Hr Hu.
  destruct (abort_in_upload dirname w
              (fun target => exists g, In g (before ++ [file]) /\ target = target_of g))
    as [H1 [H2 H3]]; [|now repeat split].
  intro h. rewrite (upload_images_exec w dirname h _ (Hd h)). cbv zeta.
  match goal with |- context [exec w (for_each ?fs ?b) ?h'] =>
    destruct (upload_loop_stops w dirname before after_ file) with (h := h')
      as [[e He] HP];
    [|rewrite (pair_eta (exec w (for_each fs b) h')), He]
  end.
  - intro h0. destruct (Hr h0) as [buf Hbuf].
    match goal with |- _ => idtac end.
    destruct (Hu buf (h0 ++ [EvCall (ReadFileSync (path.join (IMAGES_DIR dirname) file))
                                    (Returned buf);
                             EvLog (ConsoleLog ("Uploading: " +++ file))])) as [e He].
    exists e. now rewrite (upload_file_throws_upload w dirname file h0 buf e Hm Hbuf He).
  - eexists; eexists. split; [reflexivity|].
    unfold extend; cbn [fst snd]. rewrite upload_targets_app. exact HP.
Qed.

Lemma X5_witness :
  ((forall h, world_of upload_throws (ReaddirSync (IMAGES_DIR sample_dir)) h
              = Returned (["a.png"] ++ "c.JPG" :: ["d.gif"]))
   /\ image_regex_test "c.JPG" = true
   /\ returns (world_of upload_throws)
              (ReadFileSync (path.join (IMAGES_DIR sample_dir) "c.JPG"))
   /\ (forall body, throws (world_of upload_throws)
                           (Upload BUCKET_NAME ("product-images/" +++ "c.JPG") body
                                   (file_options "c.JPG"))))
  /\ exit_code sample_dir (world_of upload_throws) = 1%Z
  /\ filter is_write (calls_of (trace_of sample_dir (world_of upload_throws))) = [].
Proof.
  assert (H1 : forall h, world_of upload_throws (ReaddirSync (IMAGES_DIR sample_dir)) h
                         = Returned (["a.png"] ++ "c.JPG" :: ["d.gif"])) by reflexivity.
  assert (H2 : returns (world_of upload_throws)
                       (ReadFileSync (path.join (IMAGES_DIR sample_dir) "c.JPG"))).
  { intro h. eexists. reflexivity. }
  assert (H3 : forall body, throws (world_of upload_throws)
                                   (Upload BUCKET_NAME ("product-images/" +++ "c.JPG") body
                                           (file_options "c.JPG"))).
  { intros body h. eexists. reflexivity. }
  split; [repeat split; assumption|].
  destruct (X5_upload_exception_fatal sample_dir (world_of upload_throws)
              ["a.png"] ["d.gif"] "c.JPG" H1 eq_refl H2 H3) as [Ha [Hb _]].
  split; [exact Ha | exact Hb].
Defined.

(** The loop over the policies when the request for [policy] is bound to
    throw a value on which the test of the [catch] clause raises [e]. *)
Lemma policy_loop_stops (w : World) (before after_ : list Policy) (policy : Policy)
      (e : js_value) :
  (forall h, w (create_storage_policy policy) h = Threw (JsRaises e)) ->
  forall h,
    (exists e, snd (exec w (for_each (before ++ policy :: after_) create_policy) h)
               = Uncaught e)
    /\ exists k, calls_of (fst (exec w (for_each (before ++ policy :: after_) create_policy) h))
                 = firstn k (map create_storage_policy (before ++ [policy])).
Proof.
  intro Hthrow. induction before as [|q before IH]; intro h.
  - cbn [app for_each map].
    rewrite (exec_bind_uncaught w _ _ h _ _
               (create_policy_threw_raises w policy h e (Hthrow _))).
    cbn [fst snd calls_of]. split; [eexists; reflexivity | exists 1; reflexivity].
  - cbn [app for_each map].
    destruct (policy_outcome w q h) as [r|[msg|b|e']] eqn:Ho.
    + rewrite (exec_bind_completed w _ _ h _ tt (create_policy_returned w q h r Ho)).
      match goal with |- context [exec w (for_each ?l create_policy) ?h'] =>
        destruct (IH h') as [He [k Hk]] end.
      unfold extend; cbn [fst snd]. split; [exact He|].
      exists (S k). rewrite calls_of_app. cbn [calls_of app firstn]. now rewrite Hk.
    + rewrite (exec_bind_completed w _ _ h _ tt (create_policy_threw w q h msg Ho)).
      match goal with |- context [exec w (for_each ?l create_policy) ?h'] =>
        destruct (IH h') as [He [k Hk]] end.
      unfold extend; cbn [fst snd]. split; [exact He|].
      exists (S k). rewrite calls_of_app. cbn [calls_of app firstn]. now rewrite Hk.
    + rewrite (exec_bind_completed w _ _ h _ tt (create_policy_threw_answers w q h b Ho)).
      match goal with |- context [exec w (for_each ?l create_policy) ?h'] =>
        destruct (IH h') as [He [k Hk]] end.
      unfold extend; cbn [fst snd]. split; [exact He|].
      exists (S k). rewrite calls_of_app. cbn [calls_of app firstn]. now rewrite Hk.
    + rewrite (exec_bind_uncaught w _ _ h _ _ (create_policy_threw_raises w q h e' Ho)).
      cbn [fst snd calls_of]. split; [eexists; reflexivity | exists 1; reflexivity].
Qed.

Lemma setup_policies_stops (w : World) (before after_ : list Policy) (policy : Policy)
      (e : js_value) :
  policies = before ++ policy :: after_ ->
  (forall h, w (create_storage_policy policy) h = Threw (JsRaises e)) ->
  forall h,
    (exists e, snd (exec w setup_policies h) = Uncaught e)
    /\ exists k, filter is_create_policy (calls_of (fst (exec w setup_policies h)))
                 = firstn k (map create_storage_policy (before ++ [policy])).
Proof.
  intros Hsplit Hthrow h.
  destruct (w enable_rls (h ++ [EvLog (ConsoleLog "Setting up storage policies...")]))
    as [r|e0] eqn:He.
  - rewrite (setup_policies_exec w h r He). cbv zeta. rewrite Hsplit.
    match goal with |- context [exec w (for_each ?l create_policy) ?h'] =>
      destruct (policy_loop_stops w before after_ policy e Hthrow h') as [Hu [k Hk]] end.
    unfold extend; cbn [fst snd]. split; [exact Hu|].
    exists k. rewrite calls_of_app. cbn [calls_of app filter].
    change (is_create_policy enable_rls) with false. cbv iota.
    rewrite Hk. apply filter_policy_firstn.
  - rewrite (setup_policies_enable_threw w h e0 He). cbn [fst snd calls_of filter].
    change (is_create_policy enable_rls) with false. cbv iota.
    split; [eexists; reflexivity | exists 0; reflexivity].
Qed.

(** A run that does not get past the policies. *)
Lemma stops_by_policies (dirname : string) (w : World) :
  (forall h, exists e, snd (exec w setup_policies h) = Uncaught e) ->
  exit_code dirname w = 1%Z
  /\ Forall (fun c => bucket_call c \/ policy_call c) (calls_of (trace_of dirname w))
  /\ exists t1 t2,
      calls_of (trace_of dirname w) = calls_of t1 ++ calls_of t2
      /\ Forall bucket_call (calls_of t1)
      /\ (t2 = [] \/ t2 = fst (exec w setup_policies t1)).
Proof.
  intro Hstop. unfold trace_of.
  destruct (run_cases dirname w) as
      [t1 e E1 R | t1 t2 e E1 E2 R | t1 t2 t3 e E1 E2 E3 R
       | t1 t2 t3 t4 e E1 E2 E3 E4 R | t1 t2 t3 t4 E1 E2 E3 E4 R];
    try (exfalso; destruct (Hstop t1) as [e' He']; rewrite E2 in He'; discriminate);
    rewrite (exit_code_of_run dirname w _ _ R), R; cbn [fst process_exit_code];
    pose proof (bucket_step_calls w _ _ _ E1) as H1.
  - rewrite calls_of_failure_line. split; [reflexivity|].
    split; [apply Forall_or_l, H1|].
    exists t1, []. split; [now rewrite app_nil_r|]. split; [exact H1 | now left].
  - pose proof (policy_step_calls w _ _ _ E2) as H2.
    rewrite app_assoc, calls_of_failure_line, calls_of_app. split; [reflexivity|].
    split; [apply Forall_app; split; [apply Forall_or_l, H1 | apply Forall_or_r, H2]|].
    exists t1, t2. split; [reflexivity|]. split; [exact H1|]. right. now rewrite E2.
Qed.

(** X6.  If the request for one of the policies throws a value on which
    the test [error.message.includes("already exists")] of the [catch]
    clause itself raises an exception (a value without a [message], say),
    the loop is left by that exception: the process exits with code 1, no
    policy after that one is requested, and the run never gets to the images
    or to the helper.  A thrown value on which the test evaluates is not
    concerned: it is reported and the loop goes on
    ([create_policy_threw_answers]). *)
Theorem X6_policy_catch_clause_raises
  (dirname : string) (w : World) (before after_ : list Policy) (policy : Policy)
  (e : js_value) :
  policies = before ++ policy :: after_ ->
  (forall h, w (create_storage_policy policy) h = Threw (JsRaises e)) ->
  exit_code dirname w = 1%Z
  /\ Forall (fun c => bucket_call c \/ policy_call c) (calls_of (trace_of dirname w))
  /\ exists k, filter is_create_policy (calls_of (trace_of dirname w))
               = firstn k (map create_storage_policy (before ++ [policy])).
Proof.
  intros Hsplit Hthrow.
  destruct (stops_by_policies dirname w) as [H1 [H2 [t1 [t2 [Hc [Hb Ht2]]]]]].
  { intro h. apply (setup_policies_stops w before after_ policy e Hsplit Hthrow h). }
  split; [exact H1|]. split; [exact H2|].
  rewrite Hc, filter_app.
  rewrite (proj1 (no_policy_request_outside dirname _ (Forall_or_l _ _ _ Hb))).
  destruct Ht2 as [->| ->]; [exists 0; reflexivity|].
  apply (setup_policies_stops w before after_ policy e Hsplit Hthrow t1).
Qed.

Lemma X6_witness :
  (policies = [uploads_policy] ++ reads_policy :: [updates_policy; deletes_policy]
   /\ (forall h, world_of policy_throws_other (create_storage_policy reads_policy) h
                 = Threw (JsRaises includes_type_error)))
  /\ exit_code sample_dir (world_of policy_throws_other) = 1%Z
  /\ filter is_create_policy (calls_of (trace_of sample_dir (world_of policy_throws_other)))
     = [create_storage_policy uploads_policy; create_storage_policy reads_policy].
Proof.
  assert (H1 : policies = [uploads_policy] ++ reads_policy
                          :: [updates_policy; deletes_policy]) by reflexivity.
  assert (H2 : forall h, world_of policy_throws_other (create_storage_policy reads_policy) h
                         = Threw (JsRaises includes_type_error)) by reflexivity.
  split; [split; assumption|].
  split; [|reflexivity].
  exact (proj1 (X6_policy_catch_clause_raises sample_dir (world_of policy_throws_other)
                  _ _ _ _ H1 H2)).
Defined.

(** X7.  The row-level-security request is awaited outside the loop's
    [try]: if it throws, the process exits with code 1 and no policy is
    requested, nothing is read or uploaded, and the helper is not written. *)
Theorem X7_enable_rls_exception_fatal (dirname : string) (w : World) :
  throws w enable_rls ->
  exit_code dirname w = 1%Z
  /\ filter is_create_policy (calls_of (trace_of dirname w)) = []
  /\ Forall (fun c => bucket_call c \/ c = enable_rls) (calls_of (trace_of dirname w)).
Proof.
  intro Hthrow.
  assert (Hstep : forall h, exec w setup_policies h
                            = ([EvLog (ConsoleLog "Setting up storage policies...");
                                EvCall enable_rls
                                       (w enable_rls
                                          (h ++ [EvLog (ConsoleLog
                                                   "Setting up storage policies...")]))],
                               snd (exec w setup_policies h))
                            /\ exists e, snd (exec w setup_policies h) = Uncaught e).
  { intro h.
    destruct (Hthrow (h ++ [EvLog (ConsoleLog "Setting up storage policies...")]))
      as [e He].
    rewrite (setup_policies_enable_threw w h e He), He. split; [reflexivity | now exists e]. }
  destruct (stops_by_policies dirname w) as [H1 [_ [t1 [t2 [Hc [Hb Ht2]]]]]].
  { intro h. apply Hstep. }
  split; [exact H1|]. rewrite Hc.
  assert (H2 : calls_of t2 = [] \/ calls_of t2 = [enable_rls]).
  { destruct Ht2 as [->| ->]; [now left|]. right.
    rewrite (proj1 (Hstep t1)). reflexivity. }
  split.
  - rewrite filter_app.
    rewrite (proj1 (no_policy_request_outside dirname _ (Forall_or_l _ _ _ Hb))).
    destruct H2 as [->| ->]; reflexivity.
  - apply Forall_app. split; [apply Forall_or_l, Hb|].
    destruct H2 as [->| ->]; [constructor | constructor; [now right | constructor]].
Qed.

Lemma X7_witness :
  throws (world_of rls_throws) enable_rls
  /\ exit_code sample_dir (world_of rls_throws) = 1%Z
  /\ filter is_create_policy (calls_of (trace_of sample_dir (world_of rls_throws))) = [].
Proof.
  assert (H : throws (world_of rls_throws) enable_rls).
  { intro h. eexists. reflexivity. }
  split; [exact H|].
  destruct (X7_enable_rls_exception_fatal sample_dir (world_of rls_throws) H) as [Ha [Hb _]].
  split; [exact Ha | exact Hb].
Defined.

(** X8.  The line of the outer [catch] carries what went wrong with the
    bucket: the service's message behind [Error listing buckets: ] when the
    listing comes back with an error, behind [Error creating bucket: ] when
    the creation does, and the exception itself when the listing throws.
    In the first and last case it is the only console line of the run. *)
Theorem X8_failure_line_carries_message (dirname : string) (w : World) :
  (forall r e,
      w ListBuckets [] = Returned r -> error r = Some e ->
      logs_of (trace_of dirname w)
      = [ConsoleError "Setup failed:"
                      (JsError ("Error listing buckets: " +++ message e))])
  /\ (forall e,
         w ListBuckets [] = Threw e ->
         logs_of (trace_of dirname w) = [ConsoleError "Setup failed:" e])
  /\ (forall r r' e,
         w ListBuckets [] = Returned r -> error r = None -> bucket_exists r = false ->
         (forall h, w (CreateBucket BUCKET_NAME bucket_options) h = Returned r') ->
         error r' = Some e ->
         logs_of (trace_of dirname w)
         = [ConsoleLog ("Creating bucket: " +++ BUCKET_NAME);
            ConsoleError "Setup failed:"
                         (JsError ("Error creating bucket: " +++ message e))]).
Proof.
  unfold trace_of, run, setupStorage, steps. split; [|split].
  - intros r e Hr He.
    rewrite (exec_try_bind_uncaught w _ _ on_failure [] _ _
               (ensure_bucket_list_error w [] r e Hr He)).
    reflexivity.
  - intros e He.
    rewrite (exec_try_bind_uncaught w _ _ on_failure [] _ _
               (ensure_bucket_list_threw w [] e He)).
    reflexivity.
  - intros r r' e Hr He Hb Hc He'.
    pose proof (ensure_bucket_absent w [] r Hr He Hb) as E. cbv zeta in E.
    rewrite Hc, He' in E. unfold extend in E. cbn [fst snd app] in E.
    rewrite (exec_try_bind_uncaught w _ _ on_failure [] _ _ E).
    reflexivity.
Qed.

Lemma X8_witness :
  world_of list_error ListBuckets [] = failed "Invalid API key"
  /\ logs_of (trace_of sample_dir (world_of list_error))
     = [ConsoleError "Setup failed:" (JsError "Error listing buckets: Invalid API key")].
Proof.
  split; [reflexivity|].
  exact (proj1 (X8_failure_line_carries_message sample_dir (world_of list_error))
               _ _ eq_refl eq_refl).
Defined.

(* ------------------------------------------------------------------ *)
(** *** Names the regular expression accepts *)

Lemma lower_dot_check :
  forallb (fun c => Bool.eqb (Ascii.eqb (lower_ascii c) ".") (Ascii.eqb c ".")) all_ascii
  = true.
Proof. vm_compute. reflexivity. Qed.

Lemma lower_dot (c : ascii) : Ascii.eqb (lower_ascii c) "." = Ascii.eqb c ".".
Proof.
  pose proof lower_dot_check as H. rewrite forallb_forall in H.
  specialize (H c (all_ascii_complete c)). now apply Bool.eqb_prop in H.
Qed.

Lemma match_literal_ci_lower (pat s : string) :
  match_literal_ci pat (toLowerCase s) = option_map toLowerCase (match_literal_ci pat s).
Proof.
  revert s. induction pat as [|p pat IH]; intro s; [reflexivity|].
  destruct s as [|c s]; [reflexivity|].
  cbn [toLowerCase map_string match_literal_ci]. fold (toLowerCase s).
  unfold canonicalize. rewrite upper_lower.
  destruct (Ascii.eqb (upper_ascii p) (upper_ascii c)); [apply IH | reflexivity].
Qed.

Lemma match_here_lower (s : string) : match_here (toLowerCase s) = match_here s.
Proof.
  destruct s as [|c r]; [reflexivity|].
  cbn [toLowerCase map_string]. fold (toLowerCase r). unfold match_here.
  rewrite lower_dot. f_equal.
  cbn [existsb image_alternatives]. rewrite !match_literal_ci_lower.
  destruct (match_literal_ci "jpg" r) as [[|]|];
    destruct (match_literal_ci "jpeg" r) as [[|]|];
    destruct (match_literal_ci "png" r) as [[|]|];
    destruct (match_literal_ci "gif" r) as [[|]|]; reflexivity.
Qed.

Lemma image_regex_test_lower (s : string) :
  image_regex_test (toLowerCase s) = image_regex_test s.
Proof.
  induction s as [|c s IH]; [reflexivity|].
  change (toLowerCase (String c s)) with (String (lower_ascii c) (toLowerCase s)).
  cbn [image_regex_test]. rewrite IH. f_equal.
  exact (match_here_lower (String c s)).
Qed.

(** X11.  The test on file names ignores letter case throughout the name:
    two names that differ only in the case of ASCII letters are both
    accepted or both skipped. *)
Theorem X11_acceptance_ignores_case (a b : string) :
  toLowerCase a = toLowerCase b -> image_regex_test a = image_regex_test b.
Proof.
  intro H. rewrite <- (image_regex_test_lower a), <- (image_regex_test_lower b).
  now rewrite H.
Qed.

Lemma X11_witness :
  toLowerCase "Photo.JpEg" = toLowerCase "PHOTO.jpeg"
  /\ image_regex_test "Photo.JpEg" = image_regex_test "PHOTO.jpeg".
Proof.
  split; [reflexivity|].
  exact (X11_acceptance_ignores_case "Photo.JpEg" "PHOTO.jpeg" eq_refl).
Defined.

(** A name that is nothing but a dot and an extension has no extension for
    [path.extname]. *)
Lemma extname_dotfile (ext : string) :
  ext <> EmptyString -> lacks "/" ext -> lacks "." ext ->
  path.extname ("." +++ ext) = EmptyString.
Proof.
  intros Hext Hs Hd. unfold lacks in *. unfold path.extname.
  cbn [append list_ascii_of_string String.length List.rev].
  set (le := list_ascii_of_string ext) in *.
  assert (Hle : le <> []).
  { unfold le. destruct ext; [now elim Hext | discriminate]. }
  destruct (List.rev le) as [|c l'] eqn:Erev.
  { exfalso. apply Hle. rewrite <- (rev_involutive le), Erev. reflexivity. }
  assert (Hin : forall x, In x (c :: l') -> x <> "."%char /\ x <> "/"%char).
  { intros x Hx. rewrite <- Erev in Hx. apply in_rev in Hx.
    split; intros ->; [now apply Hd | now apply Hs]. }
  assert (Hlen : String.length ext = S (length l')).
  { rewrite <- length_list_ascii. fold le. rewrite <- (length_rev le), Erev. reflexivity. }
  rewrite Hlen. cbn [app]. destruct (Hin c (or_introl eq_refl)) as [Hcd Hcs].
  rewrite (extname_loop_first c _ _ Hcd Hcs).
  rewrite extname_loop_ext by (try lia; intros; apply Hin; now right).
  rewrite extname_loop_dot by lia.
  cbn [path.extname_loop dotted path.startDot path.end_ path.preDotState].
  rewrite Z.eqb_refl, !orb_true_r. reflexivity.
Qed.

(** X12.  An entry whose whole name is a dot followed by one of the four
    extensions is accepted and uploaded, but [path.extname] finds no
    extension in it: its content type is [image/] with nothing behind. *)
Theorem X12_bare_extension_content_type (ext : string) :
  In (toLowerCase ext) ["jpg"; "jpeg"; "png"; "gif"] ->
  image_regex_test ("." +++ ext) = true
  /\ file_options ("." +++ ext) = {| contentType := "image/"; upsert := true |}.
Proof.
  intro Hin. split.
  - apply image_regex_test_spec. exists EmptyString, ext. now split.
  - destruct (image_extension_plain ext Hin) as [Hne [Hs Hd]].
    unfold file_options. now rewrite (extname_dotfile ext Hne Hs Hd).
Qed.

Lemma X12_witness :
  In (toLowerCase "PNG") ["jpg"; "jpeg"; "png"; "gif"]
  /\ file_options ("." +++ "PNG") = {| contentType := "image/"; upsert := true |}.
Proof.
  assert (H : In (toLowerCase "PNG") ["jpg"; "jpeg"; "png"; "gif"])
    by (right; right; left; reflexivity).
  split; [exact H|].
  exact (proj2 (X12_bare_extension_content_type "PNG" H)).
Defined.

(* ------------------------------------------------------------------ *)
(** *** What the console says about uploads *)

(** X14.  For an accepted entry that can be read, an upload request that
    comes back is followed by exactly one console line and the loop goes
    on: [console.error] with the service's message when the result object
    holds an error, the line [Successfully uploaded] otherwise.  What is
    uploaded is what was read. *)
Theorem X14_upload_result_reported
  (w : World) (dirname file : string) (h : trace) (buf : Buffer) (r : Result string) :
  image_regex_test file = true ->
  w (ReadFileSync (path.join (IMAGES_DIR dirname) file)) h = Returned buf ->
  w (Upload BUCKET_NAME ("product-images/" +++ file) buf (file_options file))
    (h ++ [EvCall (ReadFileSync (path.join (IMAGES_DIR dirname) file)) (Returned buf);
           EvLog (ConsoleLog ("Uploading: " +++ file))]) = Returned r ->
  snd (exec w (upload_file dirname file) h) = Completed tt
  /\ calls_of (fst (exec w (upload_file dirname file) h))
     = [ReadFileSync (path.join (IMAGES_DIR dirname) file);
        Upload BUCKET_NAME ("product-images/" +++ file) buf (file_options file)]
  /\ logs_of (fst (exec w (upload_file dirname file) h))
     = [ConsoleLog ("Uploading: " +++ file);
        match error r with
        | Some e => ConsoleError ("Error uploading " +++ file +++ ":") (JsError (message e))
        | None => ConsoleLog ("Successfully uploaded: " +++ file)
        end].
Proof.
  intros Hm Hr Hu. rewrite (upload_file_exec w dirname file h buf r Hm Hr Hu).
  repeat split.
Qed.

Lemma X14_witness :
  image_regex_test "a.png" = true
  /\ logs_of (fst (exec (world_of first_run) (upload_file sample_dir "a.png") []))
     = [ConsoleLog "Uploading: a.png";
        ConsoleError "Error uploading a.png:" (JsError "Payload too large")].
Proof.
  split; [reflexivity|].
  exact (proj2 (proj2 (X14_upload_result_reported (world_of first_run) sample_dir "a.png"
                         [] [] _ eq_refl eq_refl eq_refl))).
Defined.

(** X15.  In a run that gets to the images directory, the line
    [Found N files to upload] counts every entry of the directory, accepted
    or not; the number of upload requests is at most the number of accepted
    entries, which is at most [N]. *)
Theorem X15_found_line_counts_all_entries
  (dirname : string) (w : World) (files : list string) :
  reaches_upload w ->
  (forall h, w (ReaddirSync (IMAGES_DIR dirname)) h = Returned files) ->
  In (ConsoleLog ("Found " +++ string_of_nat (length files) +++ " files to upload"))
     (logs_of (trace_of dirname w))
  /\ length (upload_targets (trace_of dirname w)) <= length (accepted files)
  /\ length (accepted files) <= length files.
Proof.
  intros Hreach Hd.
  destruct (run_from_upload dirname w Hreach) as [t [Hrun _]].
  split; [|split].
  - unfold trace_of. rewrite Hrun. unfold extend; cbn [fst].
    rewrite logs_of_app. apply in_or_app. right.
    apply (exec_try_bind_cases w _ _ _ _
             (fun r => In (ConsoleLog ("Found " +++ string_of_nat (length files)
                                       +++ " files to upload"))
                          (logs_of (fst r))));
      [apply upload_images_no_exit | |];
      intros t3 x E3; rewrite (upload_images_exec w dirname t files (Hd t)) in E3;
      cbv zeta in E3; unfold extend in E3; inversion E3; subst;
      unfold extend; cbn [fst]; rewrite logs_of_app; apply in_or_app; left;
      cbn [logs_of app]; now left.
  - destruct (uploads_in_listing_order dirname w files Hd) as [[k Hk] _].
    rewrite Hk, length_firstn, length_map. lia.
  - unfold accepted. apply filter_length_le.
Qed.

Lemma X15_witness :
  (reaches_upload (world_of first_run)
   /\ forall h, world_of first_run (ReaddirSync (IMAGES_DIR sample_dir)) h
                = Returned sample_files)
  /\ In (ConsoleLog "Found 3 files to upload")
        (logs_of (trace_of sample_dir (world_of first_run)))
  /\ length (upload_targets (trace_of sample_dir (world_of first_run))) <= 2.
Proof.
  assert (H1 : reaches_upload (world_of first_run)) by reflexivity.
  assert (H2 : forall h, world_of first_run (ReaddirSync (IMAGES_DIR sample_dir)) h
                         = Returned sample_files) by reflexivity.
  split; [split; assumption|].
  destruct (X15_found_line_counts_all_entries sample_dir (world_of first_run) sample_files
              H1 H2) as [Ha [Hb _]].
  split; [exact Ha | exact Hb].
Defined.

(* ------------------------------------------------------------------ *)
(** *** Exceptions of the policy requests *)

(** X16.  There are four policies.  When the request for one of them
    throws an error whose message is a string that contains
    [already exists], the loop body notes it with [console.log] and ends
    normally; for any other such message it reports the error with
    [console.error] and ends normally as well.  In both cases the loop goes
    on: a run that gets to the policies asks for all four, in order,
    whichever of these exceptions occur. *)
Theorem X16_thrown_policy_errors_tolerated (w : World) :
  length policies = 4
  /\ (forall policy h msg,
         In policy policies ->
         policy_outcome w policy h = Threw (JsError msg) ->
         exec w (create_policy policy) h
         = ([EvLog (ConsoleLog ("Creating policy: " +++ name policy));
             EvCall (create_storage_policy policy) (Threw (JsError msg));
             EvLog (if includes msg "already exists"
                    then ConsoleLog ("Policy " +++ name policy +++ " already exists")
                    else ConsoleError ("Error creating policy " +++ name policy +++ ":")
                                      (JsError msg))],
            Completed tt))
  /\ (forall dirname,
         reaches_policies w -> returns w enable_rls -> policies_answered w ->
         filter is_create_policy (calls_of (trace_of dirname w))
         = map create_storage_policy policies).
Proof.
  split; [reflexivity|]. split.
  - intros policy h msg _ H. now apply create_policy_threw.
  - intros dirname Hreach He Hp.
    destruct (run_through_policies dirname w Hreach He Hp) as [t1 [t3 [-> [H1 H3]]]].
    rewrite !filter_app. cbn [filter].
    change (is_create_policy enable_rls) with false. cbv iota.
    rewrite (proj1 (filter_policy_requests policies)).
    rewrite (filter_none is_create_policy (calls_of t1)).
    + rewrite (filter_none is_create_policy (calls_of t3)); [now rewrite app_nil_r|].
      eapply Forall_impl; [|exact H3]. intros c [Hc|Hc].
      * apply (upload_call_kind dirname c Hc).
      * apply (helper_call_kind dirname c Hc).
    + eapply Forall_impl; [|exact H1]. intros c Hc. apply (bucket_call_kind c Hc).
Qed.

Lemma X16_witness :
  (In uploads_policy policies
   /\ policy_outcome (world_of rerun) uploads_policy [] = Threw (JsError "policy already exists")
   /\ exec (world_of rerun) (create_policy uploads_policy) []
      = ([EvLog (ConsoleLog "Creating policy: Allow public uploads");
          EvCall (create_storage_policy uploads_policy) (Threw (JsError "policy already exists"));
          EvLog (ConsoleLog "Policy Allow public uploads already exists")],
         Completed tt))
  /\ (In reads_policy policies
      /\ policy_outcome (world_of first_run) reads_policy [] = Threw (JsError "permission denied")
      /\ exec (world_of first_run) (create_policy reads_policy) []
         = ([EvLog (ConsoleLog "Creating policy: Allow public reads");
             EvCall (create_storage_policy reads_policy) (Threw (JsError "permission denied"));
             EvLog (ConsoleError "Error creating policy Allow public reads:"
                                 (JsError "permission denied"))],
            Completed tt))
  /\ (reaches_policies (world_of first_run)
      /\ returns (world_of first_run) enable_rls
      /\ policies_answered (world_of first_run)
      /\ filter is_create_policy (calls_of (trace_of sample_dir (world_of first_run)))
         = map create_storage_policy policies).
Proof.
  assert (H1 : In uploads_policy policies) by (left; reflexivity).
  assert (H2 : In reads_policy policies) by (right; left; reflexivity).
  assert (He : returns (world_of first_run) enable_rls) by (intro h; eexists; reflexivity).
  split; [|split].
  - split; [exact H1|]. split; [reflexivity|].
    exact (proj1 (proj2 (X16_thrown_policy_errors_tolerated (world_of rerun)))
                 uploads_policy [] _ H1 eq_refl).
  - split; [exact H2|]. split; [reflexivity|].
    exact (proj1 (proj2 (X16_thrown_policy_errors_tolerated (world_of first_run)))
                 reads_policy [] _ H2 eq_refl).
  - split; [reflexivity|]. split; [exact He|]. split; [exact first_run_policies_answered|].
    exact (proj2 (proj2 (X16_thrown_policy_errors_tolerated (world_of first_run)))
                 sample_dir eq_refl He first_run_policies_answered).
Defined.
